(** * Delta: the command-prediction model and its trainers

    A shallow embedding of [training/train.py] and [training/train_multi.py].

    Conventions.
    - Python [int] is [Z]; [//] is [Z.div] and [%] is [Z.modulo] (both floor,
      sign of the divisor, as in Python) with the zero divisor raising.
    - Python [float] and tensor entries are idealised as real numbers [R];
      [-inf] logits are the extra point of [xreal].
    - A raised exception is [None] (or an [exn] where the handler matters).
    - Tensors are lists (of lists); a Python [set] of names is a [gset string]. *)

From Stdlib Require Import Reals Lra Lia ZArith List String Ascii.
From stdpp Require Import gmap strings list sorting pretty.

(** ** Python sequence operations *)

Module Py.

(** [l[:n]] *)
Definition slice_to {A} (l : list A) (n : Z) : list A :=
  if (0 <=? n)%Z then take (Z.to_nat n) l
  else take (length l - Z.to_nat (- n)) l.

(** [l[n:]] *)
Definition slice_from {A} (l : list A) (n : Z) : list A :=
  if (0 <=? n)%Z then drop (Z.to_nat n) l
  else drop (length l - Z.to_nat (- n)) l.

(** [l[i]], raising IndexError outside [-len, len) *)
Definition index {A} (l : list A) (i : Z) : option A :=
  if (0 <=? i)%Z then l !! Z.to_nat i
  else if (- Z.of_nat (length l) <=? i)%Z then l !! (length l - Z.to_nat (- i))
  else None.

(** [len(l)] *)
Definition len {A} (l : list A) : Z := Z.of_nat (length l).

Lemma slice_to_length {A} (l : list A) (n : Z) :
  (0 <= n)%Z -> len (slice_to l n) = Z.min n (len l).
Proof.
  intros Hn. unfold slice_to, len.
  destruct (Z.leb_spec 0 n); [|lia]. rewrite length_take. lia.
Qed.

Lemma slice_to_m1_length {A} (l : list A) :
  length (slice_to l (-1)) = length l - 1.
Proof.
  unfold slice_to. simpl. rewrite length_take. lia.
Qed.

Lemma slice_from_1_length {A} (l : list A) :
  length (slice_from l 1) = length l - 1.
Proof.
  unfold slice_from. simpl. rewrite length_drop. lia.
Qed.

Lemma slice_to_m1_lookup {A} (l : list A) (i : nat) :
  i < length l - 1 -> slice_to l (-1) !! i = l !! i.
Proof.
  intros Hi. unfold slice_to. simpl.
  rewrite lookup_take_lt; [done|]. simpl. lia.
Qed.

Lemma slice_from_1_lookup {A} (l : list A) (i : nat) :
  slice_from l 1 !! i = l !! (S i).
Proof.
  unfold slice_from. simpl. rewrite lookup_drop. done.
Qed.

End Py.

(** ** CommandDataset *)

Module CommandDataset.

(** The dataset object: [self.block_size] and the token lists of [self.data]
    (the only field of an item that [__getitem__] reads). *)
Record t := mk { block_size : Z; data : list (list Z) }.

(** "Pad or truncate to block_size" *)
Definition pad_or_truncate (bs : Z) (tokens : list Z) : list Z :=
  if (bs <? Py.len tokens)%Z then Py.slice_to tokens bs
  else if (Py.len tokens <? bs)%Z
       then tokens ++ replicate (Z.to_nat (bs - Py.len tokens)) 0%Z
       else tokens.

(** [__getitem__]: [None] is the IndexError of [self.data[idx]]. *)
Definition getitem (self : t) (idx : Z) : option (list Z * list Z) :=
  match Py.index (data self) idx with
  | None => None
  | Some tokens =>
      let tokens := pad_or_truncate (block_size self) tokens in
      Some (Py.slice_to tokens (-1), Py.slice_from tokens 1)
  end.

(** [idx] is accepted by [self.data[idx]]. *)
Definition valid_index (self : t) (idx : Z) : Prop :=
  (- Py.len (data self) <= idx < Py.len (data self))%Z.

Lemma index_valid {A} (l : list A) (i : Z) :
  (- Py.len l <= i < Py.len l)%Z -> is_Some (Py.index l i).
Proof.
  unfold Py.index, Py.len. intros Hi.
  destruct (Z.leb_spec 0 i).
  - apply lookup_lt_is_Some. lia.
  - destruct (Z.leb_spec (- Z.of_nat (length l)) i); [|lia].
    apply lookup_lt_is_Some. lia.
Qed.

Lemma pad_or_truncate_length (bs : Z) (tokens : list Z) :
  (0 <= bs)%Z -> Py.len (pad_or_truncate bs tokens) = bs.
Proof.
  intros Hbs. unfold pad_or_truncate.
  destruct (Z.ltb_spec bs (Py.len tokens)).
  - rewrite Py.slice_to_length by done. lia.
  - destruct (Z.ltb_spec (Py.len tokens) bs).
    + unfold Py.len in *. rewrite length_app, length_replicate. lia.
    + lia.
Qed.

(** The padded list starts with the stored tokens, cut at [block_size]. *)
Lemma pad_or_truncate_lookup_stored (bs : Z) (tokens : list Z) (i : nat) :
  (0 <= bs)%Z -> (Z.of_nat i < bs)%Z -> i < length tokens ->
  pad_or_truncate bs tokens !! i = tokens !! i.
Proof.
  intros Hbs Hi Hlen. unfold pad_or_truncate.
  destruct (Z.ltb_spec bs (Py.len tokens)).
  - unfold Py.slice_to. destruct (Z.leb_spec 0 bs); [|lia].
    apply lookup_take_lt. lia.
  - destruct (Z.ltb_spec (Py.len tokens) bs); [|done].
    by apply lookup_app_l.
Qed.

(** Past the stored tokens the padded list holds the filler 0. *)
Lemma pad_or_truncate_lookup_pad (bs : Z) (tokens : list Z) (i : nat) :
  (Z.of_nat i < bs)%Z -> length tokens <= i ->
  pad_or_truncate bs tokens !! i = Some 0%Z.
Proof.
  intros Hi Hlen. unfold pad_or_truncate, Py.len.
  destruct (Z.ltb_spec bs (Z.of_nat (length tokens))); [lia|].
  destruct (Z.ltb_spec (Z.of_nat (length tokens)) bs); [|lia].
  rewrite lookup_app_r by done. apply lookup_replicate_2. lia.
Qed.

(** C10. For a valid index and a block size of at least one, [__getitem__]
    returns [(x, y)] where both have length [block_size - 1], [x] is the first
    [block_size - 1] entries and [y] the last [block_size - 1] entries of the
    stored token list truncated or zero-padded to [block_size], and so
    [y[i] = x[i+1]] for every [i < block_size - 2]. *)
Theorem getitem_shifted_pair (self : t) (idx : Z) :
  (1 <= block_size self)%Z ->
  valid_index self idx ->
  exists stored x y,
    Py.index (data self) idx = Some stored /\
    getitem self idx = Some (x, y) /\
    Py.len x = (block_size self - 1)%Z /\
    Py.len y = (block_size self - 1)%Z /\
    (forall i : nat, (Z.of_nat i < block_size self - 1)%Z ->
       x !! i = pad_or_truncate (block_size self) stored !! i /\
       y !! i = pad_or_truncate (block_size self) stored !! (S i)) /\
    (forall i : nat, (Z.of_nat i < block_size self)%Z ->
       pad_or_truncate (block_size self) stored !! i =
         if decide (i < length stored) then stored !! i else Some 0%Z) /\
    (forall i : nat, (Z.of_nat i < block_size self - 2)%Z ->
       y !! i = x !! (S i) /\ is_Some (y !! i)).
Proof.
  intros Hbs Hidx.
  destruct (index_valid (data self) idx Hidx) as [stored Hst].
  pose proof (pad_or_truncate_length (block_size self) stored ltac:(lia)) as Hlen.
  unfold Py.len in Hlen.
  remember (pad_or_truncate (block_size self) stored) as tokens eqn:Htok.
  exists stored, (Py.slice_to tokens (-1)), (Py.slice_from tokens 1).
  rewrite <- Htok.
  split; [done|]. split.
  { unfold getitem. rewrite Hst, <- Htok. done. }
  split. { unfold Py.len. rewrite Py.slice_to_m1_length. lia. }
  split. { unfold Py.len. rewrite Py.slice_from_1_length. lia. }
  split.
  { intros i Hi. split.
    - apply Py.slice_to_m1_lookup. lia.
    - apply Py.slice_from_1_lookup. }
  split.
  { intros i Hi. subst tokens. case_decide.
    - apply pad_or_truncate_lookup_stored; lia.
    - apply pad_or_truncate_lookup_pad; lia. }
  intros i Hi. rewrite Py.slice_from_1_lookup.
  rewrite Py.slice_to_m1_lookup by lia. split; [done|].
  apply lookup_lt_is_Some. lia.
Qed.

(** A dataset of two commands with block size 4: index 0 is padded, index -1
    (the last command) is truncated. *)
Definition sample : t := mk 4 [[7; 8]; [1; 2; 3; 4; 5; 6]]%Z.

Example getitem_sample_padded :
  getitem sample 0 = Some ([7; 8; 0], [8; 0; 0])%Z.
Proof. reflexivity. Qed.

Example getitem_sample_truncated :
  getitem sample (-1) = Some ([1; 2; 3], [2; 3; 4])%Z.
Proof. reflexivity. Qed.

Example getitem_sample_out_of_range : getitem sample 2 = None.
Proof. reflexivity. Qed.

Lemma getitem_shifted_pair_witness :
  (1 <= block_size sample)%Z /\ valid_index sample 0 /\
  exists stored x y,
    Py.index (data sample) 0 = Some stored /\
    getitem sample 0 = Some (x, y) /\
    Py.len x = (block_size sample - 1)%Z /\
    Py.len y = (block_size sample - 1)%Z /\
    (forall i : nat, (Z.of_nat i < block_size sample - 1)%Z ->
       x !! i = pad_or_truncate (block_size sample) stored !! i /\
       y !! i = pad_or_truncate (block_size sample) stored !! (S i)) /\
    (forall i : nat, (Z.of_nat i < block_size sample)%Z ->
       pad_or_truncate (block_size sample) stored !! i =
         if decide (i < length stored) then stored !! i else Some 0%Z) /\
    (forall i : nat, (Z.of_nat i < block_size sample - 2)%Z ->
       y !! i = x !! (S i) /\ is_Some (y !! i)).
Proof.
  assert (H1 : (1 <= block_size sample)%Z) by (simpl; lia).
  assert (H2 : valid_index sample 0) by (unfold valid_index, Py.len; simpl; lia).
  split; [exact H1|]. split; [exact H2|].
  exact (getitem_shifted_pair sample 0 H1 H2).
Defined.

End CommandDataset.

(** ** Logit rows: values, ordering, sorting *)

Module Logits.
Local Open Scope R_scope.

(** A tensor entry as the sampling code sees it: a finite value, or the
    [-float('Inf')] that the filters write. *)
Inductive xreal : Type :=
| NegInf
| Fin (r : R).

Definition xlt (a b : xreal) : Prop :=
  match a, b with
  | _, NegInf => False
  | NegInf, Fin _ => True
  | Fin x, Fin y => x < y
  end.

Definition xle (a b : xreal) : Prop :=
  match a, b with
  | NegInf, _ => True
  | Fin _, NegInf => False
  | Fin x, Fin y => x <= y
  end.

Definition is_fin (a : xreal) : bool :=
  match a with NegInf => false | Fin _ => true end.

#[global] Instance Rlt_decision : RelDecision Rlt := Rlt_dec.
#[global] Instance Rle_decision : RelDecision Rle := Rle_dec.
#[global] Instance Req_decision : EqDecision R := Req_dec_T.

#[global] Instance xlt_decision : RelDecision xlt.
Proof.
  intros [|x] [|y]; simpl; try (right; tauto); try (left; exact I).
  apply Rlt_dec.
Defined.

#[global] Instance xreal_eq_decision : EqDecision xreal.
Proof.
  intros [|x] [|y]; try (right; discriminate); try (left; reflexivity).
  destruct (Req_dec_T x y) as [->|Hne]; [left; reflexivity|right; congruence].
Defined.

(** [exp] extended by [exp(-inf) = 0] *)
Definition xexp (a : xreal) : R :=
  match a with NegInf => 0 | Fin x => exp x end.

(** [sum] of a row of reals *)
Definition sumR (l : list R) : R := foldr Rplus 0 l.

(** [F.softmax(row, dim=-1)] *)
Definition softmax (row : list xreal) : list R :=
  let e := xexp <$> row in
  (fun x => x / sumR e) <$> e.

(** [torch.cumsum(row, dim=-1)], with the running total before the row *)
Fixpoint cumsum_from (acc : R) (l : list R) : list R :=
  match l with
  | [] => []
  | x :: l' => (acc + x) :: cumsum_from (acc + x) l'
  end.

Definition cumsum (l : list R) : list R := cumsum_from 0 l.

(** [torch.sort(row, descending=True)]: the entries paired with their
    original positions, largest first (insertion sort; ties keep their
    original order). *)
Fixpoint insert_desc (p : nat * xreal) (l : list (nat * xreal))
  : list (nat * xreal) :=
  match l with
  | [] => [p]
  | q :: l' =>
      if decide (xlt (snd p) (snd q)) then q :: insert_desc p l'
      else p :: q :: l'
  end.

Definition sort_desc (row : list xreal) : list (nat * xreal) :=
  foldr insert_desc [] (imap pair row).

(** The number of entries above [-inf]: the support of the softmax. *)
Definition support_size (row : list xreal) : nat :=
  length (filter (fun x => is_fin x = true) row).

(** *** Order facts *)

Lemma xlt_irrefl a : ~ xlt a a.
Proof. destruct a; simpl; [tauto|lra]. Qed.

Lemma not_xlt_xle a b : ~ xlt a b <-> xle b a.
Proof. destruct a, b; simpl; try tauto. lra. Qed.

Lemma xle_trans a b c : xle a b -> xle b c -> xle a c.
Proof. destruct a, b, c; simpl; try tauto. lra. Qed.

Lemma xle_xlt_trans a b c : xle a b -> xlt b c -> xlt a c.
Proof. destruct a, b, c; simpl; try tauto. lra. Qed.

Lemma xle_refl a : xle a a.
Proof. destruct a; simpl; [tauto|lra]. Qed.

Lemma xle_total a b : xle a b \/ xle b a.
Proof. destruct a, b; simpl; try tauto. lra. Qed.

Lemma xle_fin a b : xle a b -> is_fin a = true -> is_fin b = true.
Proof. destruct a, b; simpl; tauto. Qed.

Lemma xexp_nonneg a : 0 <= xexp a.
Proof. destruct a; simpl; [lra|]. left. apply exp_pos. Qed.

Lemma xexp_pos a : is_fin a = true -> 0 < xexp a.
Proof. destruct a; simpl; [discriminate|]. intros _. apply exp_pos. Qed.

Lemma xexp_mono a b : xle a b -> xexp a <= xexp b.
Proof.
  destruct a as [|x], b as [|y]; simpl; try tauto; try lra.
  - intros _. left. apply exp_pos.
  - intros [Hlt| ->]; [left; by apply exp_increasing|lra].
Qed.

(** *** Sums *)

Lemma sumR_cons x l : sumR (x :: l) = x + sumR l.
Proof. reflexivity. Qed.

Lemma sumR_app l1 l2 : sumR (l1 ++ l2) = sumR l1 + sumR l2.
Proof. induction l1 as [|x l1 IH]; simpl; [lra|]. rewrite IH. lra. Qed.

Lemma sumR_perm l1 l2 : l1 ≡ₚ l2 -> sumR l1 = sumR l2.
Proof. induction 1; simpl; lra. Qed.

Lemma sumR_nonneg l : Forall (fun x => 0 <= x) l -> 0 <= sumR l.
Proof. induction 1; simpl; lra. Qed.

Lemma sumR_fmap_div (l : list R) (s : R) :
  sumR ((fun x => x / s) <$> l) = sumR l / s.
Proof.
  induction l as [|x l IH]; [simpl; unfold Rdiv; lra|].
  rewrite fmap_cons, !sumR_cons, IH. unfold Rdiv. lra.
Qed.

Lemma sumR_xexp_nonneg row : 0 <= sumR (xexp <$> row).
Proof.
  apply sumR_nonneg, Forall_forall. intros x Hx.
  apply list_elem_of_fmap in Hx as (a & -> & _).
  apply xexp_nonneg.
Qed.

Lemma sumR_xexp_pos row :
  Exists (fun a => is_fin a = true) row -> 0 < sumR (xexp <$> row).
Proof.
  induction 1 as [a row Ha|a row _ IH]; rewrite fmap_cons, sumR_cons.
  - pose proof (xexp_pos a Ha). pose proof (sumR_xexp_nonneg row). lra.
  - pose proof (xexp_nonneg a). lra.
Qed.

(** *** The sort is a sort *)

Lemma insert_desc_perm p l : insert_desc p l ≡ₚ p :: l.
Proof.
  induction l as [|q l IH]; simpl; [done|].
  case_decide; [|done]. rewrite IH. apply Permutation_swap.
Qed.

Lemma sort_desc_perm row : sort_desc row ≡ₚ imap pair row.
Proof.
  unfold sort_desc. induction (imap pair row) as [|p l IH]; simpl; [done|].
  rewrite insert_desc_perm. by constructor.
Qed.

Lemma sort_desc_length row : length (sort_desc row) = length row.
Proof. rewrite (Permutation_length (sort_desc_perm row)). apply length_imap. Qed.

(** Descending order on the values of an indexed row. *)
Definition desc (p q : nat * xreal) : Prop := xle (snd q) (snd p).

Lemma insert_desc_sorted p l :
  StronglySorted desc l -> StronglySorted desc (insert_desc p l).
Proof.
  induction 1 as [|q l Hl IH Hq]; simpl.
  - repeat constructor.
  - case_decide as Hpq.
    + constructor; [done|].
      apply Forall_forall. intros r Hr.
      rewrite insert_desc_perm in Hr.
      apply elem_of_cons in Hr as [->|Hr].
      * unfold desc. destruct (snd p), (snd q); simpl in *; try tauto; lra.
      * rewrite Forall_forall in Hq. by apply Hq.
    + apply not_xlt_xle in Hpq.
      constructor; [by constructor|].
      constructor; [done|].
      eapply Forall_impl; [exact Hq|].
      intros r Hr. unfold desc in *. by eapply xle_trans.
Qed.

Lemma sort_desc_sorted row : StronglySorted desc (sort_desc row).
Proof.
  unfold sort_desc. induction (imap pair row) as [|p l IH]; simpl.
  - constructor.
  - by apply insert_desc_sorted.
Qed.

End Logits.

(** ** The sampling filters of [DeltaGPT.generate] *)

Module Sampling.
Import Logits.
Local Open Scope R_scope.

(** [torch.topk(row, k)]: the [k] largest values, largest first; raises
    unless [0 <= k <= len(row)]. *)
Definition topk (row : list xreal) (k : Z) : option (list xreal) :=
  if decide (0 <= k <= Py.len row)%Z
  then Some (take (Z.to_nat k) (snd <$> sort_desc row))
  else None.

(** The [k]-th largest value of a row, counting from 1. *)
Definition kth_largest (row : list xreal) (k : nat) : option xreal :=
  (snd <$> sort_desc row) !! (k - 1)%nat.

(** [logits[logits < thr] = -float('Inf')] *)
Definition mask_below (thr : xreal) (row : list xreal) : list xreal :=
  (fun x => if decide (xlt x thr) then NegInf else x) <$> row.

(** The [top_k] branch:
    [v, _ = torch.topk(logits, top_k); logits[logits < v[:, [-1]]] = -inf] *)
Definition top_k_filter (top_k : Z) (row : list xreal) : option (list xreal) :=
  v ← topk row top_k;
  thr ← Py.index v (-1);
  Some (mask_below thr row).

(** Settles the comparisons of concrete reals that evaluating a filter on a
    concrete row leaves behind. *)
Ltac eval_real_tests :=
  repeat (simpl;
          match goal with
          | |- context [decide (?a < ?b)] =>
              first [ rewrite (decide_True (P := a < b)) by lra
                    | rewrite (decide_False (P := a < b)) by lra ]
          | |- context [decide (?a < ?b <= ?c)] =>
              first [ rewrite (decide_True (P := a < b <= c)) by lra
                    | rewrite (decide_False (P := a < b <= c)) by lra ]
          end).

(** *** Helper lemmas *)

Lemma snd_imap_pair {A} (g : nat -> nat) (l : list A) :
  snd <$> imap (fun i x => (g i, x)) l = l.
Proof.
  revert g. induction l as [|x l IH]; intros g; [done|].
  simpl. f_equal. apply (IH (g ∘ S)).
Qed.

Lemma fst_imap_pair {A} (l : list A) (k : nat) :
  fst <$> imap (fun i x => (k + i, x)%nat) l = seq k (length l).
Proof.
  revert k. induction l as [|x l IH]; intros k; [done|].
  simpl. f_equal; [lia|]. rewrite <- (IH (S k)).
  f_equal. apply imap_ext. intros i y _. simpl. f_equal. lia.
Qed.

Lemma sorted_values_perm row : snd <$> sort_desc row ≡ₚ row.
Proof.
  rewrite (sort_desc_perm row).
  change (imap pair row) with (imap (fun i x => ((fun i => i) i, x)) row).
  by rewrite snd_imap_pair.
Qed.

Lemma sorted_values_length row : length (snd <$> sort_desc row) = length row.
Proof. by rewrite length_fmap, sort_desc_length. Qed.

Lemma StronglySorted_lookup_lt {A} (Rel : A -> A -> Prop) (l : list A) :
  StronglySorted Rel l ->
  forall i j a b, (i < j)%nat -> l !! i = Some a -> l !! j = Some b -> Rel a b.
Proof.
  induction 1 as [|x l Hl IH Hx]; intros i j a b Hij Hi Hj; [done|].
  destruct j as [|j]; [lia|]. simpl in Hj.
  destruct i as [|i]; simpl in Hi.
  - injection Hi as <-. rewrite Forall_forall in Hx.
    apply Hx. by eapply list_elem_of_lookup_2.
  - eapply (IH i j); [lia|done..].
Qed.

(** The sorted values are descending: later entries are no larger. *)
Lemma sorted_values_desc row i j a b :
  (i <= j)%nat ->
  (snd <$> sort_desc row) !! i = Some a ->
  (snd <$> sort_desc row) !! j = Some b ->
  xle b a.
Proof.
  intros Hij Hi Hj.
  destruct (decide (i = j)) as [->|Hne].
  { rewrite Hi in Hj. injection Hj as <-. apply xle_refl. }
  rewrite list_lookup_fmap in Hi, Hj.
  destruct (sort_desc row !! i) as [p|] eqn:Hp; [|done].
  destruct (sort_desc row !! j) as [q|] eqn:Hq; [|done].
  simpl in Hi, Hj. injection Hi as <-. injection Hj as <-.
  apply (StronglySorted_lookup_lt desc _ (sort_desc_sorted row) i j p q);
    [lia|done..].
Qed.

Lemma support_size_app l1 l2 :
  support_size (l1 ++ l2) = (support_size l1 + support_size l2)%nat.
Proof. unfold support_size. by rewrite filter_app, length_app. Qed.

Lemma support_size_le l : (support_size l <= length l)%nat.
Proof. apply length_filter. Qed.

Lemma support_size_perm l1 l2 : l1 ≡ₚ l2 -> support_size l1 = support_size l2.
Proof. intros H. unfold support_size. by rewrite H. Qed.

Lemma support_size_all_masked thr l :
  Forall (fun x => xlt x thr) l -> support_size (mask_below thr l) = 0%nat.
Proof.
  induction 1 as [|x l Hx _ IH]; [done|].
  unfold mask_below in *. rewrite fmap_cons.
  change (?a :: ?l) with ([a] ++ l). rewrite support_size_app, IH.
  unfold support_size. simpl. rewrite decide_True by done. done.
Qed.

Lemma mask_below_length thr row : length (mask_below thr row) = length row.
Proof. apply length_fmap. Qed.

(** A surviving entry is unchanged and not below the threshold. *)
Lemma mask_below_lookup thr row i x :
  mask_below thr row !! i = Some x -> is_fin x = true ->
  row !! i = Some x /\ ~ xlt x thr.
Proof.
  unfold mask_below. rewrite list_lookup_fmap.
  destruct (row !! i) as [y|]; [|done]. simpl.
  case_decide; intros [= <-]; [done|]. by intros _.
Qed.

Lemma index_last {A} (l : list A) :
  Py.index l (-1) = l !! (length l - 1)%nat.
Proof.
  unfold Py.index. simpl.
  destruct (Z.leb_spec (- Z.of_nat (length l)) (-1)) as [H|H]; [done|].
  symmetry. destruct l; [done|]. simpl in H. lia.
Qed.

Lemma top_k_filter_eq (K : Z) (row : list xreal) :
  (1 <= K <= Py.len row)%Z ->
  exists thr, kth_largest row (Z.to_nat K) = Some thr /\
              top_k_filter K row = Some (mask_below thr row).
Proof.
  intros HK. unfold Py.len in HK.
  assert (Hlt : (Z.to_nat K - 1 < length (snd <$> sort_desc row))%nat)
    by (rewrite sorted_values_length; lia).
  apply lookup_lt_is_Some in Hlt as [thr Hthr].
  exists thr. split; [done|].
  unfold top_k_filter, topk, Py.len. rewrite decide_True by lia. simpl.
  rewrite index_last, length_take, sorted_values_length.
  replace (Z.to_nat K `min` length row - 1)%nat with (Z.to_nat K - 1)%nat by lia.
  rewrite lookup_take_lt by lia. rewrite Hthr. done.
Qed.

(** C3, as amended. With [top_k = K] active and [1 <= K <= vocab_size], the
    filter succeeds, and at most [K] logits stay above [-inf] whenever the
    [K]-th largest logit is strictly above the [(K+1)]-th (no tie at the
    cut). *)
Theorem top_k_support_bound (K : Z) (row : list xreal) :
  (1 <= K <= Py.len row)%Z ->
  (forall a b, kth_largest row (Z.to_nat K) = Some a ->
               kth_largest row (Z.to_nat K + 1) = Some b -> xlt b a) ->
  exists out, top_k_filter K row = Some out /\
              length out = length row /\
              (Z.of_nat (support_size out) <= K)%Z.
Proof.
  intros HK Hcut.
  destruct (top_k_filter_eq K row HK) as (thr & Hthr & Heq).
  exists (mask_below thr row). split; [done|].
  split; [apply mask_below_length|].
  set (s := snd <$> sort_desc row) in *.
  set (k := Z.to_nat K) in *.
  assert (Hperm : mask_below thr row ≡ₚ mask_below thr s).
  { unfold mask_below. apply fmap_Permutation. symmetry.
    apply sorted_values_perm. }
  rewrite (support_size_perm _ _ Hperm).
  rewrite <- (take_drop k s). unfold mask_below. rewrite fmap_app.
  rewrite support_size_app.
  fold (mask_below thr (take k s)). fold (mask_below thr (drop k s)).
  rewrite (support_size_all_masked thr (drop k s)).
  - pose proof (support_size_le (mask_below thr (take k s))) as Hle.
    rewrite mask_below_length, length_take in Hle. lia.
  - apply Forall_forall. intros y Hy.
    apply list_elem_of_lookup_1 in Hy as [j Hj].
    rewrite lookup_drop in Hj.
    assert (Hk : is_Some (s !! k)).
    { apply lookup_lt_is_Some. apply lookup_lt_Some in Hj. lia. }
    destruct Hk as [b Hb].
    apply (xle_xlt_trans y b thr).
    + apply (sorted_values_desc row k (k + j) b y); [lia|done..].
    + apply Hcut; [done|]. unfold kth_largest. fold s.
      by replace (k + 1 - 1)%nat with k by lia.
Qed.

(** Two equal logits with [top_k = 1]: nothing is below the threshold, so
    both survive. *)
Lemma top_k_ties_exceed_k :
  top_k_filter 1 [Fin 1; Fin 1] = Some [Fin 1; Fin 1] /\
  ~ (Z.of_nat (support_size [Fin 1; Fin 1]) <= 1)%Z.
Proof.
  split.
  - unfold top_k_filter, topk, sort_desc, mask_below. by eval_real_tests.
  - unfold support_size. simpl. lia.
Qed.

(** Distinct logits: the filter keeps exactly the [K] largest. *)
Example top_k_distinct :
  top_k_filter 2 [Fin 1; Fin 3; Fin 2] = Some [NegInf; Fin 3; Fin 2].
Proof.
  unfold top_k_filter, topk, sort_desc, mask_below. by eval_real_tests.
Qed.

Lemma top_k_support_bound_witness :
  exists out, top_k_filter 2 [Fin 1; Fin 3; Fin 2] = Some out /\
              length out = 3%nat /\
              (Z.of_nat (support_size out) <= 2)%Z.
Proof.
  apply (top_k_support_bound 2 [Fin 1; Fin 3; Fin 2]).
  - unfold Py.len. simpl. lia.
  - unfold kth_largest, sort_desc. eval_real_tests.
    intros a b [= <-] [= <-]. simpl. lra.
Defined.

(** *** The nucleus (top-p) branch *)

(** [self.scatter(1, index, src)]: a copy of [self] with
    [out[index[j]] = src[j]] for every [j]. *)
Definition scatter {A} (self : list A) (index : list nat) (src : list A)
  : list A :=
  foldl (fun out ib => <[ib.1 := ib.2]> out) self (zip index src).

(** [cumulative_probs > top_p] *)
Definition above (top_p : R) (c : R) : bool := bool_decide (top_p < c).

(** The [top_p] branch of [generate] on one row. [None] is the IndexError
    of [sorted_indices_to_remove[..., 0] = 0] on an empty row. *)
Definition top_p_filter (top_p : R) (row : list xreal) : option (list xreal) :=
  let sorted := sort_desc row in
  let sorted_logits := snd <$> sorted in
  let sorted_indices := fst <$> sorted in
  let cumulative_probs := cumsum (softmax sorted_logits) in
  let sorted_indices_to_remove := above top_p <$> cumulative_probs in
  match sorted_indices_to_remove with
  | [] => None
  | _ :: _ =>
      (* [..., 1:] = [..., :-1].clone(), then [..., 0] = 0 *)
      let shifted := false :: Py.slice_to sorted_indices_to_remove (-1) in
      let indices_to_remove := scatter shifted sorted_indices shifted in
      Some (zip_with (fun (b : bool) x => if b then NegInf else x)
              indices_to_remove row)
  end.

(** The softmax probability, under the row given to the filter, of the
    tokens whose logit the filter left above [-inf]. *)
Definition kept_mass (row out : list xreal) : R :=
  sumR (zip_with (fun o p => if is_fin o then p else 0) out (softmax row)).

(** The running totals before each entry: [before_from a [x; y; ..]] is
    [[a; a + x; a + x + y; ..]] without its last element. *)
Fixpoint before_from (acc : R) (l : list R) : list R :=
  match l with
  | [] => []
  | x :: l' => acc :: before_from (acc + x) l'
  end.

(** The mass that survives when entry [j] is dropped as soon as the running
    total before it exceeds [top_p]. *)
Definition mass_from (top_p acc : R) (l : list R) : R :=
  sumR (zip_with (fun (b : bool) x => if b then 0 else x)
          (above top_p <$> before_from acc l) l).

Lemma cumsum_from_length acc l : length (cumsum_from acc l) = length l.
Proof. revert acc. induction l; intros; simpl; [done|]. by rewrite IHl. Qed.

Lemma before_from_length acc l : length (before_from acc l) = length l.
Proof. revert acc. induction l; intros; simpl; [done|]. by rewrite IHl. Qed.

Lemma slice_to_m1_take {A} (l : list A) :
  Py.slice_to l (-1) = take (length l - 1) l.
Proof. unfold Py.slice_to. simpl. done. Qed.

(** Dropping the last cumulative sum leaves the totals before each later
    entry. *)
Lemma cumsum_drop_last acc x l :
  Py.slice_to (cumsum_from acc (x :: l)) (-1) = before_from (acc + x) l.
Proof.
  rewrite slice_to_m1_take. revert acc x.
  induction l as [|y l IH]; intros acc x; [done|].
  specialize (IH (acc + x) y).
  simpl in *. rewrite cumsum_from_length in *.
  replace (length l - 0)%nat with (length l) in IH by lia.
  destruct l as [|z l]; [done|]. simpl in *. f_equal. exact IH.
Qed.

Lemma mass_from_nil top_p acc : mass_from top_p acc [] = 0.
Proof. reflexivity. Qed.

Lemma mass_from_cons top_p acc x l :
  mass_from top_p acc (x :: l) =
  (if above top_p acc then 0 else x) + mass_from top_p (acc + x) l.
Proof. reflexivity. Qed.

Lemma mass_from_all_removed top_p acc l :
  top_p < acc -> Forall (fun x => 0 <= x) l -> mass_from top_p acc l = 0.
Proof.
  intros Hacc Hl. revert acc Hacc.
  induction Hl as [|x l Hx _ IH]; intros acc Hacc; [done|].
  rewrite mass_from_cons, IH by lra. unfold above.
  rewrite bool_decide_eq_true_2 by done. lra.
Qed.

Lemma mass_from_reaches top_p acc l :
  acc <= top_p -> Forall (fun x => 0 <= x) l ->
  Rmin top_p (acc + sumR l) <= acc + mass_from top_p acc l.
Proof.
  intros Hacc Hl. revert acc Hacc.
  induction Hl as [|x l Hx Hl IH]; intros acc Hacc.
  - rewrite mass_from_nil. change (sumR []) with 0.
    rewrite Rplus_0_r. apply Rmin_r.
  - rewrite mass_from_cons, sumR_cons. unfold above.
    rewrite bool_decide_eq_false_2 by lra.
    destruct (Rle_dec (acc + x) top_p) as [Hle|Hgt].
    + specialize (IH (acc + x) Hle).
      replace (acc + (x + sumR l)) with (acc + x + sumR l) by lra. lra.
    + rewrite (mass_from_all_removed top_p (acc + x) l) by (done || lra).
      pose proof (Rmin_l top_p (acc + (x + sumR l))). lra.
Qed.

(** The nucleus of a probability row: the first entry is always kept, a
    later one is dropped once the cumulative sum before it exceeds
    [top_p]; what is kept weighs at least [min top_p total]. *)
Lemma nucleus_mass top_p (q : list R) :
  Forall (fun x => 0 <= x) q -> q <> [] ->
  Rmin top_p (sumR q) <=
  sumR (zip_with (fun (b : bool) x => if b then 0 else x)
          (false :: Py.slice_to (above top_p <$> cumsum q) (-1)) q).
Proof.
  intros Hq Hne. destruct q as [|x q]; [done|].
  apply Forall_cons in Hq as [Hx Hq].
  unfold cumsum.
  assert (Hsl : Py.slice_to (above top_p <$> cumsum_from 0 (x :: q)) (-1)
                = above top_p <$> before_from (0 + x) q).
  { rewrite <- cumsum_drop_last, !slice_to_m1_take, length_fmap.
    by rewrite fmap_take. }
  rewrite Hsl.
  change (sumR (zip_with _ (false :: _) (x :: q)))
    with (x + mass_from top_p (0 + x) q).
  rewrite sumR_cons, Rplus_0_l.
  destruct (Rle_dec x top_p) as [Hle|Hgt].
  - apply mass_from_reaches; done.
  - rewrite mass_from_all_removed by (done || lra).
    pose proof (Rmin_l top_p (x + sumR q)). lra.
Qed.

(** *** [scatter] along a permutation *)

Lemma scatter_cons {A} (self : list A) i index b src :
  scatter self (i :: index) (b :: src) = scatter (<[i:=b]> self) index src.
Proof. reflexivity. Qed.

Lemma scatter_length {A} (self : list A) index src :
  length (scatter self index src) = length self.
Proof.
  revert self src. induction index as [|i index IH]; intros self src; [done|].
  destruct src as [|b src]; [done|].
  by rewrite scatter_cons, IH, length_insert.
Qed.

Lemma scatter_lookup_notin {A} (self : list A) index src i :
  i ∉ index -> scatter self index src !! i = self !! i.
Proof.
  revert self src. induction index as [|i0 index IH]; intros self src Hi; [done|].
  destruct src as [|b src]; [done|].
  apply not_elem_of_cons in Hi as [Hne Hi].
  rewrite scatter_cons, IH by done. by apply list_lookup_insert_ne.
Qed.

Lemma scatter_lookup {A} (self : list A) index src j i b :
  NoDup index -> index !! j = Some i -> src !! j = Some b ->
  (i < length self)%nat ->
  scatter self index src !! i = Some b.
Proof.
  revert self src j.
  induction index as [|i0 index IH]; intros self src j Hnd Hi Hb Hlen; [done|].
  destruct src as [|b0 src]; [done|].
  apply NoDup_cons in Hnd as [Hnotin Hnd].
  rewrite scatter_cons. destruct j as [|j]; simpl in Hi, Hb.
  - injection Hi as ->. injection Hb as ->.
    rewrite scatter_lookup_notin by done. by apply list_lookup_insert_eq.
  - apply (IH _ _ j); try done. by rewrite length_insert.
Qed.

Lemma imap_pair_elem {A} (l : list A) i v :
  (i, v) ∈ imap pair l <-> l !! i = Some v.
Proof.
  rewrite list_elem_of_lookup. split.
  - intros [j Hj]. rewrite list_lookup_imap in Hj.
    destruct (l !! j) as [x|] eqn:Hx; [|done].
    simpl in Hj. by injection Hj as <- <-.
  - intros Hi. exists i. by rewrite list_lookup_imap, Hi.
Qed.

Lemma sorted_indices_perm row :
  fst <$> sort_desc row ≡ₚ seq 0 (length row).
Proof.
  rewrite (sort_desc_perm row).
  change (imap pair row) with (imap (fun i x => ((0 + i)%nat, x)) row).
  by rewrite fst_imap_pair.
Qed.

Lemma sort_desc_lookup row j i v :
  sort_desc row !! j = Some (i, v) -> row !! i = Some v.
Proof.
  intros Hj. apply imap_pair_elem. rewrite <- (sort_desc_perm row).
  by eapply list_elem_of_lookup_2.
Qed.

Lemma softmax_length row : length (softmax row) = length row.
Proof. unfold softmax. by rewrite !length_fmap. Qed.

Lemma softmax_lookup row i :
  softmax row !! i = (fun x => xexp x / sumR (xexp <$> row)) <$> row !! i.
Proof.
  unfold softmax. rewrite !list_lookup_fmap. by destruct (row !! i).
Qed.

Lemma softmax_nonneg row : Forall (fun x => 0 <= x) (softmax row).
Proof.
  apply Forall_forall. intros p Hp.
  apply list_elem_of_lookup_1 in Hp as [i Hi]. rewrite softmax_lookup in Hi.
  destruct (row !! i) as [x|]; [|done]. simpl in Hi. injection Hi as <-.
  pose proof (sumR_xexp_nonneg row) as [Hpos|Hz].
  - apply Rmult_le_pos; [apply xexp_nonneg|]. left. by apply Rinv_0_lt_compat.
  - rewrite <- Hz. unfold Rdiv. rewrite Rinv_0. lra.
Qed.

(** A row with a finite logit has a softmax that sums to one. *)
Lemma softmax_total row :
  Exists (fun a => is_fin a = true) row -> sumR (softmax row) = 1.
Proof.
  intros Hfin. unfold softmax. rewrite sumR_fmap_div.
  pose proof (sumR_xexp_pos row Hfin). field. lra.
Qed.

(** *** The nucleus filter on one row *)

Section Nucleus.

Variable top_p : R.
Variable row : list xreal.
Hypothesis row_finite : Exists (fun a => is_fin a = true) row.

(** The intermediate tensors of the branch, named as in the source. *)
Definition sorted : list (nat * xreal) := sort_desc row.
Definition probs : list R := softmax (snd <$> sorted).
Definition shifted : list bool :=
  false :: Py.slice_to (above top_p <$> cumsum probs) (-1).
Definition flags : list bool := scatter shifted (fst <$> sorted) shifted.
Definition out : list xreal :=
  zip_with (fun (b : bool) x => if b then NegInf else x) flags row.

(** The weight of an indexed entry in [kept_mass]. *)
Definition weight (p : nat * xreal) : R :=
  match flags !! p.1 with
  | Some true => 0
  | _ => xexp p.2 / sumR (xexp <$> row)
  end.

Lemma nucleus_row_nonempty : row <> [].
Proof. intros ->. by apply Exists_nil in row_finite. Qed.

Lemma nucleus_probs_length : length probs = length row.
Proof. unfold probs, sorted. by rewrite softmax_length, sorted_values_length. Qed.

Lemma nucleus_shifted_length : length shifted = length row.
Proof.
  unfold shifted. simpl.
  rewrite slice_to_m1_take, length_take, !length_fmap.
  unfold cumsum. rewrite cumsum_from_length, nucleus_probs_length.
  pose proof nucleus_row_nonempty. destruct row; [done|]. simpl. lia.
Qed.

Lemma nucleus_flags_length : length flags = length row.
Proof.
  unfold flags. by rewrite scatter_length, nucleus_shifted_length.
Qed.

Lemma top_p_filter_eq : top_p_filter top_p row = Some out.
Proof.
  unfold top_p_filter. fold sorted. fold probs.
  destruct (above top_p <$> cumsum probs) as [|b l] eqn:Hc.
  - apply (f_equal length) in Hc.
    rewrite length_fmap in Hc. unfold cumsum in Hc.
    rewrite cumsum_from_length, nucleus_probs_length in Hc.
    pose proof nucleus_row_nonempty. by destruct row.
  - unfold out, flags, shifted. by rewrite Hc.
Qed.

(** The flag scattered back to position [i] is the one computed for the
    place of [i] in the sorted order. *)
Lemma nucleus_flag_at j i v :
  sorted !! j = Some (i, v) -> flags !! i = shifted !! j.
Proof.
  intros Hj.
  assert (Hjlt : (j < length shifted)%nat).
  { rewrite nucleus_shifted_length, <- (sort_desc_length row).
    by eapply lookup_lt_Some. }
  apply lookup_lt_is_Some in Hjlt as [b Hb]. rewrite Hb.
  apply (scatter_lookup _ _ _ j); [| |done|].
  - rewrite (sorted_indices_perm row). apply NoDup_seq.
  - by rewrite list_lookup_fmap, Hj.
  - rewrite nucleus_shifted_length.
    apply sort_desc_lookup in Hj. by eapply lookup_lt_Some.
Qed.

Lemma kept_mass_weights :
  kept_mass row out = sumR (weight <$> imap pair row).
Proof.
  unfold kept_mass. f_equal. apply list_eq. intros i.
  rewrite lookup_zip_with, softmax_lookup, list_lookup_fmap, list_lookup_imap.
  unfold out. rewrite lookup_zip_with.
  destruct (row !! i) as [x|] eqn:Hx; simpl.
  - assert (Hi : (i < length flags)%nat).
    { rewrite nucleus_flags_length. by eapply lookup_lt_Some. }
    apply lookup_lt_is_Some in Hi as [b Hb].
    unfold weight. simpl. rewrite Hb. simpl.
    destruct b; simpl; [done|].
    destruct x; simpl; [|done]. unfold Rdiv. by rewrite Rmult_0_l.
  - by destruct (flags !! i).
Qed.

Lemma sorted_weights :
  weight <$> sorted =
  zip_with (fun (b : bool) x => if b then 0 else x) shifted probs.
Proof.
  apply list_eq. intros j.
  rewrite list_lookup_fmap, lookup_zip_with. unfold probs.
  rewrite softmax_lookup, list_lookup_fmap.
  destruct (sorted !! j) as [[i v]|] eqn:Hj; simpl.
  - rewrite <- (nucleus_flag_at j i v Hj).
    assert (Hi : (i < length flags)%nat).
    { rewrite nucleus_flags_length.
      apply sort_desc_lookup in Hj. by eapply lookup_lt_Some. }
    apply lookup_lt_is_Some in Hi as [b Hb].
    unfold weight. simpl. rewrite Hb. simpl.
    rewrite (sumR_perm (xexp <$> (snd <$> sorted)) (xexp <$> row)).
    + by destruct b.
    + apply fmap_Permutation, sorted_values_perm.
  - by destruct (shifted !! j).
Qed.

Lemma nucleus_kept_mass : Rmin top_p 1 <= kept_mass row out.
Proof.
  rewrite kept_mass_weights.
  rewrite <- (sumR_perm (weight <$> sorted)).
  - rewrite sorted_weights. unfold shifted.
    replace 1 with (sumR probs).
    + apply nucleus_mass; [apply softmax_nonneg|].
      intros Hq. apply (f_equal length) in Hq.
      rewrite nucleus_probs_length in Hq.
      pose proof nucleus_row_nonempty. by destruct row.
    + apply softmax_total.
      rewrite <- (sorted_values_perm row) in row_finite. exact row_finite.
  - apply fmap_Permutation, sort_desc_perm.
Qed.

(** The head of the sorted order survives, and it is a largest logit. *)
Lemma nucleus_keeps_largest :
  exists i x, out !! i = Some x /\ row !! i = Some x /\ is_fin x = true /\
              forall y, y ∈ row -> xle y x.
Proof.
  assert (H0 : (0 < length sorted)%nat).
  { unfold sorted. rewrite sort_desc_length.
    pose proof nucleus_row_nonempty. destruct row; [done|]. simpl. lia. }
  apply lookup_lt_is_Some in H0 as [[i x] Hix].
  pose proof (sort_desc_lookup row 0 i x Hix) as Hrow.
  assert (Hmax : forall y, y ∈ row -> xle y x).
  { intros y Hy. rewrite <- (sorted_values_perm row) in Hy.
    apply list_elem_of_lookup_1 in Hy as [j Hj].
    apply (sorted_values_desc row 0 j x y); [lia| |done].
    fold sorted. by rewrite list_lookup_fmap, Hix. }
  exists i, x. split; [|split; [done|split; [|done]]].
  - unfold out. rewrite lookup_zip_with.
    rewrite (nucleus_flag_at 0 i x Hix). simpl. by rewrite Hrow.
  - apply Exists_exists in row_finite as (a & Ha & Hfin).
    eapply xle_fin; [|exact Hfin]. by apply Hmax.
Qed.

Lemma nucleus_survivor_unchanged i x :
  out !! i = Some x -> is_fin x = true -> row !! i = Some x.
Proof.
  unfold out. rewrite lookup_zip_with.
  destruct (flags !! i) as [b|]; [|done]. simpl.
  destruct (row !! i) as [y|]; [|done]. simpl.
  destruct b; intros [= <-]; done.
Qed.

End Nucleus.

(** C2. On a row with at least one finite logit and a nucleus threshold
    [top_p <= 1], the filter succeeds; the tokens it leaves above [-inf]
    keep their logit and carry softmax probability at least [top_p]; and a
    largest logit (a highest-probability token) is among them, so the kept
    set is not empty. *)
Theorem top_p_keeps_nucleus (top_p : R) (row : list xreal) :
  top_p <= 1 ->
  Exists (fun a => is_fin a = true) row ->
  exists out,
    top_p_filter top_p row = Some out /\
    length out = length row /\
    (forall i x, out !! i = Some x -> is_fin x = true -> row !! i = Some x) /\
    top_p <= kept_mass row out /\
    (1 <= support_size out)%nat /\
    (exists i x, out !! i = Some x /\ is_fin x = true /\
                 forall y, y ∈ row -> xle y x).
Proof.
  intros Hp Hfin. exists (out top_p row).
  destruct (nucleus_keeps_largest top_p row Hfin) as (i & x & Ho & _ & Hx & Hmax).
  split; [by apply top_p_filter_eq|].
  split.
  { unfold out. rewrite length_zip_with, nucleus_flags_length by done. lia. }
  split; [apply nucleus_survivor_unchanged|].
  split.
  { pose proof (nucleus_kept_mass top_p row Hfin) as Hm.
    rewrite Rmin_left in Hm by done. exact Hm. }
  split; [|by exists i, x].
  unfold support_size.
  assert (Hin : x ∈ filter (fun a => is_fin a = true) (out top_p row)).
  { apply list_elem_of_filter. split; [done|]. by eapply list_elem_of_lookup_2. }
  destruct (filter _ _); [by apply not_elem_of_nil in Hin|simpl; lia].
Qed.

(** Settles the threshold tests [above top_p c] on concrete reals. *)
Ltac eval_above :=
  unfold above;
  repeat match goal with
         | |- context [bool_decide (?a < ?b)] =>
             first [ rewrite (bool_decide_eq_true_2 (a < b)) by lra
                   | rewrite (bool_decide_eq_false_2 (a < b)) by lra ]
         end.

(** Two equally likely tokens at threshold 1/4: the first in sorted order
    already exceeds the threshold and is the only one kept. *)
Example top_p_two_tokens :
  top_p_filter (1/4) [Fin 0; Fin 0] = Some [Fin 0; NegInf].
Proof.
  unfold top_p_filter, sort_desc, softmax, cumsum, scatter.
  eval_real_tests. simpl. rewrite exp_0. eval_above. reflexivity.
Qed.

(** A threshold above one is never reached: nothing is removed, and the
    kept mass is the whole distribution, which is below the threshold. *)
Example top_p_above_one :
  top_p_filter 2 [Fin 0; Fin 0] = Some [Fin 0; Fin 0] /\
  kept_mass [Fin 0; Fin 0] [Fin 0; Fin 0] = 1.
Proof.
  split.
  - unfold top_p_filter, sort_desc, softmax, cumsum, scatter.
    eval_real_tests. simpl. rewrite exp_0. eval_above. reflexivity.
  - unfold kept_mass, softmax. simpl. rewrite exp_0. lra.
Qed.

Lemma top_p_keeps_nucleus_witness :
  1/4 <= 1 /\
  Exists (fun a => is_fin a = true) [Fin 0; Fin 0] /\
  exists out,
    top_p_filter (1/4) [Fin 0; Fin 0] = Some out /\
    length out = 2%nat /\
    (forall i x, out !! i = Some x -> is_fin x = true ->
                 [Fin 0; Fin 0] !! i = Some x) /\
    1/4 <= kept_mass [Fin 0; Fin 0] out /\
    (1 <= support_size out)%nat /\
    (exists i x, out !! i = Some x /\ is_fin x = true /\
                 forall y, y ∈ [Fin 0; Fin 0] -> xle y x).
Proof.
  assert (H1 : 1/4 <= 1) by lra.
  assert (H2 : Exists (fun a => is_fin a = true) [Fin 0; Fin 0])
    by (constructor; reflexivity).
  split; [exact H1|]. split; [exact H2|].
  exact (top_p_keeps_nucleus (1/4) [Fin 0; Fin 0] H1 H2).
Defined.

End Sampling.

(** ** [DeltaGPT.generate] *)

Module Generate.
Import Logits Sampling.
Local Open Scope R_scope.

Section Generate.

(** The state of the random number generator that dropout and
    [torch.multinomial] consume. *)
Variable RNG : Type.

(** [self.config.vocab_size] and [self.config.block_size] *)
Variable vocab_size block_size : Z.

(** The numeric content of [forward] (embeddings, blocks, final norm and
    head): for a batch of token rows, the logit of vocabulary entry [v] at
    position [t] of row [b]. *)
Variable network : RNG -> list (list Z) -> (nat -> nat -> nat -> R) * RNG.

(** The index [torch.multinomial] draws from one row of probabilities. *)
Variable draw : RNG -> list R -> nat * RNG.

(** [idx.size(1)] *)
Definition size1 (idx : list (list Z)) : Z :=
  match idx with
  | [] => 0
  | row :: _ => Py.len row
  end.

Definition in_vocab (t : Z) : Prop := (0 <= t < vocab_size)%Z.

(** [self(idx)] without targets: the logits of shape (B, T, vocab_size).
    Raises when [T > block_size] (the assert) and when a token id is not a
    row of the token embedding. *)
Definition forward (g : RNG) (idx : list (list Z))
  : option (list (list (list R)) * RNG) :=
  if decide (size1 idx <= block_size)%Z then
    if decide (Forall (Forall in_vocab) idx) then
      let '(f, g') := network g idx in
      Some (imap (fun b row =>
                    imap (fun t (_ : Z) => f b t <$> seq 0 (Z.to_nat vocab_size))
                      row)
              idx, g')
    else None
  else None.

(** A probability row [torch.multinomial] accepts. *)
Definition valid_probs (probs : list R) : Prop :=
  Forall (fun p => 0 <= p) probs /\ 0 < sumR probs.

(** [torch.multinomial(probs, num_samples=1)] on one row; raises on a row
    that is no distribution. *)
Definition multinomial (g : RNG) (probs : list R) : option (nat * RNG) :=
  if decide (valid_probs probs) then Some (draw g probs) else None.

(** [torch.multinomial] on the batch, row by row. *)
Fixpoint sample_rows (g : RNG) (rows : list (list R)) : option (list Z * RNG) :=
  match rows with
  | [] => Some ([], g)
  | probs :: rest =>
      match multinomial g probs with
      | None => None
      | Some (i, g1) =>
          match sample_rows g1 rest with
          | None => None
          | Some (next, g2) => Some (Z.of_nat i :: next, g2)
          end
      end
  end.

(** The magnitude [2^128 - 2^103] from which on a float32 quotient is no
    longer finite: the midpoint between the largest float32 and [2^128],
    where rounding to nearest gives an infinity. *)
Definition float32_overflow : R := 340282356779733661637539395458142568448.

(** [x / temperature] on the float32 values [x] and [temperature], the
    rounding of a finite quotient aside. The quotient is a finite value,
    or [-inf], or it is [+inf] or a nan, for which the model has no value
    ([None]): a quotient at or beyond [float32_overflow] in magnitude is an
    infinity, and a division by zero gives [-inf] for [x < 0], [+inf] for
    [x > 0] and a nan for [x = 0]. *)
Definition float32_div (x temperature : R) : option xreal :=
  if decide (temperature = 0) then
    if decide (x < 0) then Some NegInf else None
  else
    let q := x / temperature in
    if decide (float32_overflow <= q) then None
    else if decide (q <= - float32_overflow) then Some NegInf
    else Some (Fin q).

(** One row of the last-position logits through temperature and the two
    optional filters. A row in which a quotient is [+inf] or a nan comes
    out of the final softmax as a row of nans, whatever the filters do,
    and [torch.multinomial] rejects it: the model raises at the division.
    A row of [-inf] only is rejected at [multinomial]. *)
Definition filter_row (temperature : R) (top_k : option Z) (top_p : option R)
  (last : list R) : option (list xreal) :=
  logits ← mapM (fun x => float32_div x temperature) last;
  logits ← match top_k with
           | None => Some logits
           | Some k => top_k_filter k logits
           end;
  match top_p with
  | None => Some logits
  | Some p => top_p_filter p logits
  end.

(** Every logit the network can give for an entry of the vocabulary has a
    finite float32 quotient by [temperature]. *)
Definition finite_quotients (temperature : R) : Prop :=
  forall g idx b t v, (v < Z.to_nat vocab_size)%nat ->
    Rabs ((network g idx).1 b t v / temperature) < float32_overflow.

(** The body of the loop of [generate]. *)
Definition step (temperature : R) (top_k : option Z) (top_p : option R)
  (st : list (list Z) * RNG) : option (list (list Z) * RNG) :=
  let '(idx, g) := st in
  let idx_cond :=
    if decide (size1 idx <= block_size)%Z then idx
    else (fun row => Py.slice_from row (- block_size)) <$> idx in
  match forward g idx_cond with
  | None => None
  | Some (logits, g1) =>
      last ← mapM (fun l => Py.index l (-1)) logits;
      filtered ← mapM (filter_row temperature top_k top_p) last;
      match sample_rows g1 (softmax <$> filtered) with
      | None => None
      | Some (idx_next, g2) =>
          Some (zip_with (fun row t => row ++ [t]) idx idx_next, g2)
      end
  end.

Fixpoint iterate (n : nat) (temperature : R) (top_k : option Z)
  (top_p : option R) (st : list (list Z) * RNG)
  : option (list (list Z) * RNG) :=
  match n with
  | O => Some st
  | S n' =>
      match step temperature top_k top_p st with
      | None => None
      | Some st' => iterate n' temperature top_k top_p st'
      end
  end.

(** [generate(idx, max_new_tokens, temperature, top_k, top_p)] *)
Definition generate (idx : list (list Z)) (max_new_tokens : Z)
  (temperature : R) (top_k : option Z) (top_p : option R) (g : RNG)
  : option (list (list Z) * RNG) :=
  iterate (Z.to_nat max_new_tokens) temperature top_k top_p (idx, g).

(** *** The filters keep a finite logit *)

(** The head of the sorted order is a largest entry of the row. *)
Lemma sorted_head_largest (row : list xreal) :
  row <> [] ->
  exists i x, row !! i = Some x /\ forall y, y ∈ row -> xle y x.
Proof.
  intros Hne.
  assert (H0 : (0 < length (sort_desc row))%nat).
  { rewrite sort_desc_length. destruct row; [done|]. simpl. lia. }
  apply lookup_lt_is_Some in H0 as [[i x] Hix].
  exists i, x. split; [by eapply sort_desc_lookup|].
  intros y Hy. rewrite <- (sorted_values_perm row) in Hy.
  apply list_elem_of_lookup_1 in Hy as [j Hj].
  apply (sorted_values_desc row 0 j x y); [lia| |done].
  by rewrite list_lookup_fmap, Hix.
Qed.

Lemma kth_largest_elem (row : list xreal) (k : nat) thr :
  kth_largest row k = Some thr -> thr ∈ row.
Proof.
  unfold kth_largest. intros H.
  rewrite <- (sorted_values_perm row). by eapply list_elem_of_lookup_2.
Qed.

Lemma top_k_filter_keeps_finite (K : Z) (row : list xreal) :
  (1 <= K <= Py.len row)%Z ->
  Exists (fun a => is_fin a = true) row ->
  exists out, top_k_filter K row = Some out /\
              length out = length row /\
              Exists (fun a => is_fin a = true) out.
Proof.
  intros HK Hfin.
  destruct (top_k_filter_eq K row HK) as (thr & Hthr & Heq).
  exists (mask_below thr row). split; [done|].
  split; [apply mask_below_length|].
  destruct (sorted_head_largest row) as (i & x & Hix & Hmax).
  { intros ->. by apply Exists_nil in Hfin. }
  apply Exists_exists. exists x. split.
  - apply (list_elem_of_lookup_2 _ i). unfold mask_below.
    rewrite list_lookup_fmap, Hix. simpl.
    rewrite decide_False; [done|].
    apply not_xlt_xle, Hmax. by eapply kth_largest_elem.
  - apply Exists_exists in Hfin as (a & Ha & Hafin).
    eapply xle_fin; [|exact Hafin]. by apply Hmax.
Qed.

Lemma float32_overflow_eq : float32_overflow = 2 ^ 128 - 2 ^ 103.
Proof.
  unfold float32_overflow.
  rewrite (pow_IZR 2 128), (pow_IZR 2 103), <- minus_IZR.
  apply f_equal. reflexivity.
Qed.

(** A quotient below the overflow threshold is the finite quotient. *)
Lemma float32_div_finite (x temperature : R) :
  temperature <> 0 -> Rabs (x / temperature) < float32_overflow ->
  float32_div x temperature = Some (Fin (x / temperature)).
Proof.
  intros Ht Hq. apply Rabs_def2 in Hq as [Hlt Hgt]. unfold float32_div.
  rewrite decide_False by done. simpl.
  rewrite decide_False by lra. by rewrite decide_False by lra.
Qed.

Lemma scale_row_finite (temperature : R) (last : list R) :
  temperature <> 0 ->
  Forall (fun x => Rabs (x / temperature) < float32_overflow) last ->
  mapM (fun x => float32_div x temperature) last
  = Some ((fun x => Fin (x / temperature)) <$> last).
Proof.
  intros Ht Hq. apply mapM_Some. induction Hq as [|x last Hx _ IH].
  - constructor.
  - rewrite fmap_cons. constructor; [by apply float32_div_finite|done].
Qed.

Lemma filter_row_ok (temperature : R) (top_k : option Z) (top_p : option R)
  (last : list R) :
  temperature <> 0 ->
  Forall (fun x => Rabs (x / temperature) < float32_overflow) last ->
  match top_k with
  | Some K => (1 <= K <= Py.len last)%Z
  | None => True
  end ->
  last <> [] ->
  exists out, filter_row temperature top_k top_p last = Some out /\
              length out = length last /\
              Exists (fun a => is_fin a = true) out.
Proof.
  intros Ht Hq Hk Hne. unfold filter_row.
  rewrite (scale_row_finite temperature last Ht Hq). simpl.
  set (logits := (fun x => Fin (x / temperature)) <$> last).
  assert (Hlen : length logits = length last) by apply length_fmap.
  assert (Hfin : Exists (fun a => is_fin a = true) logits).
  { destruct last as [|x last]; [done|]. by left. }
  assert (Hk1 : exists l1, match top_k with
                           | None => Some logits
                           | Some k => top_k_filter k logits
                           end = Some l1 /\
                           length l1 = length last /\
                           Exists (fun a => is_fin a = true) l1).
  { destruct top_k as [K|]; [|by exists logits].
    destruct (top_k_filter_keeps_finite K logits) as (l1 & H1 & H2 & H3);
      [unfold Py.len in *; lia|done|].
    exists l1. split; [done|]. split; [lia|done]. }
  destruct Hk1 as (l1 & -> & Hl1 & Hf1). simpl.
  destruct top_p as [p|]; [|by exists l1].
  exists (out p l1). split; [by apply top_p_filter_eq|].
  split.
  - unfold out. rewrite length_zip_with, nucleus_flags_length by done. lia.
  - destruct (nucleus_keeps_largest p l1 Hf1) as (i & x & Ho & _ & Hx & _).
    apply Exists_exists. exists x. split; [|done].
    by eapply list_elem_of_lookup_2.
Qed.

(** The softmax of a row with a finite logit is a distribution. *)
Lemma softmax_valid (row : list xreal) :
  Exists (fun a => is_fin a = true) row -> valid_probs (softmax row).
Proof.
  intros Hfin. split; [apply softmax_nonneg|].
  rewrite softmax_total by done. lra.
Qed.

(** *** One step of the loop *)

(** What [torch.multinomial] promises: the index it returns for a
    distribution is a position of that row. *)
Hypothesis draw_in_range :
  forall g probs, valid_probs probs -> ((draw g probs).1 < length probs)%nat.

(** A batch of [T] tokens per row, all in the vocabulary. *)
Definition shape (T : nat) (idx : list (list Z)) : Prop :=
  Forall (fun row => length row = T /\ Forall in_vocab row) idx.

Lemma shape_in_vocab T idx : shape T idx -> Forall (Forall in_vocab) idx.
Proof. intros Hs. eapply Forall_impl; [exact Hs|]. by intros row [_ Hv]. Qed.

Lemma shape_size1 T idx : shape T idx -> idx <> [] -> size1 idx = Z.of_nat T.
Proof.
  intros Hs Hne. destruct idx as [|row idx]; [done|].
  apply Forall_cons in Hs as [[Hlen _] _]. simpl. unfold Py.len. lia.
Qed.

(** The context handed to [forward] fits the block size. *)
Lemma idx_cond_shape T idx :
  (1 <= block_size)%Z -> shape T idx -> (1 <= T)%nat ->
  exists Tc,
    shape Tc (if decide (size1 idx <= block_size)%Z then idx
              else (fun row => Py.slice_from row (- block_size)) <$> idx) /\
    (size1 (if decide (size1 idx <= block_size)%Z then idx
            else (fun row => Py.slice_from row (- block_size)) <$> idx)
     <= block_size)%Z /\
    (1 <= Tc)%nat /\
    length (if decide (size1 idx <= block_size)%Z then idx
            else (fun row => Py.slice_from row (- block_size)) <$> idx)
    = length idx.
Proof.
  intros Hbs Hs HT. case_decide as Hsz.
  - exists T. done.
  - assert (Hne : idx <> []) by (intros ->; simpl in Hsz; lia).
    rewrite (shape_size1 T idx Hs Hne) in Hsz.
    exists (Z.to_nat block_size).
    assert (Hrow : forall row : list Z, length row = T ->
              Py.slice_from row (- block_size)
              = drop (T - Z.to_nat block_size) row).
    { intros row Hlen. unfold Py.slice_from.
      destruct (Z.leb_spec 0 (- block_size)); [lia|].
      by rewrite Z.opp_involutive, Hlen. }
    split; [|split; [|split; [lia|by rewrite length_fmap]]].
    + unfold shape in *. apply Forall_fmap.
      eapply Forall_impl; [exact Hs|]. intros row [Hlen Hv]. simpl.
      rewrite (Hrow row Hlen). split.
      * rewrite length_drop. lia.
      * by apply Forall_drop.
    + destruct idx as [|row idx]; [done|].
      apply Forall_cons in Hs as [[Hlen _] _]. simpl.
      rewrite (Hrow row Hlen). unfold Py.len. rewrite length_drop. lia.
Qed.

(** [forward] accepts such a context, and [logits[:, -1, :]] is a row of
    [vocab_size] logits per batch row. *)
Lemma forward_last g idx Tc :
  shape Tc idx -> (size1 idx <= block_size)%Z -> (1 <= Tc)%nat ->
  exists logits g1 last,
    forward g idx = Some (logits, g1) /\
    mapM (fun l => Py.index l (-1)) logits = Some last /\
    length last = length idx /\
    Forall (fun r : list R => length r = Z.to_nat vocab_size) last.
Proof.
  intros Hs Hsz HT. unfold forward.
  rewrite decide_True by done.
  rewrite decide_True by (by eapply shape_in_vocab).
  destruct (network g idx) as [f g1].
  set (logits := imap _ idx).
  assert (Hrows : forall l, l ∈ logits ->
            exists r, Py.index l (-1) = Some r /\
                      length r = Z.to_nat vocab_size).
  { intros l Hl. apply list_elem_of_lookup_1 in Hl as [b Hb].
    unfold logits in Hb. rewrite list_lookup_imap in Hb.
    destruct (idx !! b) as [row|] eqn:Hrow; [|done].
    simpl in Hb. injection Hb as <-.
    apply list_elem_of_lookup_2 in Hrow.
    unfold shape in Hs. rewrite Forall_forall in Hs.
    destruct (Hs row Hrow) as [Hlen _].
    rewrite index_last, length_imap, Hlen, list_lookup_imap.
    assert (Hlt : (Tc - 1 < length row)%nat) by lia.
    apply lookup_lt_is_Some in Hlt as [t Ht]. rewrite Ht. simpl.
    eexists. split; [done|]. by rewrite length_fmap, length_seq. }
  assert (Hsome : is_Some (mapM (fun l => Py.index l (-1)) logits)).
  { apply mapM_is_Some, Forall_forall. intros l Hl.
    destruct (Hrows l Hl) as (r & Hr & _). simpl. by rewrite Hr. }
  destruct Hsome as [last Hlast].
  exists logits, g1, last. split; [done|]. split; [done|].
  apply mapM_Some_1 in Hlast.
  split.
  - rewrite <- (Forall2_length _ _ _ Hlast). apply length_imap.
  - apply Forall_forall. intros r Hr.
    apply list_elem_of_lookup_1 in Hr as [b Hb].
    destruct (Forall2_lookup_r _ _ _ _ _ Hlast Hb) as (l & Hl & Hlr).
    destruct (Hrows l) as (r' & Hr' & Hlen); [by eapply list_elem_of_lookup_2|].
    congruence.
Qed.

(** Every entry of [logits[:, -1, :]] is a logit the network gave for an
    entry of the vocabulary. *)
Lemma forward_last_entries (P : R -> Prop) g idx logits g1 last :
  (forall b t v, (v < Z.to_nat vocab_size)%nat ->
                 P ((network g idx).1 b t v)) ->
  forward g idx = Some (logits, g1) ->
  mapM (fun l => Py.index l (-1)) logits = Some last ->
  Forall (Forall P) last.
Proof.
  intros HP Hfwd Hlast. unfold forward in Hfwd.
  case_decide; [|done]. case_decide; [|done].
  destruct (network g idx) as [f g'] eqn:Hnet. simpl in HP.
  injection Hfwd as <- <-.
  apply mapM_Some_1 in Hlast.
  apply Forall_forall. intros r Hr.
  apply list_elem_of_lookup_1 in Hr as [b Hb].
  destruct (Forall2_lookup_r _ _ _ _ _ Hlast Hb) as (l & Hl & Hlr).
  rewrite list_lookup_imap in Hl.
  destruct (idx !! b) as [row|]; [|done].
  simpl in Hl. injection Hl as <-.
  rewrite index_last, list_lookup_imap in Hlr.
  destruct (row !! _) as [tok|]; [|done].
  simpl in Hlr. injection Hlr as <-.
  apply Forall_fmap, Forall_forall. intros v Hv.
  apply elem_of_seq in Hv. simpl. apply HP. lia.
Qed.

Lemma sample_rows_ok g rows :
  Forall (fun p => valid_probs p /\ Z.of_nat (length p) = vocab_size) rows ->
  exists next g', sample_rows g rows = Some (next, g') /\
                  length next = length rows /\ Forall in_vocab next.
Proof.
  intros Hrows. revert g.
  induction Hrows as [|p rows [Hp Hlen] _ IH]; intros g.
  - by exists [], g.
  - simpl. unfold multinomial. rewrite decide_True by done.
    pose proof (draw_in_range g p Hp) as Hi.
    destruct (draw g p) as [i g1]. simpl in Hi.
    destruct (IH g1) as (next & g2 & -> & Hn & Hv).
    exists (Z.of_nat i :: next), g2. split; [done|].
    split; [simpl; lia|]. constructor; [|done]. unfold in_vocab. lia.
Qed.

Lemma append_tokens_spec (idx : list (list Z)) (next : list Z) :
  length next = length idx -> Forall in_vocab next ->
  Forall2 (fun row row' => exists t, row' = row ++ [t] /\ in_vocab t)
    idx (zip_with (fun row t => row ++ [t]) idx next).
Proof.
  revert next. induction idx as [|row idx IH]; intros next Hlen Hv.
  - constructor.
  - destruct next as [|t next]; [done|].
    apply Forall_cons in Hv as [Ht Hv]. simpl. constructor.
    + by exists t.
    + apply IH; [simpl in Hlen; lia|done].
Qed.

(** [out] extends every row of [idx] by [n] tokens of the vocabulary. *)
Definition extends_by (n : nat) (idx out : list (list Z)) : Prop :=
  Forall2 (fun row row' => exists new, row' = row ++ new /\
                                       length new = n /\
                                       Forall in_vocab new) idx out.



Lemma step_ok temperature top_k top_p idx g T :
  (1 <= block_size)%Z -> (1 <= vocab_size)%Z -> temperature <> 0 ->
  finite_quotients temperature ->
  match top_k with
  | Some K => (1 <= K <= vocab_size)%Z
  | None => True
  end ->
  shape T idx -> (1 <= T)%nat ->
  exists idx' g', step temperature top_k top_p (idx, g) = Some (idx', g') /\
                  extends_by 1 idx idx'.
Proof.
  intros Hbs Hv Ht Hq Hk Hs HT. unfold step.
  destruct (idx_cond_shape T idx Hbs Hs HT) as (Tc & Hsc & Hszc & HTc & Hlenc).
  set (idx_cond := if decide (size1 idx <= block_size)%Z then idx else _) in *.
  destruct (forward_last g idx_cond Tc Hsc Hszc HTc)
    as (logits & g1 & last & Hfwd & Hlast & Hlen & Hrows).
  pose proof (forward_last_entries
                (fun x => Rabs (x / temperature) < float32_overflow)
                g idx_cond logits g1 last (Hq g idx_cond) Hfwd Hlast)
    as Hfinite.
  rewrite Hfwd, Hlast. simpl.
  assert (Hrow_ok : forall r, r ∈ last ->
            exists o, filter_row temperature top_k top_p r = Some o /\
                      length o = Z.to_nat vocab_size /\
                      Exists (fun a => is_fin a = true) o).
  { intros r Hr. rewrite Forall_forall in Hrows. specialize (Hrows r Hr).
    rewrite Forall_forall in Hfinite. specialize (Hfinite r Hr).
    destruct (filter_row_ok temperature top_k top_p r Ht Hfinite)
      as (o & Ho & Hl & Hf).
    - destruct top_k; [|done]. unfold Py.len. lia.
    - intros ->. simpl in Hrows. lia.
    - exists o. split; [done|]. split; [lia|done]. }
  assert (Hsome : is_Some (mapM (filter_row temperature top_k top_p) last)).
  { apply mapM_is_Some, Forall_forall. intros r Hr.
    destruct (Hrow_ok r Hr) as (o & Ho & _). simpl. by rewrite Ho. }
  destruct Hsome as [filtered Hfilt]. rewrite Hfilt. simpl.
  apply mapM_Some_1 in Hfilt.
  assert (Hprobs : Forall (fun p => valid_probs p /\
                                    Z.of_nat (length p) = vocab_size)
                     (softmax <$> filtered)).
  { apply Forall_fmap, Forall_forall. intros o Ho.
    apply list_elem_of_lookup_1 in Ho as [b Hb].
    destruct (Forall2_lookup_r _ _ _ _ _ Hfilt Hb) as (r & Hr & Hro).
    destruct (Hrow_ok r) as (o' & Ho' & Hl & Hf);
      [by eapply list_elem_of_lookup_2|].
    assert (o' = o) as -> by congruence. simpl.
    split; [by apply softmax_valid|]. rewrite softmax_length. lia. }
  destruct (sample_rows_ok g1 _ Hprobs) as (next & g2 & -> & Hn & Hnv).
  eexists _, g2. split; [done|].
  unfold extends_by.
  eapply Forall2_impl; [apply append_tokens_spec; [|done]|].
  - apply Forall2_length in Hfilt.
    by rewrite Hn, length_fmap, <- Hfilt, Hlen, Hlenc.
  - intros row row' (t & -> & Hin). exists [t].
    split; [done|]. split; [done|]. by apply Forall_singleton.
Qed.



End Generate.

(** A two-token vocabulary with block size 2, a network whose logit of
    entry [v] is [v], and a sampler that always draws index 0. *)
Definition toy_network (g : unit) (idx : list (list Z))
  : (nat -> nat -> nat -> R) * unit :=
  (fun _ _ v => INR v, g).

Definition toy_draw (g : unit) (probs : list R) : nat * unit := (0%nat, g).

Lemma toy_draw_in_range (g : unit) (probs : list R) :
  valid_probs probs -> ((toy_draw g probs).1 < length probs)%nat.
Proof.
  intros [_ Hsum]. destruct probs; simpl in *; [lra|lia].
Qed.

(** The toy logits are 0 and 1: at temperature 1 their quotients are
    finite. *)
Lemma toy_finite_quotients : finite_quotients unit 2 toy_network 1.
Proof.
  intros g idx b t v Hv. simpl.
  assert (Hcases : v = 0%nat \/ v = 1%nat) by lia.
  unfold float32_overflow.
  destruct Hcases as [-> | ->]; simpl; rewrite Rabs_right; lra.
Qed.




End Generate.

(** ** The learning-rate schedule *)

Module Schedule.
Local Open Scope R_scope.

(** The [decay_ratio] of [lr_lambda], for a step at or past the warmup. *)
Definition decay_ratio (warmup_iters lr_decay_iters : Z) (step : Z) : R :=
  Rmin 1 (IZR (step - warmup_iters)
          / IZR (Z.max 1 (lr_decay_iters - warmup_iters))).

(** The closure [lr_lambda] that [get_cosine_lr_schedule] hands to
    [LambdaLR]: the multiplier of the base learning rate at [step]. *)
Definition lr_lambda (warmup_iters lr_decay_iters : Z) (min_lr : R)
  (step : Z) : R :=
  if decide (step < warmup_iters)%Z
  then IZR step / IZR (Z.max 1 warmup_iters)
  else
    let coeff :=
      (1/2) * (1 + cos (PI * decay_ratio warmup_iters lr_decay_iters step)) in
    min_lr + coeff * (1 - min_lr).

(** [clamp(x, 0, 1)] *)
Definition clamp01 (x : R) : R := Rmax 0 (Rmin 1 x).

Lemma decay_denominator_pos (warmup_iters lr_decay_iters : Z) :
  0 < IZR (Z.max 1 (lr_decay_iters - warmup_iters)).
Proof. apply IZR_lt. lia. Qed.

Lemma decay_ratio_range w d s :
  (w <= s)%Z -> 0 <= decay_ratio w d s <= 1.
Proof.
  intros Hs. unfold decay_ratio. split; [|apply Rmin_l].
  apply Rmin_glb; [lra|].
  apply Rmult_le_pos.
  - apply IZR_le. lia.
  - left. apply Rinv_0_lt_compat, decay_denominator_pos.
Qed.

Lemma decay_ratio_mono w d s1 s2 :
  (s1 <= s2)%Z -> decay_ratio w d s1 <= decay_ratio w d s2.
Proof.
  intros Hs. unfold decay_ratio.
  apply Rle_min_compat_l. apply Rmult_le_compat_r.
  - left. apply Rinv_0_lt_compat, decay_denominator_pos.
  - apply IZR_le. lia.
Qed.

(** Past the warmup the ratio is the clamped quotient. *)
Lemma decay_ratio_clamped w d s :
  (w <= s)%Z ->
  decay_ratio w d s = clamp01 (IZR (s - w) / IZR (Z.max 1 (d - w))).
Proof.
  intros Hs. unfold clamp01. fold (decay_ratio w d s).
  rewrite Rmax_right; [done|]. by apply decay_ratio_range.
Qed.

Lemma cos_coeff_antitone r1 r2 :
  0 <= r1 -> r1 <= r2 -> r2 <= 1 -> cos (PI * r2) <= cos (PI * r1).
Proof.
  intros H0 H12 H1. pose proof PI_RGT_0 as Hpi.
  apply cos_decr_1; nra.
Qed.

(** C4. With a minimum multiplier [min_lr <= 1]: the multiplier at step 0
    is 0 when [warmup_iters > 0]; at a step at or past the warmup it is
    [min_lr + 0.5 * (1 + cos (pi * r)) * (1 - min_lr)] with [r] the decay
    ratio clamped to [[0, 1]]; and it is non-increasing from the warmup
    on. *)
Theorem cosine_schedule (warmup_iters lr_decay_iters : Z) (min_lr : R) :
  min_lr <= 1 ->
  ((0 < warmup_iters)%Z ->
     lr_lambda warmup_iters lr_decay_iters min_lr 0 = 0) /\
  (forall s, (warmup_iters <= s)%Z ->
     let r := clamp01 (IZR (s - warmup_iters)
                       / IZR (Z.max 1 (lr_decay_iters - warmup_iters))) in
     0 <= r <= 1 /\
     lr_lambda warmup_iters lr_decay_iters min_lr s
     = min_lr + (1/2) * (1 + cos (PI * r)) * (1 - min_lr)) /\
  (forall s1 s2, (warmup_iters <= s1)%Z -> (s1 <= s2)%Z ->
     lr_lambda warmup_iters lr_decay_iters min_lr s2
     <= lr_lambda warmup_iters lr_decay_iters min_lr s1).
Proof.
  intros Hmin. split; [|split].
  - intros Hw. unfold lr_lambda. rewrite decide_True by done.
    unfold Rdiv. apply Rmult_0_l.
  - intros s Hs r. subst r.
    rewrite <- decay_ratio_clamped by done.
    split; [by apply decay_ratio_range|].
    unfold lr_lambda. rewrite decide_False by lia. done.
  - intros s1 s2 H1 H2. unfold lr_lambda.
    rewrite !decide_False by lia.
    pose proof (decay_ratio_range warmup_iters lr_decay_iters s1 H1) as [Ha _].
    pose proof (decay_ratio_range warmup_iters lr_decay_iters s2 ltac:(lia))
      as [_ Hb].
    pose proof (decay_ratio_mono warmup_iters lr_decay_iters s1 s2 H2) as Hm.
    pose proof (cos_coeff_antitone _ _ Ha Hm Hb) as Hc.
    nra.
Qed.

(** The scenario of the specification: warmup 10, decay window 100,
    minimum 0.1. *)
Lemma decay_ratio_start : decay_ratio 10 100 10 = 0.
Proof.
  unfold decay_ratio.
  change (10 - 10)%Z with 0%Z. change (1 `max` (100 - 10))%Z with 90%Z.
  rewrite Rmin_right; lra.
Qed.

Lemma decay_ratio_end : decay_ratio 10 100 100 = 1.
Proof.
  unfold decay_ratio.
  change (100 - 10)%Z with 90%Z. change (1 `max` 90)%Z with 90%Z.
  rewrite Rmin_left; lra.
Qed.

Example schedule_scenario :
  lr_lambda 10 100 (1/10) 0 = 0 /\
  lr_lambda 10 100 (1/10) 10 = 1 /\
  lr_lambda 10 100 (1/10) 100 = 1/10.
Proof.
  unfold lr_lambda. simpl.
  rewrite decay_ratio_start, decay_ratio_end, Rmult_0_r, Rmult_1_r.
  rewrite cos_0, cos_PI. repeat split; lra.
Qed.

(** A "minimum" above one is a maximum: the multiplier then rises from 1
    at the warmup to [min_lr] at the end of the decay. *)
Example schedule_min_lr_above_one :
  lr_lambda 10 100 2 10 = 1 /\ lr_lambda 10 100 2 100 = 2.
Proof.
  unfold lr_lambda. simpl.
  rewrite decay_ratio_start, decay_ratio_end, Rmult_0_r, Rmult_1_r.
  rewrite cos_0, cos_PI. split; lra.
Qed.

Lemma cosine_schedule_witness :
  1/10 <= 1 /\
  ((0 < 10)%Z -> lr_lambda 10 100 (1/10) 0 = 0) /\
  (forall s, (10 <= s)%Z ->
     let r := clamp01 (IZR (s - 10) / IZR (Z.max 1 (100 - 10))) in
     0 <= r <= 1 /\
     lr_lambda 10 100 (1/10) s
     = 1/10 + (1/2) * (1 + cos (PI * r)) * (1 - 1/10)) /\
  (forall s1 s2, (10 <= s1)%Z -> (s1 <= s2)%Z ->
     lr_lambda 10 100 (1/10) s2 <= lr_lambda 10 100 (1/10) s1).
Proof.
  assert (H : 1/10 <= 1) by lra.
  split; [exact H|]. exact (cosine_schedule 10 100 (1/10) H).
Defined.

(** *** The shape of the schedule *)

(** X3. With a warmup of [warmup_iters > 0] steps, the multiplier at a
    step [s] of the warmup is [s / warmup_iters]: it starts at 0, grows
    strictly with the step and stays below 1; at the first step past the
    warmup it is 1, whatever [min_lr] is. *)
Lemma warmup_is_linear (warmup_iters lr_decay_iters : Z) (min_lr : R) :
  (0 < warmup_iters)%Z ->
  (forall s, (0 <= s < warmup_iters)%Z ->
     lr_lambda warmup_iters lr_decay_iters min_lr s
     = IZR s / IZR warmup_iters /\
     0 <= lr_lambda warmup_iters lr_decay_iters min_lr s < 1) /\
  (forall s1 s2, (s1 < s2)%Z -> (s2 < warmup_iters)%Z ->
     lr_lambda warmup_iters lr_decay_iters min_lr s1
     < lr_lambda warmup_iters lr_decay_iters min_lr s2) /\
  lr_lambda warmup_iters lr_decay_iters min_lr warmup_iters = 1.
Proof.
  intros Hpos. split; [|split].
  - intros s [H0 Hs]. unfold lr_lambda. rewrite decide_True by done.
    rewrite Z.max_r by lia.
    assert (Hw : 0 < IZR warmup_iters) by (apply IZR_lt; lia).
    split; [done|]. split.
    + apply Rmult_le_pos; [apply IZR_le; lia|].
      left. by apply Rinv_0_lt_compat.
    + apply Rmult_lt_reg_r with (IZR warmup_iters); [done|].
      unfold Rdiv. rewrite Rmult_assoc, Rinv_l, Rmult_1_r, Rmult_1_l by lra.
      by apply IZR_lt.
  - intros s1 s2 H12 H2. unfold lr_lambda. rewrite !decide_True by lia.
    apply Rmult_lt_compat_r.
    + apply Rinv_0_lt_compat, IZR_lt. lia.
    + by apply IZR_lt.
  - unfold lr_lambda, decay_ratio. rewrite decide_False by lia.
    rewrite Z.sub_diag. unfold Rdiv. rewrite Rmult_0_l.
    rewrite Rmin_right by lra. rewrite Rmult_0_r, cos_0. lra.
Qed.

Lemma warmup_is_linear_witness :
  (0 < 10)%Z /\
  (forall s, (0 <= s < 10)%Z ->
     lr_lambda 10 100 (1/10) s = IZR s / IZR 10 /\
     0 <= lr_lambda 10 100 (1/10) s < 1) /\
  (forall s1 s2, (s1 < s2)%Z -> (s2 < 10)%Z ->
     lr_lambda 10 100 (1/10) s1 < lr_lambda 10 100 (1/10) s2) /\
  lr_lambda 10 100 (1/10) 10 = 1.
Proof.
  assert (H : (0 < 10)%Z) by lia.
  split; [exact H|]. exact (warmup_is_linear 10 100 (1/10) H).
Defined.

(** X4. For a minimum multiplier in [[0, 1]] and a step that is not
    negative, the multiplier lies in [[0, 1]], and from the end of the
    warmup on it is at least [min_lr]. *)
Lemma schedule_range (warmup_iters lr_decay_iters : Z) (min_lr : R) (s : Z) :
  0 <= min_lr <= 1 -> (0 <= s)%Z ->
  0 <= lr_lambda warmup_iters lr_decay_iters min_lr s <= 1 /\
  ((warmup_iters <= s)%Z ->
     min_lr <= lr_lambda warmup_iters lr_decay_iters min_lr s).
Proof.
  intros Hmin Hs. unfold lr_lambda. case_decide as Hw.
  - split; [|lia].
    assert (Hm : 0 < IZR (Z.max 1 warmup_iters)) by (apply IZR_lt; lia).
    split.
    + apply Rmult_le_pos; [apply IZR_le; lia|].
      left. by apply Rinv_0_lt_compat.
    + apply Rmult_le_reg_r with (IZR (Z.max 1 warmup_iters)); [done|].
      unfold Rdiv. rewrite Rmult_assoc, Rinv_l, Rmult_1_r, Rmult_1_l by lra.
      apply IZR_le. lia.
  - pose proof (COS_bound (PI * decay_ratio warmup_iters lr_decay_iters s))
      as [Hc1 Hc2].
    split; [|intros _]; nra.
Qed.

Lemma schedule_range_witness :
  0 <= 1/10 <= 1 /\ (0 <= 55)%Z /\
  0 <= lr_lambda 10 100 (1/10) 55 <= 1 /\
  ((10 <= 55)%Z -> 1/10 <= lr_lambda 10 100 (1/10) 55).
Proof.
  assert (Hmin : 0 <= 1/10 <= 1) by lra.
  assert (Hs : (0 <= 55)%Z) by lia.
  split; [exact Hmin|]. split; [exact Hs|].
  exact (schedule_range 10 100 (1/10) 55 Hmin Hs).
Defined.

(** X5. From step [lr_decay_iters] on, once the warmup is over, the
    multiplier is exactly [min_lr]. *)
Lemma schedule_floor (warmup_iters lr_decay_iters : Z) (min_lr : R) (s : Z) :
  (warmup_iters < s)%Z -> (lr_decay_iters <= s)%Z ->
  lr_lambda warmup_iters lr_decay_iters min_lr s = min_lr.
Proof.
  intros Hw Hd. unfold lr_lambda, decay_ratio. rewrite decide_False by lia.
  rewrite Rmin_left.
  - rewrite Rmult_1_r, cos_PI. lra.
  - pose proof (decay_denominator_pos warmup_iters lr_decay_iters) as Hpos.
    apply Rmult_le_reg_r with (IZR (Z.max 1 (lr_decay_iters - warmup_iters)));
      [done|].
    unfold Rdiv. rewrite Rmult_assoc, Rinv_l, Rmult_1_r, Rmult_1_l by lra.
    apply IZR_le. lia.
Qed.

Lemma schedule_floor_witness :
  (10 < 250)%Z /\ (100 <= 250)%Z /\ lr_lambda 10 100 (1/10) 250 = 1/10.
Proof.
  assert (Hw : (10 < 250)%Z) by lia.
  assert (Hd : (100 <= 250)%Z) by lia.
  split; [exact Hw|]. split; [exact Hd|].
  exact (schedule_floor 10 100 (1/10) 250 Hw Hd).
Defined.

End Schedule.

(** ** Raising and returning *)

Module Exn.

(** The exception classes the modelled code can raise. *)
Inductive exn : Type :=
| AssertionError
| ZeroDivisionError
| ValueError
| RuntimeError
| KeyError
| AttributeError
| TypeError
| FileNotFoundError
| SystemExit.

(** [isinstance(e, Exception)]: [SystemExit], raised by [exit(1)], derives
    from [BaseException] only. *)
Definition is_Exception (e : exn) : bool :=
  match e with
  | SystemExit => false
  | _ => true
  end.

(** The outcome of a call: a returned value or a raised exception. *)
Inductive result (A : Type) : Type :=
| Ok (a : A)
| Raise (e : exn).
Arguments Ok {A} a.
Arguments Raise {A} e.

#[global] Instance result_ret : MRet result := fun A a => Ok a.
#[global] Instance result_bind : MBind result := fun A B f r =>
  match r with
  | Ok a => f a
  | Raise e => Raise e
  end.

Definition raises {A} (r : result A) : Prop :=
  match r with
  | Ok _ => False
  | Raise _ => True
  end.

Definition returns {A} (r : result A) : Prop :=
  match r with
  | Ok _ => True
  | Raise _ => False
  end.

Lemma raises_not_returns {A} (r : result A) : raises r <-> ~ returns r.
Proof. destruct r; simpl; tauto. Qed.

Lemma bind_Ok {A B} (f : A -> result B) (r : result A) (b : B) :
  r ≫= f = Ok b <-> exists a, r = Ok a /\ f a = Ok b.
Proof.
  destruct r as [a|e]; simpl; split.
  - intros H. by exists a.
  - by intros (a' & [= <-] & H).
  - done.
  - by intros (a' & [=] & _).
Qed.

End Exn.

(** ** The module tree of [DeltaGPT] and its construction *)

Module Model.
Import Exn.
Local Open Scope Z_scope.

Record ModelConfig : Type := mkConfig {
  vocab_size : Z;
  block_size : Z;
  n_layer : Z;
  n_head : Z;
  n_embd : Z;
  dropout : R;
  bias : bool
}.

(** The classes of the modules that occur in the model. *)
Inductive kind : Type :=
| Linear
| LayerNorm
| Embedding
| Dropout
| GELU
| ModuleList
| CausalSelfAttention
| MLP
| Block
| DeltaGPT.

#[global] Instance kind_eq_dec : EqDecision kind.
Proof. solve_decision. Defined.

(** An [nn.Module]: its class, its own parameters (name and shape, in
    registration order) and its named children (in registration order). *)
#[warnings="-register-all"]
Inductive nn_module : Type :=
| NN (k : kind) (params : list (string * list Z))
     (children : list (string * nn_module)).

Definition kind_of (m : nn_module) : kind :=
  match m with NN k _ _ => k end.

Definition own_params (m : nn_module) : list (string * list Z) :=
  match m with NN _ ps _ => ps end.

Definition children_of (m : nn_module) : list (string * nn_module) :=
  match m with NN _ _ cs => cs end.

(** *** torch.nn constructors

    Allocating a tensor with a negative dimension raises RuntimeError;
    [nn.Dropout] raises ValueError for a probability outside [[0, 1]]. *)

Definition nn_Linear (in_features out_features : Z) (with_bias : bool)
  : result nn_module :=
  if decide (0 <= in_features /\ 0 <= out_features) then
    Ok (NN Linear
          (("weight", [out_features; in_features])
           :: if with_bias then [("bias", [out_features])] else [])
          [])
  else Raise RuntimeError.

Definition nn_LayerNorm (normalized_shape : Z) (with_bias : bool)
  : result nn_module :=
  if decide (0 <= normalized_shape) then
    Ok (NN LayerNorm
          (("weight", [normalized_shape])
           :: if with_bias then [("bias", [normalized_shape])] else [])
          [])
  else Raise RuntimeError.

Definition nn_Embedding (num_embeddings embedding_dim : Z)
  : result nn_module :=
  if decide (0 <= num_embeddings /\ 0 <= embedding_dim) then
    Ok (NN Embedding [("weight", [num_embeddings; embedding_dim])] [])
  else Raise RuntimeError.

Definition nn_Dropout (p : R) : result nn_module :=
  if decide (0 <= p <= 1)%R then Ok (NN Dropout [] [])
  else Raise ValueError.

Definition nn_GELU : result nn_module := Ok (NN GELU [] []).

(** [nn.ModuleList(modules)]: the children are named by their index. *)
Definition nn_ModuleList (modules : list nn_module) : nn_module :=
  NN ModuleList [] (imap (fun i m => (pretty i, m)) modules).

(** [[make() for _ in range(n)]] *)
Fixpoint repeat_init {A} (n : nat) (make : result A) : result (list A) :=
  match n with
  | O => Ok []
  | S n' => x ← make; xs ← repeat_init n' make; Ok (x :: xs)
  end.

(** *** The constructors of train.py *)

(** [assert config.n_embd % config.n_head == 0] *)
Definition assert_heads_divide (config : ModelConfig) : result unit :=
  if decide (n_head config = 0) then Raise ZeroDivisionError
  else if decide (n_embd config `mod` n_head config = 0) then Ok tt
  else Raise AssertionError.

Definition CausalSelfAttention_init (config : ModelConfig)
  : result nn_module :=
  _ ← assert_heads_divide config;
  c_attn ← nn_Linear (n_embd config) (3 * n_embd config) (bias config);
  c_proj ← nn_Linear (n_embd config) (n_embd config) (bias config);
  attn_dropout ← nn_Dropout (dropout config);
  resid_dropout ← nn_Dropout (dropout config);
  Ok (NN CausalSelfAttention []
        [("c_attn", c_attn); ("c_proj", c_proj);
         ("attn_dropout", attn_dropout); ("resid_dropout", resid_dropout)]).

Definition MLP_init (config : ModelConfig) : result nn_module :=
  c_fc ← nn_Linear (n_embd config) (4 * n_embd config) (bias config);
  gelu ← nn_GELU;
  c_proj ← nn_Linear (4 * n_embd config) (n_embd config) (bias config);
  drop ← nn_Dropout (dropout config);
  Ok (NN MLP []
        [("c_fc", c_fc); ("gelu", gelu); ("c_proj", c_proj);
         ("dropout", drop)]).

Definition Block_init (config : ModelConfig) : result nn_module :=
  ln_1 ← nn_LayerNorm (n_embd config) (bias config);
  attn ← CausalSelfAttention_init config;
  ln_2 ← nn_LayerNorm (n_embd config) (bias config);
  mlp ← MLP_init config;
  Ok (NN Block []
        [("ln_1", ln_1); ("attn", attn); ("ln_2", ln_2); ("mlp", mlp)]).

Definition DeltaGPT_init (config : ModelConfig) : result nn_module :=
  tok_emb ← nn_Embedding (vocab_size config) (n_embd config);
  pos_emb ← nn_Embedding (block_size config) (n_embd config);
  drop ← nn_Dropout (dropout config);
  blocks ← repeat_init (Z.to_nat (n_layer config)) (Block_init config);
  ln_f ← nn_LayerNorm (n_embd config) (bias config);
  head ← nn_Linear (n_embd config) (vocab_size config) false;
  Ok (NN DeltaGPT []
        [("tok_emb", tok_emb); ("pos_emb", pos_emb); ("drop", drop);
         ("blocks", nn_ModuleList blocks); ("ln_f", ln_f); ("head", head)]).

(** The embedding width splits evenly across the heads. *)
Definition heads_divide (config : ModelConfig) : Prop :=
  n_head config <> 0 /\ n_embd config `mod` n_head config = 0.

(** Sizes and dropout that torch.nn accepts. *)
Definition sizes_valid (config : ModelConfig) : Prop :=
  0 <= vocab_size config /\ 0 <= block_size config /\
  0 <= n_embd config /\ (0 <= dropout config <= 1)%R.

(** *** When construction fails *)

Lemma nn_Linear_ok i o b :
  0 <= i -> 0 <= o ->
  nn_Linear i o b
  = Ok (NN Linear (("weight", [o; i]) :: if b then [("bias", [o])] else []) []).
Proof. intros. unfold nn_Linear. by rewrite decide_True. Qed.

Lemma nn_LayerNorm_ok d b :
  0 <= d ->
  nn_LayerNorm d b
  = Ok (NN LayerNorm (("weight", [d]) :: if b then [("bias", [d])] else []) []).
Proof. intros. unfold nn_LayerNorm. by rewrite decide_True. Qed.

Lemma nn_Embedding_ok n d :
  0 <= n -> 0 <= d ->
  nn_Embedding n d = Ok (NN Embedding [("weight", [n; d])] []).
Proof. intros. unfold nn_Embedding. by rewrite decide_True. Qed.

Lemma nn_Dropout_ok p : (0 <= p <= 1)%R -> nn_Dropout p = Ok (NN Dropout [] []).
Proof. intros. unfold nn_Dropout. by rewrite decide_True. Qed.

Lemma assert_heads_divide_ok config :
  heads_divide config -> assert_heads_divide config = Ok tt.
Proof.
  intros [H0 Hm]. unfold assert_heads_divide.
  by rewrite decide_False, decide_True.
Qed.

Lemma assert_heads_divide_raises config :
  ~ heads_divide config -> raises (assert_heads_divide config).
Proof.
  intros Hn. unfold assert_heads_divide, heads_divide in *.
  repeat case_decide; simpl; tauto.
Qed.

(** The block built from a configuration that torch accepts and whose
    heads divide the width. *)
Definition block_of (config : ModelConfig) : nn_module :=
  let lin i o :=
    NN Linear (("weight", [o; i])
               :: if bias config then [("bias", [o])] else []) [] in
  let ln :=
    NN LayerNorm (("weight", [n_embd config])
                  :: if bias config then [("bias", [n_embd config])] else [])
      [] in
  let drop := NN Dropout [] [] in
  NN Block []
    [("ln_1", ln);
     ("attn", NN CausalSelfAttention []
                [("c_attn", lin (n_embd config) (3 * n_embd config));
                 ("c_proj", lin (n_embd config) (n_embd config));
                 ("attn_dropout", drop); ("resid_dropout", drop)]);
     ("ln_2", ln);
     ("mlp", NN MLP []
               [("c_fc", lin (n_embd config) (4 * n_embd config));
                ("gelu", NN GELU [] []);
                ("c_proj", lin (4 * n_embd config) (n_embd config));
                ("dropout", drop)])].

(** The whole model built from such a configuration. *)
Definition model_of (config : ModelConfig) : nn_module :=
  NN DeltaGPT []
    [("tok_emb", NN Embedding
                   [("weight", [vocab_size config; n_embd config])] []);
     ("pos_emb", NN Embedding
                   [("weight", [block_size config; n_embd config])] []);
     ("drop", NN Dropout [] []);
     ("blocks", nn_ModuleList
                  (replicate (Z.to_nat (n_layer config)) (block_of config)));
     ("ln_f", NN LayerNorm
                (("weight", [n_embd config])
                 :: if bias config then [("bias", [n_embd config])] else [])
                []);
     ("head", NN Linear [("weight", [vocab_size config; n_embd config])] [])].

Lemma Block_init_ok config :
  sizes_valid config -> heads_divide config ->
  Block_init config = Ok (block_of config).
Proof.
  intros (Hv & Hb & He & Hd) Hh.
  unfold Block_init, CausalSelfAttention_init, MLP_init, nn_GELU.
  rewrite assert_heads_divide_ok by done.
  rewrite !nn_LayerNorm_ok, !nn_Linear_ok, !nn_Dropout_ok by (done || lia).
  reflexivity.
Qed.

Lemma Block_init_raises config :
  sizes_valid config -> ~ heads_divide config -> raises (Block_init config).
Proof.
  intros (Hv & Hb & He & Hd) Hh.
  unfold Block_init, CausalSelfAttention_init.
  rewrite !nn_LayerNorm_ok by done. simpl.
  pose proof (assert_heads_divide_raises config Hh) as Hr.
  destruct (assert_heads_divide config); [done|]. exact I.
Qed.

Lemma repeat_init_ok {A} (n : nat) (make : result A) (x : A) :
  make = Ok x -> repeat_init n make = Ok (replicate n x).
Proof.
  intros ->. induction n as [|n IH]; [done|]. simpl. by rewrite IH.
Qed.

Lemma repeat_init_raises {A} (n : nat) (make : result A) :
  raises make -> (1 <= n)%nat -> raises (repeat_init n make).
Proof.
  intros Hr Hn. destruct n as [|n]; [lia|]. simpl.
  destruct make; [done|]. exact I.
Qed.

Lemma DeltaGPT_init_ok config :
  sizes_valid config -> heads_divide config \/ n_layer config <= 0 ->
  DeltaGPT_init config = Ok (model_of config).
Proof.
  intros Hsz Hh. pose proof Hsz as (Hv & Hb & He & Hd).
  assert (Hblocks : repeat_init (Z.to_nat (n_layer config)) (Block_init config)
                    = Ok (replicate (Z.to_nat (n_layer config))
                            (block_of config))).
  { destruct Hh as [Hh|Hn].
    - by apply repeat_init_ok, Block_init_ok.
    - by replace (Z.to_nat (n_layer config)) with 0%nat by lia. }
  unfold DeltaGPT_init.
  rewrite !nn_Embedding_ok, nn_Dropout_ok, Hblocks by done.
  rewrite nn_LayerNorm_ok, nn_Linear_ok by done.
  reflexivity.
Qed.

Lemma DeltaGPT_init_raises config :
  sizes_valid config -> 1 <= n_layer config -> ~ heads_divide config ->
  raises (DeltaGPT_init config).
Proof.
  intros Hsz Hn Hh. pose proof Hsz as (Hv & Hb & He & Hd).
  unfold DeltaGPT_init.
  rewrite !nn_Embedding_ok, nn_Dropout_ok by done. simpl.
  pose proof (repeat_init_raises (Z.to_nat (n_layer config)) _
                (Block_init_raises config Hsz Hh) ltac:(lia)) as Hr.
  destruct (repeat_init _ _); [done|]. exact I.
Qed.

(** C6, as amended. For a configuration with at least one layer, sizes
    that are not negative and a dropout probability in [[0, 1]],
    constructing the model fails exactly when the embedding width is not
    evenly divisible by the head count. *)
Theorem construction_fails_iff (config : ModelConfig) :
  sizes_valid config -> 1 <= n_layer config ->
  (raises (DeltaGPT_init config) <-> ~ heads_divide config).
Proof.
  intros Hsz Hn. split.
  - intros Hr Hh.
    rewrite (DeltaGPT_init_ok config Hsz (or_introl Hh)) in Hr. exact Hr.
  - by apply DeltaGPT_init_raises.
Qed.

(** Without layers nothing checks the heads: width 5 with 2 heads builds.
    And a dropout probability of 2 fails although 2 heads divide width 8. *)
Lemma construction_not_only_heads :
  (returns (DeltaGPT_init (mkConfig 10 4 0 2 5 (1/10) false)) /\
   ~ heads_divide (mkConfig 10 4 0 2 5 (1/10) false)) /\
  (raises (DeltaGPT_init (mkConfig 10 4 1 2 8 2 false)) /\
   heads_divide (mkConfig 10 4 1 2 8 2 false)).
Proof.
  split; split.
  - rewrite DeltaGPT_init_ok; [exact I| |right; simpl; lia].
    unfold sizes_valid. simpl. repeat split; (lia || lra).
  - unfold heads_divide. simpl. intros [_ H]. discriminate H.
  - unfold DeltaGPT_init. simpl.
    unfold nn_Dropout. rewrite decide_False by lra. exact I.
  - unfold heads_divide. simpl. split; [lia|reflexivity].
Qed.

Lemma construction_fails_iff_witness :
  sizes_valid (mkConfig 10 4 1 2 5 (1/10) false) /\
  1 <= n_layer (mkConfig 10 4 1 2 5 (1/10) false) /\
  (raises (DeltaGPT_init (mkConfig 10 4 1 2 5 (1/10) false)) <->
   ~ heads_divide (mkConfig 10 4 1 2 5 (1/10) false)).
Proof.
  assert (H1 : sizes_valid (mkConfig 10 4 1 2 5 (1/10) false)).
  { unfold sizes_valid. simpl. repeat split; (lia || lra). }
  assert (H2 : 1 <= n_layer (mkConfig 10 4 1 2 5 (1/10) false))
    by (simpl; lia).
  split; [exact H1|]. split; [exact H2|].
  exact (construction_fails_iff _ H1 H2).
Defined.

End Model.

(** ** [DeltaGPT.configure_optimizers] *)

Module Optim.
Import Exn Model.

(** [prefix + ("." if prefix else "") + name], which is also
    [f"{mn}.{pn}" if mn else pn]. *)
Definition join (prefix name : string) : string :=
  if decide (prefix = "") then name else prefix +:+ "." +:+ name.

(** [Module.named_modules(prefix)]: the module itself, then the modules
    below each child, in registration order. *)
Fixpoint named_modules (prefix : string) (m : nn_module)
  : list (string * nn_module) :=
  match m with
  | NN _ _ cs =>
      (prefix, m) :: (cs ≫= fun nc => named_modules (join prefix nc.1) nc.2)
  end.

(** The names of [Module.named_parameters()] (recursive, as by default). *)
Definition named_parameters (m : nn_module) : list string :=
  named_modules "" m ≫= fun pm => (fun p => join pm.1 p.1) <$> own_params pm.2.

(** The characters of a string. *)
Definition chars (s : string) : list ascii := list_ascii_of_string s.

(** [s.endswith(suffix)] *)
Definition endswith (s suffix : string) : bool :=
  bool_decide (chars suffix `suffix_of` chars s).

(** [isinstance(m, classes)] *)
Definition isinstance (m : nn_module) (classes : list kind) : bool :=
  bool_decide (kind_of m ∈ classes).

Definition whitelist_weight_modules : list kind := [Linear].
Definition blacklist_weight_modules : list kind := [LayerNorm; Embedding].

(** The two sets under construction: [(decay, no_decay)]. *)
Definition groups : Type := gset string * gset string.

(** The body of the inner loop. *)
Definition classify (mn : string) (m : nn_module) (acc : groups) (pn : string)
  : groups :=
  let fpn := join mn pn in
  if endswith pn "bias" then (acc.1, acc.2 ∪ {[fpn]})
  else if endswith pn "weight" && isinstance m whitelist_weight_modules
  then (acc.1 ∪ {[fpn]}, acc.2)
  else if endswith pn "weight" && isinstance m blacklist_weight_modules
  then (acc.1, acc.2 ∪ {[fpn]})
  else acc.

(** The two nested loops over [named_modules] and [named_parameters]. *)
Definition separate (root : nn_module) : groups :=
  foldl (fun acc mnm =>
           foldl (classify mnm.1 mnm.2) acc (named_parameters mnm.2))
    (∅, ∅) (named_modules "" root).

(** The two parameter groups handed to AdamW: the names of each group in
    sorted order. *)
Record optim_groups : Type := mkGroups {
  decay_params : list string;
  no_decay_params : list string
}.

(** The order of Python strings. *)
Definition name_le (a b : string) : Prop := String.leb a b = true.

#[global] Instance name_le_dec : RelDecision name_le.
Proof. intros a b. unfold name_le. apply _. Defined.

(** [sorted(list(names))] *)
Definition sorted_names (names : gset string) : list string :=
  merge_sort name_le (elements names).

(** [configure_optimizers] up to the parameter groups. The two asserts
    raise AssertionError; [param_dict[pn]] raises KeyError for a name that
    is no parameter of the model. *)
Definition configure_optimizers (root : nn_module) : result optim_groups :=
  let '(decay, no_decay) := separate root in
  let param_dict : gset string := list_to_set (named_parameters root) in
  let inter_params := decay ∩ no_decay in
  let union_params := decay ∪ no_decay in
  if decide (size inter_params = 0%nat) then
    if decide (size (param_dict ∖ union_params) = 0%nat) then
      if decide (decay ⊆ param_dict) then
        if decide (no_decay ⊆ param_dict) then
          Ok (mkGroups (sorted_names decay) (sorted_names no_decay))
        else Raise KeyError
      else Raise KeyError
    else Raise AssertionError
  else Raise AssertionError.

(** *** Names as character lists *)

Lemma chars_app (a b : string) : chars (a +:+ b) = chars a ++ chars b.
Proof. induction a as [|c a IH]; simpl; [done|]. by rewrite IH. Qed.

Lemma chars_inj (a b : string) : chars a = chars b -> a = b.
Proof.
  intros H. rewrite <- (string_of_list_ascii_of_string a).
  rewrite <- (string_of_list_ascii_of_string b). unfold chars in H.
  by rewrite H.
Qed.

Lemma chars_nil (a : string) : chars a = [] <-> a = "".
Proof. destruct a; simpl; split; done. Qed.

Lemma string_app_assoc (a b c : string) : (a +:+ b) +:+ c = a +:+ b +:+ c.
Proof. apply chars_inj. by rewrite !chars_app, (assoc_L (++)). Qed.

Lemma string_app_inv_tail (a b c : string) : a +:+ c = b +:+ c -> a = b.
Proof.
  intros H. apply chars_inj. apply (f_equal chars) in H.
  rewrite !chars_app in H. by apply app_inv_tail in H.
Qed.

Lemma join_empty (name : string) : join "" name = name.
Proof. reflexivity. Qed.

Lemma join_nonempty (prefix name : string) :
  prefix <> "" -> join prefix name = prefix +:+ "." +:+ name.
Proof. intros H. unfold join. by rewrite decide_False. Qed.

Lemma join_ne_empty (prefix name : string) : name <> "" -> join prefix name <> "".
Proof.
  intros Hn. unfold join. case_decide; [done|].
  destruct prefix; [done|]. discriminate.
Qed.

(** The last character of a name. *)
Definition last_char (s : string) : option ascii := last (chars s).

Lemma last_char_join (prefix name : string) :
  name <> "" -> last_char (join prefix name) = last_char name.
Proof.
  intros Hn. unfold join, last_char. case_decide; [done|].
  rewrite !chars_app, !last_app.
  destruct (last (chars name)) eqn:Hl; [done|].
  apply last_None, chars_nil in Hl. done.
Qed.

Lemma endswith_true (s suffix : string) :
  endswith s suffix = true <-> chars suffix `suffix_of` chars s.
Proof. unfold endswith. apply bool_decide_eq_true. Qed.

Lemma endswith_join (prefix name suffix : string) :
  endswith name suffix = true -> endswith (join prefix name) suffix = true.
Proof.
  rewrite !endswith_true. intros H. unfold join. case_decide; [done|].
  rewrite !chars_app. by do 2 apply suffix_app_r.
Qed.

Lemma endswith_last_char (s suffix : string) (c : ascii) :
  endswith s suffix = true -> last_char suffix = Some c -> last_char s = Some c.
Proof.
  rewrite endswith_true. intros [k Hk] Hc. unfold last_char in *.
  rewrite Hk, last_app, Hc. done.
Qed.

Lemma endswith_bias_weight (s : string) :
  endswith s "bias" = true -> endswith s "weight" = true -> False.
Proof.
  intros Hb Hw.
  pose proof (endswith_last_char s "bias" "s" Hb eq_refl) as H1.
  pose proof (endswith_last_char s "weight" "t" Hw eq_refl) as H2.
  congruence.
Qed.

(** *** Module trees *)

(** Induction on a module tree, with the hypothesis for every child. *)
Lemma nn_module_Forall_ind (P : nn_module -> Prop) :
  (forall k ps cs, Forall (fun nc => P nc.2) cs -> P (NN k ps cs)) ->
  forall m, P m.
Proof.
  intros Hstep. fix IH 1. intros [k ps cs]. apply Hstep.
  induction cs as [|[nm c] cs IHcs]; constructor; [apply IH|apply IHcs].
Qed.

Lemma nn_module_children_ind (P : nn_module -> Prop) :
  (forall k ps cs, (forall nm c, (nm, c) ∈ cs -> P c) -> P (NN k ps cs)) ->
  forall m, P m.
Proof.
  intros Hstep. apply nn_module_Forall_ind. intros k ps cs Hcs.
  apply Hstep. intros nm c Hin. rewrite Forall_forall in Hcs.
  apply (Hcs (nm, c) Hin).
Qed.

Lemma named_modules_unfold prefix k ps cs :
  named_modules prefix (NN k ps cs)
  = (prefix, NN k ps cs)
    :: (cs ≫= fun nc => named_modules (join prefix nc.1) nc.2).
Proof. reflexivity. Qed.

Lemma named_modules_elem prefix k ps cs mn m :
  (mn, m) ∈ named_modules prefix (NN k ps cs) <->
  (mn, m) = (prefix, NN k ps cs) \/
  exists nm c, (nm, c) ∈ cs /\ (mn, m) ∈ named_modules (join prefix nm) c.
Proof.
  rewrite named_modules_unfold, elem_of_cons, list_elem_of_bind.
  split; (intros [H|H]; [by left|right]).
  - destruct H as ([nm c] & H1 & H2). by exists nm, c.
  - destruct H as (nm & c & H1 & H2). by exists (nm, c).
Qed.

Lemma named_modules_self prefix m : (prefix, m) ∈ named_modules prefix m.
Proof. destruct m. rewrite named_modules_unfold. by left. Qed.

(** The modules below a module of the tree are modules of the tree. *)
Lemma named_modules_sub root :
  forall prefix mn m x,
    (mn, m) ∈ named_modules prefix root ->
    x ∈ named_modules mn m -> x ∈ named_modules prefix root.
Proof.
  induction root as [k ps cs IH] using nn_module_children_ind.
  intros prefix mn m x Hm Hx.
  apply named_modules_elem in Hm as [[= -> ->]|(nm & c & Hc & Hm)]; [done|].
  destruct x as [xn xm]. apply named_modules_elem. right.
  exists nm, c. split; [done|]. by apply (IH nm c Hc _ mn m).
Qed.

Lemma named_parameters_elem root x :
  x ∈ named_parameters root <->
  exists mn m name shape,
    (mn, m) ∈ named_modules "" root /\ (name, shape) ∈ own_params m /\
    x = join mn name.
Proof.
  unfold named_parameters. rewrite list_elem_of_bind. split.
  - intros ([mn m] & Hx & Hm). simpl in Hx.
    apply list_elem_of_fmap in Hx as ([name shape] & -> & Hp).
    by exists mn, m, name, shape.
  - intros (mn & m & name & shape & Hm & Hp & ->).
    exists (mn, m). split; [|done]. simpl.
    apply list_elem_of_fmap. by exists (name, shape).
Qed.

(** *** A sufficient shape for the classification to be a partition

    The leaves [Linear], [LayerNorm] and [Embedding] own parameters named
    [weight] or [bias] and have no children; every other module owns no
    parameter; no child has the empty name; and the last letter of a
    child's name tells a [Linear] from a [LayerNorm] or [Embedding]. *)

Definition leaf_kind (k : kind) : bool :=
  bool_decide (k ∈ [Linear; LayerNorm; Embedding]).

Definition node_ok (k : kind) (ps : list (string * list Z))
  (cs : list (string * nn_module)) : bool :=
  if leaf_kind k
  then bool_decide (cs = [])
       && forallb (fun p => bool_decide (p.1 ∈ ["weight"; "bias"])) ps
  else bool_decide (ps = []).

Definition decay_marks : list ascii := ["n"; "j"; "c"; "d"]%char.
Definition no_decay_marks : list ascii := ["1"; "2"; "f"; "b"]%char.

(** What the last letter of the path of a module says about its class. *)
Definition marked (mn : string) (k : kind) : Prop :=
  match k with
  | Linear => exists c, last_char mn = Some c /\ c ∈ decay_marks
  | LayerNorm | Embedding =>
      exists c, last_char mn = Some c /\ c ∈ no_decay_marks
  | _ => True
  end.

#[global] Instance marked_dec mn k : Decision (marked mn k).
Proof.
  unfold marked. destruct k; try (left; exact I);
    (destruct (last_char mn) as [c|];
     [|right; by intros (c & [=] & _)]).
  - destruct (decide (c ∈ decay_marks)) as [Hc|Hc];
      [left; by exists c|right; by intros (c' & [= <-] & H)].
  - destruct (decide (c ∈ no_decay_marks)) as [Hc|Hc];
      [left; by exists c|right; by intros (c' & [= <-] & H)].
  - destruct (decide (c ∈ no_decay_marks)) as [Hc|Hc];
      [left; by exists c|right; by intros (c' & [= <-] & H)].
Defined.

Definition edge_ok (nm : string) (k : kind) : bool :=
  bool_decide (nm <> "") && bool_decide (marked nm k).

Fixpoint tree_ok (m : nn_module) : bool :=
  match m with
  | NN k ps cs =>
      node_ok k ps cs
      && forallb (fun nc => edge_ok nc.1 (kind_of nc.2) && tree_ok nc.2) cs
  end.

Lemma tree_ok_unfold k ps cs :
  tree_ok (NN k ps cs) = true <->
  node_ok k ps cs = true /\
  forall nm c, (nm, c) ∈ cs ->
    nm <> "" /\ marked nm (kind_of c) /\ tree_ok c = true.
Proof.
  simpl. rewrite andb_true_iff, forallb_forall. split.
  - intros [Hn Hc]. split; [done|]. intros nm c Hin.
    apply list_elem_of_In in Hin. specialize (Hc _ Hin). simpl in Hc.
    unfold edge_ok in Hc.
    rewrite !andb_true_iff, !bool_decide_eq_true in Hc. tauto.
  - intros [Hn Hc]. split; [done|]. intros [nm c] Hin.
    apply list_elem_of_In in Hin. destruct (Hc nm c Hin) as (H1 & H2 & H3).
    simpl. unfold edge_ok.
    rewrite !andb_true_iff, !bool_decide_eq_true. tauto.
Qed.

Lemma marked_join prefix nm k :
  nm <> "" -> marked nm k -> marked (join prefix nm) k.
Proof.
  intros Hn. unfold marked. by rewrite last_char_join.
Qed.

Lemma tree_ok_below root :
  tree_ok root = true ->
  forall prefix mn m, (mn, m) ∈ named_modules prefix root -> tree_ok m = true.
Proof.
  induction root as [k ps cs IH] using nn_module_children_ind.
  intros Hok prefix mn m Hm.
  apply named_modules_elem in Hm as [[= -> ->]|(nm & c & Hc & Hm)]; [done|].
  apply tree_ok_unfold in Hok as [_ Hcs].
  destruct (Hcs nm c Hc) as (_ & _ & Hokc).
  by apply (IH nm c Hc Hokc (join prefix nm) mn m).
Qed.

(** Below the root, the path of a module is not empty and carries the
    mark of the module's class. *)
Lemma named_modules_marked root :
  tree_ok root = true ->
  forall prefix mn m,
    (mn, m) ∈ named_modules prefix root ->
    (mn, m) = (prefix, root) \/ (mn <> "" /\ marked mn (kind_of m)).
Proof.
  induction root as [k ps cs IH] using nn_module_children_ind.
  intros Hok prefix mn m Hm.
  apply named_modules_elem in Hm as [Heq|(nm & c & Hc & Hm)]; [by left|].
  right. apply tree_ok_unfold in Hok as [_ Hcs].
  destruct (Hcs nm c Hc) as (Hnm & Hmark & Hokc).
  destruct (IH nm c Hc Hokc (join prefix nm) mn m Hm) as [[= -> ->]|H]; [|done].
  split; [by apply join_ne_empty|by apply marked_join].
Qed.

(** Moving a tree under a non-empty prefix prepends the prefix to every
    path. *)
Definition shift (prefix : string) (pm : string * nn_module)
  : string * nn_module :=
  (if decide (pm.1 = "") then prefix else prefix +:+ "." +:+ pm.1, pm.2).

Lemma shift_shift prefix nm pm :
  prefix <> "" -> nm <> "" ->
  shift prefix (shift nm pm) = shift (join prefix nm) pm.
Proof.
  intros Hp Hn. destruct pm as [p x]. unfold shift. simpl.
  rewrite (join_nonempty prefix nm Hp). f_equal.
  destruct (decide (p = "")) as [->|Hne].
  - by rewrite decide_False.
  - rewrite decide_False by (destruct nm; [done|discriminate]).
    by rewrite !string_app_assoc.
Qed.

Lemma fmap_bind_list {A B C} (f : B -> C) (g : A -> list B) (l : list A) :
  f <$> (l ≫= g) = l ≫= fun x => f <$> g x.
Proof.
  induction l as [|x l IH]; [done|].
  by rewrite !bind_cons, fmap_app, IH.
Qed.

Lemma named_modules_shift m :
  tree_ok m = true ->
  forall prefix, prefix <> "" ->
    named_modules prefix m = shift prefix <$> named_modules "" m.
Proof.
  induction m as [k ps cs IH] using nn_module_children_ind.
  intros Hok prefix Hp. rewrite !named_modules_unfold, fmap_cons.
  f_equal. apply tree_ok_unfold in Hok as [_ Hcs].
  rewrite fmap_bind_list.
  apply Forall_bind_ext, Forall_forall. intros [nm c] Hc. simpl.
  destruct (Hcs nm c Hc) as (Hnm & _ & Hokc).
  rewrite join_empty.
  rewrite (IH nm c Hc Hokc (join prefix nm)) by (by apply join_ne_empty).
  rewrite (IH nm c Hc Hokc nm Hnm).
  rewrite <- list_fmap_compose. apply list_fmap_ext.
  intros i pm _. simpl. by rewrite shift_shift.
Qed.

(** *** What the two loops collect *)

(** The branch of the inner loop that a parameter takes: [Some true] for
    decay, [Some false] for no decay, [None] when no branch applies. *)
Definition decision (m : nn_module) (pn : string) : option bool :=
  if endswith pn "bias" then Some false
  else if endswith pn "weight" && isinstance m whitelist_weight_modules
  then Some true
  else if endswith pn "weight" && isinstance m blacklist_weight_modules
  then Some false
  else None.

Definition in_group (b : bool) (acc : groups) (x : string) : Prop :=
  if b then x ∈ acc.1 else x ∈ acc.2.

Lemma classify_in_group b mn m acc pn x :
  in_group b (classify mn m acc pn) x <->
  in_group b acc x \/ (decision m pn = Some b /\ x = join mn pn).
Proof.
  unfold classify, decision, in_group.
  destruct (endswith pn "bias");
    [|destruct (endswith pn "weight" && isinstance m whitelist_weight_modules);
      [|destruct (endswith pn "weight"
                  && isinstance m blacklist_weight_modules)]];
    destruct b; simpl; rewrite ?elem_of_union, ?elem_of_singleton;
    intuition congruence.
Qed.

Lemma inner_loop_in_group b mn m pns acc x :
  in_group b (foldl (classify mn m) acc pns) x <->
  in_group b acc x \/
  exists pn, pn ∈ pns /\ decision m pn = Some b /\ x = join mn pn.
Proof.
  revert acc. induction pns as [|pn pns IH]; intros acc; simpl.
  - split; [by left|]. intros [H|(pn & H & _)]; [done|].
    by apply not_elem_of_nil in H.
  - rewrite IH, classify_in_group. split.
    + intros [[H|[H1 H2]]|(pn' & H1 & H2)]; [by left|right..].
      * exists pn. split; [by left|done].
      * exists pn'. split; [by right|done].
    + intros [H|(pn' & H1 & H2)]; [by left; left|].
      apply elem_of_cons in H1 as [->|H1]; [by left; right|].
      right. by exists pn'.
Qed.

Lemma outer_loop_in_group b mods acc x :
  in_group b
    (foldl (fun acc mnm =>
              foldl (classify mnm.1 mnm.2) acc (named_parameters mnm.2))
       acc mods) x <->
  in_group b acc x \/
  exists mn m pn, (mn, m) ∈ mods /\ pn ∈ named_parameters m /\
                  decision m pn = Some b /\ x = join mn pn.
Proof.
  revert acc. induction mods as [|[mn m] mods IH]; intros acc; simpl.
  - split; [by left|]. intros [H|(mn & m & pn & H & _)]; [done|].
    by apply not_elem_of_nil in H.
  - rewrite IH, inner_loop_in_group. split.
    + intros [[H|(pn & H1 & H2)]|(mn' & m' & pn & H1 & H2)];
        [by left|right..].
      * exists mn, m, pn. split; [by left|done].
      * exists mn', m', pn. split; [by right|done].
    + intros [H|(mn' & m' & pn & H1 & H2)]; [by left; left|].
      apply elem_of_cons in H1 as [[= -> ->]|H1].
      * left. right. by exists pn.
      * right. by exists mn', m', pn.
Qed.

Lemma separate_in_group b root x :
  in_group b (separate root) x <->
  exists mn m pn, (mn, m) ∈ named_modules "" root /\
                  pn ∈ named_parameters m /\
                  decision m pn = Some b /\ x = join mn pn.
Proof.
  unfold separate. rewrite outer_loop_in_group. split; [|by right].
  intros [H|H]; [|done]. destruct b; simpl in H; by apply not_elem_of_empty in H.
Qed.

Lemma decision_true m pn :
  decision m pn = Some true ->
  endswith pn "weight" = true /\ kind_of m = Linear.
Proof.
  unfold decision, isinstance, whitelist_weight_modules.
  destruct (endswith pn "bias"); [done|].
  destruct (endswith pn "weight"); simpl; [|done].
  case_bool_decide as Hk; simpl.
  - intros _. split; [done|]. by apply list_elem_of_singleton in Hk.
  - by case_bool_decide.
Qed.

Lemma decision_false m pn :
  decision m pn = Some false ->
  endswith pn "bias" = true \/
  (endswith pn "weight" = true /\ kind_of m ∈ blacklist_weight_modules).
Proof.
  unfold decision, isinstance.
  destruct (endswith pn "bias"); [by left|].
  destruct (endswith pn "weight"); simpl; [|done].
  case_bool_decide; simpl; [done|].
  case_bool_decide; [|done]. intros _. by right.
Qed.

(** *** The classification of a well-shaped tree is a partition *)

Lemma owner_is_leaf m name shape :
  tree_ok m = true -> (name, shape) ∈ own_params m ->
  leaf_kind (kind_of m) = true /\ children_of m = [] /\
  (name = "weight" \/ name = "bias").
Proof.
  destruct m as [k ps cs]. intros Hok Hin.
  apply tree_ok_unfold in Hok as [Hn _]. unfold node_ok in Hn. simpl in *.
  destruct (leaf_kind k).
  - apply andb_true_iff in Hn as [Hcs Hps].
    apply bool_decide_eq_true in Hcs.
    rewrite forallb_forall in Hps.
    specialize (Hps (name, shape)). simpl in Hps.
    rewrite bool_decide_eq_true in Hps.
    split; [done|]. split; [done|].
    apply list_elem_of_In in Hin. specialize (Hps Hin).
    apply elem_of_cons in Hps as [->|Hps]; [by left|].
    apply list_elem_of_singleton in Hps as ->. by right.
  - apply bool_decide_eq_true in Hn. subst ps.
    by apply not_elem_of_nil in Hin.
Qed.

Lemma leaf_parameters m pn :
  tree_ok m = true -> leaf_kind (kind_of m) = true ->
  pn ∈ named_parameters m -> pn = "weight" \/ pn = "bias".
Proof.
  intros Hok Hleaf Hpn.
  apply named_parameters_elem in Hpn as (mn & m' & name & shape & Hm & Hp & ->).
  destruct m as [k ps cs]. pose proof Hok as Hok'.
  apply tree_ok_unfold in Hok' as [Hn _]. unfold node_ok in Hn.
  simpl in Hleaf. rewrite Hleaf in Hn.
  apply andb_true_iff in Hn as [Hcs _]. apply bool_decide_eq_true in Hcs.
  subst cs. rewrite named_modules_unfold in Hm.
  apply list_elem_of_singleton in Hm. injection Hm as -> ->.
  rewrite join_empty. by destruct (owner_is_leaf _ _ _ Hok Hp) as (_ & _ & H).
Qed.

Lemma leaf_kind_cases k :
  leaf_kind k = true -> k = Linear \/ k ∈ blacklist_weight_modules.
Proof.
  unfold leaf_kind. rewrite bool_decide_eq_true.
  intros H. apply elem_of_cons in H as [->|H]; [by left|by right].
Qed.

Lemma marks_disjoint c : c ∈ decay_marks -> c ∈ no_decay_marks -> False.
Proof.
  unfold decay_marks, no_decay_marks. rewrite !elem_of_cons.
  intros [->|[->|[->|[->|H]]]]; try (by apply not_elem_of_nil in H);
    intros [H|[H|[H|[H|H]]]]; try discriminate H;
    by apply not_elem_of_nil in H.
Qed.

Section Partition.

Variable root : nn_module.
Hypothesis root_ok : tree_ok root = true.
Hypothesis root_container : leaf_kind (kind_of root) = false.

(** Every collected name is the name of a parameter of the model. *)
Lemma collected_is_parameter b x :
  in_group b (separate root) x -> x ∈ named_parameters root.
Proof.
  intros H. apply separate_in_group in H as (mn & m & pn & Hm & Hpn & _ & ->).
  apply named_parameters_elem in Hpn as (p & m' & name & shape & Hm' & Hp & ->).
  apply named_parameters_elem.
  destruct (decide (mn = "")) as [->|Hmn].
  - exists p, m', name, shape. split; [|done].
    by apply (named_modules_sub root "" "" m).
  - pose proof (tree_ok_below root root_ok "" mn m Hm) as Hokm.
    assert (Hs : shift mn (p, m') ∈ named_modules "" root).
    { apply (named_modules_sub root "" mn m); [done|].
      rewrite (named_modules_shift m Hokm mn Hmn).
      by apply list_elem_of_fmap_2. }
    unfold shift in Hs. simpl in Hs.
    eexists _, m', name, shape. split; [exact Hs|]. split; [done|].
    destruct (decide (p = "")) as [->|Hp0]; [done|].
    rewrite (join_nonempty mn _ Hmn), (join_nonempty p _ Hp0).
    rewrite join_nonempty by (destruct mn; [done|discriminate]).
    by rewrite !string_app_assoc.
Qed.

(** Every parameter of the model is collected. *)
Lemma parameter_is_collected x :
  x ∈ named_parameters root ->
  in_group true (separate root) x \/ in_group false (separate root) x.
Proof.
  intros H.
  apply named_parameters_elem in H as (mn & m & name & shape & Hm & Hp & ->).
  pose proof (tree_ok_below root root_ok "" mn m Hm) as Hokm.
  destruct (owner_is_leaf m name shape Hokm Hp) as (Hleaf & _ & Hname).
  assert (Hpn : name ∈ named_parameters m).
  { apply named_parameters_elem. exists "", m, name, shape.
    split; [apply named_modules_self|done]. }
  assert (Hd : exists b, decision m name = Some b).
  { unfold decision, isinstance, whitelist_weight_modules.
    destruct Hname as [-> | ->]; [|by exists false].
    change (endswith "weight" "bias") with false.
    change (endswith "weight" "weight") with true. simpl.
    destruct (leaf_kind_cases _ Hleaf) as [Hk|Hk].
    - exists true. by rewrite bool_decide_eq_true_2 by (rewrite Hk; by left).
    - exists false. case_bool_decide; [|by rewrite bool_decide_eq_true_2].
      exfalso. apply list_elem_of_singleton in H. rewrite H in Hk.
      unfold blacklist_weight_modules in Hk.
      apply elem_of_cons in Hk as [Hk|Hk]; [done|].
      by apply list_elem_of_singleton in Hk. }
  destruct Hd as [b Hd].
  assert (Hin : in_group b (separate root) (join mn name)).
  { apply separate_in_group. by exists mn, m, name. }
  destruct b; [by left|by right].
Qed.

(** No name is collected on both sides. *)
Lemma collected_once x :
  in_group true (separate root) x -> in_group false (separate root) x -> False.
Proof.
  intros H1 H2.
  apply separate_in_group in H1 as (mn1 & m1 & pn1 & Hm1 & Hpn1 & Hd1 & ->).
  apply separate_in_group in H2 as (mn2 & m2 & pn2 & Hm2 & Hpn2 & Hd2 & Heq).
  apply decision_true in Hd1 as [Hw1 Hk1].
  pose proof (tree_ok_below root root_ok "" mn1 m1 Hm1) as Hok1.
  pose proof (tree_ok_below root root_ok "" mn2 m2 Hm2) as Hok2.
  assert (Hleaf1 : leaf_kind (kind_of m1) = true) by (by rewrite Hk1).
  destruct (leaf_parameters m1 pn1 Hok1 Hleaf1 Hpn1) as [-> | ->];
    [|discriminate Hw1].
  destruct (named_modules_marked root root_ok "" mn1 m1 Hm1)
    as [[= -> ->]|[Hne1 Hmark1]].
  { rewrite Hleaf1 in root_container. discriminate. }
  rewrite Hk1 in Hmark1. destruct Hmark1 as (c1 & Hc1 & Hdm).
  apply decision_false in Hd2 as [Hb2|[Hw2 Hk2]].
  - apply (endswith_bias_weight (join mn1 "weight")).
    + rewrite Heq. by apply endswith_join.
    + by apply endswith_join.
  - assert (Hleaf2 : leaf_kind (kind_of m2) = true).
    { unfold leaf_kind. apply bool_decide_eq_true. by right. }
    destruct (leaf_parameters m2 pn2 Hok2 Hleaf2 Hpn2) as [-> | ->];
      [|discriminate Hw2].
    destruct (named_modules_marked root root_ok "" mn2 m2 Hm2)
      as [[= -> ->]|[Hne2 Hmark2]].
    { rewrite Hleaf2 in root_container. discriminate. }
    rewrite (join_nonempty mn1 _ Hne1), (join_nonempty mn2 _ Hne2) in Heq.
    apply string_app_inv_tail in Heq. subst mn2.
    assert (Hnd : exists c, last_char mn1 = Some c /\ c ∈ no_decay_marks).
    { unfold blacklist_weight_modules in Hk2.
      apply elem_of_cons in Hk2 as [Hk2|Hk2]; [by rewrite Hk2 in Hmark2|].
      apply list_elem_of_singleton in Hk2. by rewrite Hk2 in Hmark2. }
    destruct Hnd as (c2 & Hc2 & Hnd).
    assert (c2 = c1) as -> by congruence.
    by apply (marks_disjoint c1).
Qed.

Lemma separate_disjoint : (separate root).1 ∩ (separate root).2 = ∅.
Proof.
  apply set_eq. intros x. rewrite elem_of_intersection. split.
  - intros [H1 H2]. exfalso. by apply (collected_once x).
  - intros H. by apply not_elem_of_empty in H.
Qed.

Lemma separate_covers :
  (separate root).1 ∪ (separate root).2 = list_to_set (named_parameters root).
Proof.
  apply set_eq. intros x.
  rewrite elem_of_union, elem_of_list_to_set. split.
  - intros [H|H].
    + by apply (collected_is_parameter true).
    + by apply (collected_is_parameter false).
  - apply parameter_is_collected.
Qed.

End Partition.

(** *** The checks of [configure_optimizers] *)

(** The optimizer is built exactly when the two sets are disjoint and
    their union is the set of parameter names. *)
Lemma configure_optimizers_returns_iff root :
  returns (configure_optimizers root) <->
  (separate root).1 ∩ (separate root).2 = ∅ /\
  (separate root).1 ∪ (separate root).2 = list_to_set (named_parameters root).
Proof.
  unfold configure_optimizers. destruct (separate root) as [decay no_decay].
  simpl. set (params := list_to_set (named_parameters root) : gset string).
  destruct (decide (size (decay ∩ no_decay) = 0%nat)) as [H1|H1].
  2: { split; [done|]. intros [Hd _]. apply H1. rewrite Hd. apply size_empty. }
  apply size_empty_iff in H1.
  destruct (decide (size (params ∖ (decay ∪ no_decay)) = 0%nat)) as [H2|H2].
  2: { split; [done|]. intros [_ Hu]. apply H2, size_empty_iff. set_solver. }
  apply size_empty_iff in H2.
  destruct (decide (decay ⊆ params)) as [H3|H3].
  2: { split; [done|]. intros [_ Hu]. apply H3. set_solver. }
  destruct (decide (no_decay ⊆ params)) as [H4|H4].
  2: { split; [done|]. intros [_ Hu]. apply H4. set_solver. }
  split; [intros _|done]. split; [set_solver|].
  apply set_eq. intros x. split; [set_solver|]. intros Hx.
  destruct (decide (x ∈ decay ∪ no_decay)) as [Hin|Hin]; [done|].
  exfalso. apply (not_elem_of_empty (C := gset string) x).
  apply H2. by apply elem_of_difference.
Qed.

(** *** The tree of [DeltaGPT] is well shaped *)

Lemma block_of_ok config : tree_ok (block_of config) = true.
Proof. unfold block_of. by destruct (bias config). Qed.

Lemma pretty_N_go_nonempty (x : N) (s : string) :
  s <> "" -> pretty_N_go x s <> "".
Proof.
  revert s. induction (N.lt_wf_0 x) as [x _ IH]; intros s Hs.
  destruct (decide (x = 0)%N) as [->|Hx].
  - by rewrite pretty_N_go_0.
  - rewrite pretty_N_go_step by lia. apply IH; [|done].
    apply N.div_lt; lia.
Qed.

Lemma pretty_nat_nonempty (i : nat) : pretty i <> "".
Proof.
  unfold pretty, pretty_nat, pretty, pretty_N. case_decide; [done|].
  rewrite pretty_N_go_step by lia. by apply pretty_N_go_nonempty.
Qed.

Lemma module_list_ok (n : nat) (b : nn_module) :
  tree_ok b = true -> kind_of b = Block ->
  tree_ok (nn_ModuleList (replicate n b)) = true.
Proof.
  intros Hb Hk. unfold nn_ModuleList. apply tree_ok_unfold.
  split; [done|]. intros nm c Hin.
  apply list_elem_of_lookup_1 in Hin as [i Hi].
  rewrite list_lookup_imap in Hi.
  destruct (replicate n b !! i) as [b'|] eqn:Hb'; [|done].
  apply lookup_replicate in Hb' as [-> _].
  simpl in Hi. injection Hi as <- <-.
  split; [apply pretty_nat_nonempty|]. split; [|done]. by rewrite Hk.
Qed.

Lemma model_of_ok config : tree_ok (model_of config) = true.
Proof.
  unfold model_of. apply tree_ok_unfold. split; [done|].
  intros nm c Hin.
  repeat (apply elem_of_cons in Hin as [[= -> ->]|Hin]);
    try (by apply not_elem_of_nil in Hin).
  all: split; [done|].
  all: split; [by apply (bool_decide_eq_true_1 _)|].
  - done.
  - done.
  - done.
  - by apply module_list_ok; [apply block_of_ok|].
  - by destruct (bias config).
  - done.
Qed.

(** A model that was built is the tree [model_of] of its configuration. *)
Lemma DeltaGPT_init_inv config model :
  DeltaGPT_init config = Ok model -> model = model_of config.
Proof.
  intros H.
  assert (Hsz : sizes_valid config).
  { unfold DeltaGPT_init, nn_Embedding, nn_Dropout in H.
    destruct (decide (0 <= vocab_size config /\ 0 <= n_embd config)%Z)
      as [[H1 H2]|_]; [|discriminate H].
    simpl in H.
    destruct (decide (0 <= block_size config /\ 0 <= n_embd config)%Z)
      as [[H3 _]|_]; [|discriminate H].
    simpl in H.
    destruct (decide (0 <= dropout config <= 1)%R) as [H4|_];
      [|discriminate H].
    done. }
  destruct (decide (heads_divide config \/ (n_layer config <= 0)%Z))
    as [Hh|Hh].
  - rewrite (DeltaGPT_init_ok config Hsz Hh) in H. by injection H.
  - pose proof (DeltaGPT_init_raises config Hsz) as Hr.
    rewrite H in Hr. exfalso. apply Hr; [lia|tauto].
Qed.

(** C5. For every model that [DeltaGPT] builds, the two sets that
    [configure_optimizers] collects are disjoint, their union is the set of
    the model's parameter names, and the optimizer groups are built; and
    on any module tree whose collected sets are not such a partition,
    [configure_optimizers] raises. *)
Theorem configure_optimizers_partition (config : ModelConfig)
  (model : nn_module) :
  DeltaGPT_init config = Ok model ->
  ((separate model).1 ∩ (separate model).2 = ∅ /\
   (separate model).1 ∪ (separate model).2
   = list_to_set (named_parameters model) /\
   returns (configure_optimizers model)) /\
  (forall root : nn_module,
     ~ ((separate root).1 ∩ (separate root).2 = ∅ /\
        (separate root).1 ∪ (separate root).2
        = list_to_set (named_parameters root)) ->
     raises (configure_optimizers root)).
Proof.
  intros Hinit. apply DeltaGPT_init_inv in Hinit as ->. split.
  - pose proof (separate_disjoint (model_of config) (model_of_ok config)
                  eq_refl) as Hd.
    pose proof (separate_covers (model_of config) (model_of_ok config))
      as Hu.
    split; [done|]. split; [done|].
    by apply configure_optimizers_returns_iff.
  - intros root Hbad. apply raises_not_returns. intros Hr.
    by apply Hbad, configure_optimizers_returns_iff.
Qed.

(** The groups of a one-layer model with biases. *)
Example configure_optimizers_one_layer :
  configure_optimizers (model_of (mkConfig 10 4 1 2 8 (1/10) true))
  = Ok (mkGroups
          ["blocks.0.attn.c_attn.weight"; "blocks.0.attn.c_proj.weight";
           "blocks.0.mlp.c_fc.weight"; "blocks.0.mlp.c_proj.weight";
           "head.weight"]
          ["blocks.0.attn.c_attn.bias"; "blocks.0.attn.c_proj.bias";
           "blocks.0.ln_1.bias"; "blocks.0.ln_1.weight";
           "blocks.0.ln_2.bias"; "blocks.0.ln_2.weight";
           "blocks.0.mlp.c_fc.bias"; "blocks.0.mlp.c_proj.bias";
           "ln_f.bias"; "ln_f.weight"; "pos_emb.weight"; "tok_emb.weight"]).
Proof. vm_compute. reflexivity. Qed.

(** A parameter that no branch classifies: the first assert passes, the
    second one raises. *)
Example configure_optimizers_unclassified :
  configure_optimizers (NN DeltaGPT [] [("scale", NN GELU [("gain", [1%Z])] [])])
  = Raise AssertionError.
Proof. vm_compute. reflexivity. Qed.

Lemma configure_optimizers_partition_witness :
  DeltaGPT_init (mkConfig 10 4 1 2 8 (1/10) true)
  = Ok (model_of (mkConfig 10 4 1 2 8 (1/10) true)) /\
  (((separate (model_of (mkConfig 10 4 1 2 8 (1/10) true))).1
    ∩ (separate (model_of (mkConfig 10 4 1 2 8 (1/10) true))).2 = ∅ /\
    (separate (model_of (mkConfig 10 4 1 2 8 (1/10) true))).1
    ∪ (separate (model_of (mkConfig 10 4 1 2 8 (1/10) true))).2
    = list_to_set
        (named_parameters (model_of (mkConfig 10 4 1 2 8 (1/10) true))) /\
    returns
      (configure_optimizers (model_of (mkConfig 10 4 1 2 8 (1/10) true)))) /\
   (forall root : nn_module,
      ~ ((separate root).1 ∩ (separate root).2 = ∅ /\
         (separate root).1 ∪ (separate root).2
         = list_to_set (named_parameters root)) ->
      raises (configure_optimizers root))).
Proof.
  assert (H : DeltaGPT_init (mkConfig 10 4 1 2 8 (1/10) true)
              = Ok (model_of (mkConfig 10 4 1 2 8 (1/10) true))).
  { apply DeltaGPT_init_ok.
    - unfold sizes_valid. simpl. repeat split; (lia || lra).
    - left. unfold heads_divide. simpl. split; [lia|reflexivity]. }
  split; [exact H|].
  exact (configure_optimizers_partition _ _ H).
Defined.

End Optim.

(** ** The distributed trainer *)

Module Trainer.
Import Exn Model Optim.
Local Open Scope Z_scope.

(** A Python float that may be [float("inf")]. *)
Inductive pyfloat : Type :=
| Finite (r : R)
| Inf.

Record TrainingConfig : Type := mkTrain {
  gradient_accumulation_steps : Z;
  eval_iters : Z;
  init_from : string;
  resume_checkpoint : option string
}.

(** [train_config.gradient_accumulation_steps = v] *)
Definition set_gradient_accumulation_steps (v : Z) (c : TrainingConfig)
  : TrainingConfig :=
  mkTrain v (eval_iters c) (init_from c) (resume_checkpoint c).

(** What the launcher provides: the integer variables of [os.environ], and
    what [dist.get_rank()] and [dist.get_world_size()] answer once the
    process group is initialised. *)
Record Launch : Type := mkLaunch {
  environ : gmap string Z;
  group_rank : Z;
  group_world_size : Z
}.

(** The attributes that [setup_distributed] sets on the trainer. *)
Record Distributed : Type := mkDist {
  rank : Z;
  local_rank : Z;
  world_size : Z;
  is_main_process : bool;
  distributed : bool
}.

(** [Trainer.setup_distributed]: the attributes it sets and the training
    configuration it leaves behind. *)
Definition setup_distributed (launch : Launch) (train_config : TrainingConfig)
  : result (Distributed * TrainingConfig) :=
  match environ launch !! "RANK" with
  | None => Ok (mkDist 0 0 1 true false, train_config)
  | Some _ =>
      let rank := group_rank launch in
      let local_rank := default 0 (environ launch !! "LOCAL_RANK") in
      let world_size := group_world_size launch in
      if decide (world_size = 0) then Raise ZeroDivisionError
      else
        let steps := gradient_accumulation_steps train_config `div` world_size in
        let steps := if decide (steps < 1) then 1 else steps in
        Ok (mkDist rank local_rank world_size (bool_decide (rank = 0)) true,
            set_gradient_accumulation_steps steps train_config)
  end.

(** *** Evaluation *)

(** The loop of [evaluate]: the losses of the first [eval_iters] batches
    that the validation loader yields. *)
Definition collect_losses (eval_iters : Z) (batch_losses : list R) : list R :=
  take (Z.to_nat eval_iters) batch_losses.

(** [dist.reduce(tensor, dst=0, op=SUM)] as rank 0 sees it: its tensor
    becomes the elementwise sum over all ranks. [None] when the ranks
    disagree on the shape, for which the collective is not defined. *)
Definition reduce_sum (mine : list R) (others : list (list R))
  : option (list R) :=
  if decide (Forall (fun t => length t = length mine) others)
  then Some (foldl (zip_with Rplus) mine others)
  else None.

(** [sum(val_losses) / len(val_losses) if val_losses else float("inf")] *)
Definition mean_or_inf (val_losses : list R) : pyfloat :=
  match val_losses with
  | [] => Inf
  | _ :: _ => Finite (Logits.sumR val_losses / INR (length val_losses))
  end.

(** [Trainer.evaluate] on rank 0: [val_losses] are its own per-batch
    losses, [others] those of the other ranks. *)
Definition evaluate_main (is_distributed : bool) (w : Z) (val_losses : list R)
  (others : list (list R)) : option pyfloat :=
  if is_distributed then
    val_loss_tensor ← reduce_sum val_losses others;
    let val_loss_tensor :=
      (fun x => (x / IZR (w * Py.len val_losses))%R) <$> val_loss_tensor in
    Some (mean_or_inf val_loss_tensor)
  else Some (mean_or_inf val_losses).

(** The average of all per-batch losses of all ranks. *)
Definition cross_replica_average (ranks : list (list R)) : R :=
  (Logits.sumR (concat ranks) / INR (length (concat ranks)))%R.

(** *** What [evaluate] returns on rank 0 *)

Lemma sumR_zip_with_plus (a b : list R) :
  length a = length b ->
  Logits.sumR (zip_with Rplus a b) = (Logits.sumR a + Logits.sumR b)%R.
Proof.
  revert b. induction a as [|x a IH]; intros [|y b] Hlen; try done.
  - simpl. lra.
  - simpl in Hlen. injection Hlen as Hlen.
    change (zip_with Rplus (x :: a) (y :: b))
      with ((x + y)%R :: zip_with Rplus a b).
    rewrite !Logits.sumR_cons, IH by done. lra.
Qed.

Lemma reduce_sum_total (mine : list R) (others : list (list R)) :
  Forall (fun t => length t = length mine) others ->
  length (foldl (zip_with Rplus) mine others) = length mine /\
  Logits.sumR (foldl (zip_with Rplus) mine others)
  = (Logits.sumR mine + Logits.sumR (concat others))%R.
Proof.
  intros Hall. revert mine Hall.
  induction others as [|t others IH]; intros mine Hall.
  - simpl. split; [done|]. lra.
  - apply Forall_cons in Hall as [Ht Hall]. simpl.
    assert (Hlen : length (zip_with Rplus mine t) = length mine).
    { rewrite length_zip_with. lia. }
    destruct (IH (zip_with Rplus mine t)) as [H1 H2].
    { eapply Forall_impl; [exact Hall|]. intros u Hu. simpl in *. lia. }
    split; [lia|].
    rewrite H2, sumR_zip_with_plus, Logits.sumR_app by done. lra.
Qed.

Lemma concat_same_length {A} (n : nat) (ls : list (list A)) :
  Forall (fun t => length t = n) ls ->
  length (concat ls) = (length ls * n)%nat.
Proof.
  induction 1 as [|t ls Ht _ IH]; [done|].
  simpl. rewrite length_app, IH, Ht. lia.
Qed.

(** X1. In distributed mode, when every rank holds as many per-batch
    losses as rank 0 and at least one, rank 0 returns the cross-replica
    average divided once more by the number of local batches. *)
Lemma evaluate_main_distributed (val_losses : list R) (others : list (list R)) :
  val_losses <> [] ->
  Forall (fun t => length t = length val_losses) others ->
  evaluate_main true (Z.of_nat (S (length others))) val_losses others
  = Some (Finite (cross_replica_average (val_losses :: others)
                  / INR (length val_losses))).
Proof.
  intros Hne Hall. unfold evaluate_main, reduce_sum.
  rewrite decide_True by done. simpl.
  destruct (reduce_sum_total val_losses others Hall) as [Hlen Hsum].
  set (tensor := foldl (zip_with Rplus) val_losses others) in *.
  set (n := length val_losses) in *.
  assert (Hn : (0 < n)%nat).
  { destruct val_losses; [done|]. subst n. simpl. lia. }
  assert (HnR : (0 < INR n)%R) by (by apply lt_0_INR).
  unfold mean_or_inf.
  destruct (_ <$> tensor) as [|x l] eqn:Hmap.
  { apply (f_equal length) in Hmap. rewrite length_fmap, Hlen in Hmap.
    simpl in Hmap. lia. }
  rewrite <- Hmap. clear Hmap x l.
  rewrite length_fmap, Hlen, Logits.sumR_fmap_div, Hsum.
  unfold cross_replica_average, Py.len. fold n.
  rewrite (concat_same_length n (val_losses :: others))
    by (by constructor).
  change (concat (val_losses :: others)) with (val_losses ++ concat others).
  rewrite Logits.sumR_app. simpl length.
  by rewrite <- Nat2Z.inj_mul, <- INR_IZR_INZ.
Qed.

Lemma evaluate_main_distributed_witness :
  [1; 3]%R <> [] /\
  Forall (fun t => length t = length [1; 3]%R) [[1; 3]%R] /\
  evaluate_main true 2 [1; 3]%R [[1; 3]%R]
  = Some (Finite (cross_replica_average [[1; 3]; [1; 3]]%R / INR 2)).
Proof.
  assert (Hne : [1; 3]%R <> []) by discriminate.
  assert (Hall : Forall (fun t => length t = length [1; 3]%R) [[1; 3]%R])
    by (constructor; [reflexivity|constructor]).
  split; [exact Hne|]. split; [exact Hall|].
  exact (evaluate_main_distributed [1; 3]%R [[1; 3]%R] Hne Hall).
Defined.

(** Without distribution the same function returns the plain average. *)
Lemma evaluate_main_single (val_losses : list R) :
  val_losses <> [] ->
  evaluate_main false 1 val_losses []
  = Some (Finite (cross_replica_average [val_losses])).
Proof.
  intros Hne. unfold evaluate_main, mean_or_inf, cross_replica_average.
  simpl. rewrite app_nil_r. by destruct val_losses.
Qed.

(** C8, at world size 2 with the per-batch losses 1 and 3 on each rank:
    the cross-replica average is 2, rank 0 of the distributed run returns
    1, and the run without distribution returns 2 on the same losses. *)
Lemma evaluate_divides_twice :
  evaluate_main true 2 [1; 3]%R [[1; 3]%R] = Some (Finite 1) /\
  cross_replica_average [[1; 3]; [1; 3]]%R = 2%R /\
  evaluate_main false 1 [1; 3]%R [] = Some (Finite 2).
Proof.
  split; [|split].
  - unfold evaluate_main, reduce_sum. rewrite decide_True by (by repeat constructor).
    simpl. do 2 f_equal. unfold Py.len. simpl.
    change (2 * Z.of_nat 2)%Z with 4%Z. lra.
  - unfold cross_replica_average. simpl. lra.
  - unfold evaluate_main. simpl. do 2 f_equal. lra.
Qed.

(** *** Checkpoints and the state they are loaded into *)

Record tensor : Type := mkTensor { shape : list Z; data : list R }.

(** The values a checkpoint entry can hold. *)
Inductive pyobj : Type :=
| PyNone
| PyInt (z : Z)
| PyFloat (x : pyfloat)
| PyStr (s : string)
| PyStateDict (d : gmap string tensor)
| PyOpaque.

(** The entries of the checkpoint dictionary that [load_checkpoint] reads;
    [None] is a missing key. *)
Record checkpoint : Type := mkCheckpoint {
  ck_model : option pyobj;
  ck_optimizer : option pyobj;
  ck_iter_num : option pyobj;
  ck_best_val_loss : option pyobj
}.

(** What [torch.load] finds at a path: a file that does not unpickle, a
    pickled dictionary, or some other pickled object. *)
Inductive file : Type :=
| Corrupt
| PickledDict (c : checkpoint)
| PickledOther.

Inductive log_record : Type :=
| LogInfo (message : string)
| LogError (message : string).

(** [self.model]: the bare module, or the module behind the
    [DistributedDataParallel] wrapper. *)
Inductive model_ref : Type :=
| Bare (m : nn_module)
| Wrapped (m : nn_module).

(** The attributes of the trainer that [load_checkpoint] reads. *)
Record Self : Type := mkSelf {
  self_resume_checkpoint : string;
  self_is_main_process : bool;
  self_distributed : bool;
  self_model : model_ref;
  self_has_optimizer : bool
}.

(** The attributes of the trainer that [load_checkpoint] writes, with the
    log. An attribute that was never assigned is [None]. *)
Record Resume : Type := mkResume {
  weights : gmap string tensor;
  iter_num : option pyobj;
  best_val_loss : option pyobj;
  log : list log_record
}.

(** Statements that read and write [Resume] and may raise; the state
    reached when an exception is raised is kept for the handler. *)
Definition M (A : Type) : Type := Resume -> result A * Resume.

#[global] Instance M_ret : MRet M := fun A a s => (Ok a, s).
#[global] Instance M_bind : MBind M := fun A B f m s =>
  match m s with
  | (Ok a, s') => f a s'
  | (Raise e, s') => (Raise e, s')
  end.

Definition lift {A} (r : result A) : M A := fun s => (r, s).

Definition logger (r : log_record) : M unit :=
  fun s => (Ok tt, mkResume (weights s) (iter_num s) (best_val_loss s)
                     (log s ++ [r])).

Definition set_weights (w : gmap string tensor) : M unit :=
  fun s => (Ok tt, mkResume w (iter_num s) (best_val_loss s) (log s)).

Definition set_iter_num (v : pyobj) : M unit :=
  fun s => (Ok tt, mkResume (weights s) (Some v) (best_val_loss s) (log s)).

Definition set_best_val_loss (v : pyobj) : M unit :=
  fun s => (Ok tt, mkResume (weights s) (iter_num s) (Some v) (log s)).

(** [try: body except Exception as e: handler(e)] *)
Definition try_except (body : M unit) (handler : exn -> M unit) : M unit :=
  fun s =>
    match body s with
    | (Ok a, s') => (Ok a, s')
    | (Raise e, s') =>
        if is_Exception e then handler e s' else (Raise e, s')
    end.

(** [torch.load(path)] against the files present. *)
Definition torch_load (store : gmap string file) (path : string)
  : result file :=
  match store !! path with
  | None => Raise FileNotFoundError
  | Some Corrupt => Raise RuntimeError
  | Some f => Ok f
  end.

(** [self.model.module] *)
Definition getattr_module (r : model_ref) : result nn_module :=
  match r with
  | Wrapped m => Ok m
  | Bare _ => Raise AttributeError
  end.

Definition module_of (r : model_ref) : nn_module :=
  match r with Bare m | Wrapped m => m end.

(** The shapes of the parameters of a module by full name: the keys and
    shapes that [load_state_dict] insists on. *)
Definition parameter_shapes (m : nn_module) : gmap string (list Z) :=
  list_to_map
    (named_modules "" m ≫= fun pm =>
       (fun p => (join pm.1 p.1, p.2)) <$> own_params pm.2).

(** [model.load_state_dict(state_dict)], strict: the keys and the shapes
    must be those of the module. *)
Definition load_state_dict (m : nn_module) (state_dict : gmap string tensor)
  : result (gmap string tensor) :=
  if decide (shape <$> state_dict = parameter_shapes m) then Ok state_dict
  else Raise RuntimeError.

Definition unwanted_prefix : string := "_orig_mod.".

(** The loop that renames the keys a compiled model saved:
    [state_dict[k[len(unwanted_prefix):]] = state_dict.pop(k)]. *)
Definition clean_state_dict (state_dict : gmap string tensor)
  : gmap string tensor :=
  foldl (fun d kv =>
           if String.prefix unwanted_prefix kv.1 then
             match d !! kv.1 with
             | Some v =>
                 <[substring (String.length unwanted_prefix)
                     (String.length kv.1 - String.length unwanted_prefix)
                     kv.1 := v]> (delete kv.1 d)
             | None => d
             end
           else d)
    state_dict (map_to_list state_dict).

(** The format spec [:.4f] applied to [self.best_val_loss]. *)
Definition format_4f (v : option pyobj) : result unit :=
  match v with
  | Some (PyInt _) | Some (PyFloat _) => Ok tt
  | Some (PyStr _) => Raise ValueError
  | Some _ => Raise TypeError
  | None => Raise AttributeError
  end.

(** The body of the [try] of [load_checkpoint]. *)
Definition load_body (self : Self) (store : gmap string file) : M unit :=
  obj ← lift (torch_load store (self_resume_checkpoint self));
  model_to_load ← lift (if self_distributed self
                        then getattr_module (self_model self)
                        else Ok (module_of (self_model self)));
  ck ← lift (match obj with
             | PickledDict c => Ok c
             | _ => Raise TypeError
             end);
  state_dict ← lift (match ck_model ck with
                     | None => Raise KeyError
                     | Some (PyStateDict d) => Ok d
                     | Some _ => Raise AttributeError
                     end);
  loaded ← lift (load_state_dict model_to_load (clean_state_dict state_dict));
  _ ← set_weights loaded;
  _ ← (if bool_decide (is_Some (ck_optimizer ck))
          && negb (self_distributed self)
       then lift (if self_has_optimizer self then Ok tt
                  else Raise AttributeError)
       else mret tt);
  _ ← set_iter_num (default (PyInt 0) (ck_iter_num ck));
  _ ← set_best_val_loss (default (PyFloat Inf) (ck_best_val_loss ck));
  if self_is_main_process self then
    s ← (fun s => (format_4f (best_val_loss s), s));
    logger (LogInfo "Resuming from iteration")
  else mret tt.

(** The [except Exception] handler of [load_checkpoint]. *)
Definition load_failed (e : exn) : M unit :=
  _ ← logger (LogError "Error loading checkpoint");
  _ ← set_iter_num (PyInt 0);
  set_best_val_loss (PyFloat Inf).

(** [Trainer.load_checkpoint] *)
Definition load_checkpoint (self : Self) (store : gmap string file) : M unit :=
  _ ← (if self_is_main_process self
       then logger (LogInfo "Loading checkpoint")
       else mret tt);
  try_except (load_body self store) load_failed.

(** *** Construction of the trainer *)

(** The trainer that [__init__] leaves behind. *)
Record t : Type := mkTrainer {
  model_config : ModelConfig;
  train_config : TrainingConfig;
  dist : Distributed;
  model : model_ref;
  optimizer : optim_groups;
  resume : Resume
}.

(** The truth value of [train_config.resume_checkpoint]. *)
Definition truthy (path : option string) : bool :=
  match path with
  | Some p => negb (String.eqb p "")
  | None => false
  end.

(** [Trainer.setup_datasets]: any failure to load the data is logged and
    ends the process with [exit(1)]. *)
Definition setup_datasets
  (loaded : result (CommandDataset.t * CommandDataset.t))
  : result (CommandDataset.t * CommandDataset.t) :=
  match loaded with
  | Ok datasets => Ok datasets
  | Raise e => if is_Exception e then Raise SystemExit else Raise e
  end.

(** [Trainer.setup_model_and_optimizer]: build the model, resume or start
    fresh, build the optimizer groups, then wrap the model when
    distributed. *)
Definition setup_model_and_optimizer (model_config : ModelConfig)
  (train_config : TrainingConfig) (d : Distributed)
  (init_weights : gmap string tensor) (store : gmap string file)
  : result t :=
  m ← DeltaGPT_init model_config;
  let start := mkResume init_weights None None [] in
  let outcome :=
    if String.eqb (init_from train_config) "resume"
       && truthy (resume_checkpoint train_config)
    then load_checkpoint
           (mkSelf (default "" (resume_checkpoint train_config))
              (is_main_process d) (distributed d) (Bare m) false)
           store start
    else (Ok tt,
          mkResume init_weights (Some (PyInt 0)) (Some (PyFloat Inf)) []) in
  _ ← outcome.1;
  optimizer ← configure_optimizers m;
  Ok (mkTrainer model_config train_config d
        (if distributed d then Wrapped m else Bare m) optimizer outcome.2).

(** [Trainer.__init__] *)
Definition init (model_config : ModelConfig) (train_config : TrainingConfig)
  (launch : Launch) (loaded : result (CommandDataset.t * CommandDataset.t))
  (init_weights : gmap string tensor) (store : gmap string file)
  : result t :=
  setup ← setup_distributed launch train_config;
  _ ← setup_datasets loaded;
  setup_model_and_optimizer model_config setup.2 setup.1 init_weights store.

(** The state in which the [try] of [load_checkpoint] starts. *)
Definition entered (self : Self) (s : Resume) : Resume :=
  if self_is_main_process self
  then mkResume (weights s) (iter_num s) (best_val_loss s)
         (log s ++ [LogInfo "Loading checkpoint"])
  else s.

(** *** Loading a checkpoint never fails *)

Lemma load_checkpoint_unfold self store s :
  load_checkpoint self store s
  = try_except (load_body self store) load_failed (entered self s).
Proof.
  unfold load_checkpoint, entered, mbind, M_bind.
  by destruct (self_is_main_process self).
Qed.

Lemma load_failed_eq e s :
  load_failed e s
  = (Ok tt, mkResume (weights s) (Some (PyInt 0)) (Some (PyFloat Inf))
              (log s ++ [LogError "Error loading checkpoint"])).
Proof. reflexivity. Qed.

(** What binding two statements can raise. *)
Lemma bind_raises {A B} (m : M A) (f : A -> M B) s e s' :
  (m ≫= f) s = (Raise e, s') ->
  m s = (Raise e, s') \/ exists a s1, m s = (Ok a, s1) /\ f a s1 = (Raise e, s').
Proof.
  unfold mbind, M_bind. destruct (m s) as [[a|e1] s1]; intros H.
  - right. by exists a, s1.
  - left. by injection H as -> ->.
Qed.

Lemma lift_raises {A} (r : result A) s e s' :
  lift r s = (Raise e, s') -> r = Raise e.
Proof. unfold lift. by intros [= -> _]. Qed.

(** Every exception that the body of the [try] raises is an
    [Exception]. *)
Lemma load_body_raises_Exception self store s e s' :
  load_body self store s = (Raise e, s') -> is_Exception e = true.
Proof.
  unfold load_body. intros H.
  repeat (apply bind_raises in H as [H|(? & ? & _ & H)]);
    try (apply lift_raises in H);
    try discriminate H.
  - unfold torch_load in H. repeat case_match; by simplify_eq.
  - unfold getattr_module in H. repeat case_match; by simplify_eq.
  - repeat case_match; by simplify_eq.
  - repeat case_match; by simplify_eq.
  - unfold load_state_dict in H. repeat case_match; by simplify_eq.
  - repeat case_match; try discriminate H.
    apply lift_raises in H. repeat case_match; by simplify_eq.
  - repeat case_match; try discriminate H.
    apply bind_raises in H as [H|(? & ? & _ & H)]; [|discriminate H].
    injection H as H _. unfold format_4f in H.
    repeat case_match; by simplify_eq.
Qed.

(** When the body of the [try] raises, [load_checkpoint] ends in its
    handler. *)
Lemma load_checkpoint_raised self store s e s1 :
  load_body self store (entered self s) = (Raise e, s1) ->
  load_checkpoint self store s = load_failed e s1.
Proof.
  intros Hbody. rewrite load_checkpoint_unfold. unfold try_except.
  by rewrite Hbody, (load_body_raises_Exception _ _ _ _ _ Hbody).
Qed.

Lemma load_checkpoint_returned self store s s1 :
  load_body self store (entered self s) = (Ok tt, s1) ->
  load_checkpoint self store s = (Ok tt, s1).
Proof.
  intros Hbody. rewrite load_checkpoint_unfold. unfold try_except.
  by rewrite Hbody.
Qed.

(** C9. [load_checkpoint] returns normally from every state, whatever the
    checkpoint path holds; and whenever the body of its [try] raised, the
    error is logged, the iteration counter is 0 and the best validation
    loss is infinity. When nothing raised, the state is the one the body
    left. *)
Theorem load_checkpoint_falls_back (self : Self) (store : gmap string file)
  (s : Resume) :
  exists s',
    load_checkpoint self store s = (Ok tt, s') /\
    (raises (load_body self store (entered self s)).1 ->
       iter_num s' = Some (PyInt 0) /\
       best_val_loss s' = Some (PyFloat Inf) /\
       LogError "Error loading checkpoint" ∈ log s') /\
    (returns (load_body self store (entered self s)).1 ->
       s' = (load_body self store (entered self s)).2).
Proof.
  destruct (load_body self store (entered self s)) as [[[]|e] s1] eqn:Hbody.
  - exists s1. rewrite (load_checkpoint_returned _ _ _ _ Hbody). simpl.
    split; [done|]. split; [done|]. done.
  - rewrite (load_checkpoint_raised _ _ _ _ _ Hbody), load_failed_eq.
    eexists. split; [done|]. simpl. split; [|done].
    intros _. split; [done|]. split; [done|].
    apply elem_of_app. right. by left.
Qed.

Lemma load_checkpoint_falls_back_witness :
  exists s',
    load_checkpoint
      (mkSelf "ckpt.pt" true false (Bare (NN DeltaGPT [] [])) false)
      ∅ (mkResume ∅ (Some (PyInt 7)) None []) = (Ok tt, s') /\
    iter_num s' = Some (PyInt 0) /\
    best_val_loss s' = Some (PyFloat Inf) /\
    LogError "Error loading checkpoint" ∈ log s'.
Proof.
  destruct (load_checkpoint_falls_back
              (mkSelf "ckpt.pt" true false (Bare (NN DeltaGPT [] [])) false)
              ∅ (mkResume ∅ (Some (PyInt 7)) None []))
    as (s' & Hload & Hraise & _).
  exists s'. split; [exact Hload|]. apply Hraise. exact I.
Defined.

(** A missing file on the main process: both messages are logged and the
    counters are those of a fresh run. *)
Example load_checkpoint_missing_file :
  load_checkpoint (mkSelf "ckpt.pt" true false (Bare (NN DeltaGPT [] [])) false)
    ∅ (mkResume ∅ None None [])
  = (Ok tt,
     mkResume ∅ (Some (PyInt 0)) (Some (PyFloat Inf))
       [LogInfo "Loading checkpoint"; LogError "Error loading checkpoint"]).
Proof. reflexivity. Qed.

(** *** The accumulation factor after setup *)

Lemma setup_distributed_rescales launch train_config r :
  environ launch !! "RANK" = Some r -> 1 < group_world_size launch ->
  setup_distributed launch train_config
  = Ok (mkDist (group_rank launch)
          (default 0 (environ launch !! "LOCAL_RANK"))
          (group_world_size launch)
          (bool_decide (group_rank launch = 0)) true,
        set_gradient_accumulation_steps
          (Z.max 1 (gradient_accumulation_steps train_config
                    `div` group_world_size launch))
          train_config).
Proof.
  intros Hr Hw. unfold setup_distributed. rewrite Hr.
  rewrite decide_False by lia. do 3 f_equal.
  case_decide; lia.
Qed.

Lemma setup_model_and_optimizer_config mc tc d w store trainer :
  setup_model_and_optimizer mc tc d w store = Ok trainer ->
  train_config trainer = tc /\ dist trainer = d.
Proof.
  unfold setup_model_and_optimizer. intros H.
  apply bind_Ok in H as (m & _ & H).
  apply bind_Ok in H as (u & _ & H).
  apply bind_Ok in H as (o & _ & H).
  by injection H as <-.
Qed.

(** C7. When the launcher announces a rank and the world size is [W > 1],
    [setup_distributed] marks the trainer distributed with that world size
    and replaces the accumulation factor [a] by [max 1 (a // W)]; and
    every trainer that [__init__] returns holds exactly that value, so
    the division was applied once. *)
Theorem accumulation_rescaled_once (launch : Launch)
  (train_config0 : TrainingConfig) (r : Z) :
  environ launch !! "RANK" = Some r -> 1 < group_world_size launch ->
  (exists d tc,
     setup_distributed launch train_config0 = Ok (d, tc) /\
     distributed d = true /\ world_size d = group_world_size launch /\
     gradient_accumulation_steps tc
     = Z.max 1 (gradient_accumulation_steps train_config0
                `div` group_world_size launch)) /\
  (forall mc loaded w store trainer,
     init mc train_config0 launch loaded w store = Ok trainer ->
     world_size (dist trainer) = group_world_size launch /\
     gradient_accumulation_steps (train_config trainer)
     = Z.max 1 (gradient_accumulation_steps train_config0
                `div` group_world_size launch)).
Proof.
  intros Hr Hw.
  pose proof (setup_distributed_rescales launch train_config0 r Hr Hw) as Hs.
  split.
  - eexists _, _. split; [exact Hs|]. by repeat split.
  - intros mc loaded w store trainer Hinit. unfold init in Hinit.
    rewrite Hs in Hinit.
    apply bind_Ok in Hinit as (setup & [= <-] & Hinit).
    apply bind_Ok in Hinit as (ds & _ & Hinit). simpl in Hinit.
    apply setup_model_and_optimizer_config in Hinit as [-> ->]. done.
Qed.

(** Dividing a second time would give another value: 8 steps on 2
    processes become 4, and the setup applied to its own result gives 2. *)
Example rescaling_is_not_idempotent :
  setup_distributed (mkLaunch {[ "RANK" := 0 ]} 0 2)
    (mkTrain 8 20 "scratch" None)
  = Ok (mkDist 0 0 2 true true, mkTrain 4 20 "scratch" None) /\
  setup_distributed (mkLaunch {[ "RANK" := 0 ]} 0 2)
    (mkTrain 4 20 "scratch" None)
  = Ok (mkDist 0 0 2 true true, mkTrain 2 20 "scratch" None).
Proof. split; reflexivity. Qed.

(** An accumulation factor below the world size is floored at 1; without
    a rank in the environment nothing is rescaled. *)
Example rescaling_floor :
  setup_distributed (mkLaunch {[ "RANK" := 3; "LOCAL_RANK" := 1 ]} 3 8)
    (mkTrain 4 20 "scratch" None)
  = Ok (mkDist 3 1 8 false true, mkTrain 1 20 "scratch" None) /\
  setup_distributed (mkLaunch ∅ 0 1) (mkTrain 4 20 "scratch" None)
  = Ok (mkDist 0 0 1 true false, mkTrain 4 20 "scratch" None).
Proof. split; reflexivity. Qed.

Lemma accumulation_rescaled_once_witness :
  environ (mkLaunch {[ "RANK" := 0 ]} 0 2) !! "RANK" = Some 0 /\
  1 < group_world_size (mkLaunch {[ "RANK" := 0 ]} 0 2) /\
  (exists d tc,
     setup_distributed (mkLaunch {[ "RANK" := 0 ]} 0 2)
       (mkTrain 8 20 "scratch" None) = Ok (d, tc) /\
     distributed d = true /\ world_size d = 2 /\
     gradient_accumulation_steps tc = Z.max 1 (8 `div` 2)) /\
  (forall mc loaded w store trainer,
     init mc (mkTrain 8 20 "scratch" None) (mkLaunch {[ "RANK" := 0 ]} 0 2)
       loaded w store = Ok trainer ->
     world_size (dist trainer) = 2 /\
     gradient_accumulation_steps (train_config trainer)
     = Z.max 1 (8 `div` 2)).
Proof.
  assert (Hrank : environ (mkLaunch {[ "RANK" := 0 ]} 0 2) !! "RANK" = Some 0)
    by reflexivity.
  assert (Hworld : 1 < group_world_size (mkLaunch {[ "RANK" := 0 ]} 0 2))
    by (simpl; lia).
  split; [exact Hrank|]. split; [exact Hworld|].
  exact (accumulation_rescaled_once (mkLaunch {[ "RANK" := 0 ]} 0 2)
           (mkTrain 8 20 "scratch" None) 0 Hrank Hworld).
Defined.

(** Two processes, a one-layer model, training from scratch: [__init__]
    returns, with 8 accumulation steps turned into 4. *)
Example init_two_processes (datasets : CommandDataset.t * CommandDataset.t) :
  exists trainer,
    init (mkConfig 10 4 1 2 8 (1/10) true) (mkTrain 8 20 "scratch" None)
      (mkLaunch {[ "RANK" := 0 ]} 0 2) (Ok datasets) ∅ ∅ = Ok trainer /\
    gradient_accumulation_steps (train_config trainer) = 4 /\
    iter_num (resume trainer) = Some (PyInt 0) /\
    best_val_loss (resume trainer) = Some (PyFloat Inf).
Proof.
  unfold init.
  change (setup_distributed _ _)
    with (Ok (mkDist 0 0 2 true true, mkTrain 4 20 "scratch" None)).
  simpl. unfold setup_model_and_optimizer.
  rewrite DeltaGPT_init_ok.
  - simpl. rewrite configure_optimizers_one_layer. simpl.
    eexists. split; [reflexivity|]. by repeat split.
  - unfold sizes_valid. simpl. repeat split; (lia || lra).
  - left. unfold heads_divide. simpl. split; [lia|reflexivity].
Qed.

(** *** Resuming during setup

    [setup_model_and_optimizer] calls [load_checkpoint] before the
    optimizer exists and before the model is wrapped. *)

Lemma load_body_distributed_bare self store s m :
  self_distributed self = true -> self_model self = Bare m ->
  raises (load_body self store s).1.
Proof.
  intros Hd Hm. unfold load_body, mbind, M_bind, lift. rewrite Hd, Hm.
  simpl. by destruct (torch_load store (self_resume_checkpoint self)).
Qed.

(** X2. In distributed mode a trainer set up to resume always starts from
    iteration 0 with best loss infinity, whatever the checkpoint holds:
    [self.model] is not wrapped yet when [load_checkpoint] reads
    [self.model.module]. *)
Lemma distributed_resume_starts_fresh mc tc d w store trainer :
  setup_model_and_optimizer mc tc d w store = Ok trainer ->
  init_from tc = "resume" -> truthy (resume_checkpoint tc) = true ->
  distributed d = true ->
  iter_num (resume trainer) = Some (PyInt 0) /\
  best_val_loss (resume trainer) = Some (PyFloat Inf).
Proof.
  unfold setup_model_and_optimizer. intros H Hfrom Hpath Hd.
  rewrite Hfrom, Hpath in H. simpl in H.
  apply bind_Ok in H as (m & _ & H).
  apply bind_Ok in H as (u & _ & H).
  apply bind_Ok in H as (o & _ & H).
  injection H as <-. simpl.
  set (self := mkSelf _ _ _ _ _).
  set (s := mkResume w None None []).
  pose proof (load_body_distributed_bare self store (entered self s) m Hd
                eq_refl) as Hraise.
  destruct (load_body self store (entered self s)) as [[[]|e] s1] eqn:Hbody;
    [done|].
  by rewrite (load_checkpoint_raised _ _ _ _ _ Hbody), load_failed_eq.
Qed.

Lemma distributed_resume_starts_fresh_witness :
  exists trainer,
    setup_model_and_optimizer (mkConfig 10 4 1 2 8 (1/10) true)
      (mkTrain 4 20 "resume" (Some "ckpt.pt")) (mkDist 0 0 2 true true) ∅
      {[ "ckpt.pt" :=
           PickledDict (mkCheckpoint (Some (PyStateDict ∅)) None
                          (Some (PyInt 500)) None) ]}
    = Ok trainer /\
    iter_num (resume trainer) = Some (PyInt 0) /\
    best_val_loss (resume trainer) = Some (PyFloat Inf).
Proof.
  assert (Hret : exists trainer,
    setup_model_and_optimizer (mkConfig 10 4 1 2 8 (1/10) true)
      (mkTrain 4 20 "resume" (Some "ckpt.pt")) (mkDist 0 0 2 true true) ∅
      {[ "ckpt.pt" :=
           PickledDict (mkCheckpoint (Some (PyStateDict ∅)) None
                          (Some (PyInt 500)) None) ]}
    = Ok trainer).
  { unfold setup_model_and_optimizer. rewrite DeltaGPT_init_ok.
    - simpl. rewrite configure_optimizers_one_layer. simpl.
      eexists. reflexivity.
    - unfold sizes_valid. simpl. repeat split; (lia || lra).
    - left. unfold heads_divide. simpl. split; [lia|reflexivity]. }
  destruct Hret as [trainer Hret]. exists trainer. split; [exact Hret|].
  exact (distributed_resume_starts_fresh _ _ _ _ _ _ Hret eq_refl eq_refl
           eq_refl).
Defined.

End Trainer.

(** ** Parameter counts and the weight-decay group *)

Module Parameters.
Import Exn Model Optim.
Local Open Scope Z_scope.

(** [p.numel()] of a parameter of the given shape. *)
Definition numel (shape : list Z) : Z := foldr Z.mul 1 shape.

(** The shapes of the parameters below a module, in the order of
    [named_parameters]. *)
Definition shapes_below (prefix : string) (m : nn_module) : list (list Z) :=
  named_modules prefix m ≫= fun pm => snd <$> own_params pm.2.

(** [Module.parameters()], by shape. *)
Definition parameters (m : nn_module) : list (list Z) := shapes_below "" m.

Definition sumZ (l : list Z) : Z := foldr Z.add 0 l.

(** [sum(p.numel() for p in self.parameters())] *)
Definition parameter_count (m : nn_module) : Z := sumZ (numel <$> parameters m).

(** The parameters of one block. *)
Definition block_parameter_count (config : ModelConfig) : Z :=
  12 * n_embd config * n_embd config + 2 * n_embd config
  + (if bias config then 11 * n_embd config else 0).

Lemma sumZ_app l1 l2 : sumZ (l1 ++ l2) = sumZ l1 + sumZ l2.
Proof. induction l1 as [|x l1 IH]; simpl; lia. Qed.

Lemma shapes_below_unfold prefix k ps cs :
  shapes_below prefix (NN k ps cs)
  = (snd <$> ps) ++ (cs ≫= fun nc => shapes_below (join prefix nc.1) nc.2).
Proof.
  unfold shapes_below. rewrite named_modules_unfold, bind_cons. simpl.
  f_equal. induction cs as [|c cs IH]; [done|].
  by rewrite !bind_cons, bind_app, IH.
Qed.

(** The path under which a module is reached does not change the shapes. *)
Lemma shapes_below_prefix m :
  forall p q, shapes_below p m = shapes_below q m.
Proof.
  induction m as [k ps cs IH] using nn_module_children_ind.
  intros p q. rewrite !shapes_below_unfold. f_equal.
  induction cs as [|[nm c] cs IHcs]; [done|].
  rewrite !bind_cons. simpl. f_equal.
  - apply (IH nm c). by left.
  - apply IHcs. intros nm' c' Hin. apply (IH nm' c'). by right.
Qed.

Lemma module_list_shapes prefix (n : nat) (b : nn_module) :
  sumZ (numel <$> shapes_below prefix (nn_ModuleList (replicate n b)))
  = Z.of_nat n * sumZ (numel <$> shapes_below "" b).
Proof.
  unfold nn_ModuleList. rewrite shapes_below_unfold. simpl.
  generalize 0%nat as start.
  assert (H : forall start,
    sumZ (numel <$>
      (imap (fun i m => (pretty (start + i)%nat, m)) (replicate n b) ≫=
         fun nc => shapes_below (join prefix nc.1) nc.2))
    = Z.of_nat n * sumZ (numel <$> shapes_below "" b)).
  { induction n as [|n IH]; intros start; [done|].
    cbn [replicate imap]. rewrite bind_cons, fmap_app, sumZ_app. simpl fst.
    simpl snd. rewrite (shapes_below_prefix b _ "").
    rewrite (imap_ext _ (fun i m => (pretty (S start + i)%nat, m)))
      by (intros; simpl; do 2 f_equal; lia).
    rewrite IH. lia. }
  intros _. apply (H 0%nat).
Qed.

Lemma block_of_count config :
  sumZ (numel <$> shapes_below "" (block_of config))
  = block_parameter_count config.
Proof.
  unfold block_parameter_count, block_of, shapes_below.
  destruct (bias config); simpl; ring.
Qed.

Lemma count_unfold prefix k ps cs :
  sumZ (numel <$> shapes_below prefix (NN k ps cs))
  = sumZ (numel <$> ps.*2)
    + sumZ ((fun nc => sumZ (numel <$> shapes_below "" nc.2)) <$> cs).
Proof.
  rewrite shapes_below_unfold, fmap_app, sumZ_app. f_equal.
  induction cs as [|[nm c] cs IH]; [done|].
  rewrite bind_cons, fmap_app, sumZ_app, IH. simpl.
  by rewrite (shapes_below_prefix c _ "").
Qed.

(** X6. The number of parameters that [DeltaGPT.__init__] logs: the two
    embeddings, [n_layer] blocks, the final norm and the head (which is
    not tied to the token embedding). *)
Lemma parameter_count_formula (config : ModelConfig) (model : nn_module) :
  DeltaGPT_init config = Ok model ->
  parameter_count model
  = vocab_size config * n_embd config
    + block_size config * n_embd config
    + Z.max 0 (n_layer config) * block_parameter_count config
    + n_embd config + (if bias config then n_embd config else 0)
    + vocab_size config * n_embd config.
Proof.
  intros Hinit. apply DeltaGPT_init_inv in Hinit as ->.
  unfold parameter_count, parameters, model_of.
  remember (nn_ModuleList _) as blocks eqn:Hblocks.
  rewrite count_unfold. simpl.
  rewrite Hblocks, module_list_shapes, block_of_count.
  destruct (bias config); simpl; lia.
Qed.

Lemma parameter_count_formula_witness :
  DeltaGPT_init (mkConfig 10 4 1 2 8 (1/10) true)
  = Ok (model_of (mkConfig 10 4 1 2 8 (1/10) true)) /\
  parameter_count (model_of (mkConfig 10 4 1 2 8 (1/10) true)) = 1080.
Proof.
  assert (H : DeltaGPT_init (mkConfig 10 4 1 2 8 (1/10) true)
              = Ok (model_of (mkConfig 10 4 1 2 8 (1/10) true))).
  { apply DeltaGPT_init_ok.
    - unfold sizes_valid. simpl. repeat split; (lia || lra).
    - left. unfold heads_divide. simpl. split; [lia|reflexivity]. }
  split; [exact H|].
  exact (parameter_count_formula _ _ H).
Defined.

(** The model that [train.py] builds by default (size "small") has
    18,400,128 parameters. *)
Example parameter_count_small :
  parameter_count (model_of (mkConfig 10000 256 6 8 384 (1/10) false))
  = 18400128.
Proof. vm_compute. reflexivity. Qed.

(** X7. For every model that [DeltaGPT] builds, the weight-decay set holds
    exactly the [weight] parameters owned by [nn.Linear] modules: no bias,
    no embedding and no LayerNorm parameter is decayed. *)
Lemma decay_is_linear_weights (config : ModelConfig) (model : nn_module) :
  DeltaGPT_init config = Ok model ->
  forall x,
    x ∈ (separate model).1 <->
    exists mn m shape,
      (mn, m) ∈ named_modules "" model /\ kind_of m = Linear /\
      ("weight", shape) ∈ own_params m /\ x = join mn "weight".
Proof.
  intros Hinit x. apply DeltaGPT_init_inv in Hinit as ->.
  pose proof (model_of_ok config) as Hok.
  change (x ∈ (separate (model_of config)).1)
    with (in_group true (separate (model_of config)) x).
  rewrite separate_in_group. split.
  - intros (mn & m & pn & Hm & Hpn & Hd & ->).
    apply decision_true in Hd as [Hw Hk].
    pose proof (tree_ok_below _ Hok "" mn m Hm) as Hokm.
    assert (Hleaf : leaf_kind (kind_of m) = true) by (by rewrite Hk).
    destruct (leaf_parameters m pn Hokm Hleaf Hpn) as [-> | ->];
      [|discriminate Hw].
    apply named_parameters_elem in Hpn
      as (mn' & m' & name & shape & Hm' & Hp & Hjoin).
    destruct (owner_is_leaf m' name shape
                (tree_ok_below _ Hokm "" mn' m' Hm') Hp) as (_ & _ & Hname).
    destruct m as [k ps cs].
    apply tree_ok_unfold in Hokm as [Hn _]. unfold node_ok in Hn.
    simpl in Hleaf. rewrite Hleaf in Hn.
    apply andb_true_iff in Hn as [Hcs _]. apply bool_decide_eq_true in Hcs.
    subst cs. rewrite named_modules_unfold in Hm'.
    apply list_elem_of_singleton in Hm'. injection Hm' as -> ->.
    rewrite join_empty in Hjoin. subst name.
    by exists mn, (NN k ps []), shape.
  - intros (mn & m & shape & Hm & Hk & Hp & ->).
    exists mn, m, "weight". split; [done|]. split.
    + apply named_parameters_elem. exists "", m, "weight", shape.
      split; [apply named_modules_self|done].
    + unfold decision, isinstance, whitelist_weight_modules.
      change (endswith "weight" "bias") with false.
      change (endswith "weight" "weight") with true. simpl.
      by rewrite bool_decide_eq_true_2 by (rewrite Hk; by left).
Qed.

Lemma decay_is_linear_weights_witness :
  DeltaGPT_init (mkConfig 10 4 1 2 8 (1/10) true)
  = Ok (model_of (mkConfig 10 4 1 2 8 (1/10) true)) /\
  forall x,
    x ∈ (separate (model_of (mkConfig 10 4 1 2 8 (1/10) true))).1 <->
    exists mn m shape,
      (mn, m) ∈ named_modules "" (model_of (mkConfig 10 4 1 2 8 (1/10) true))
      /\ kind_of m = Linear /\
      ("weight", shape) ∈ own_params m /\ x = join mn "weight".
Proof.
  assert (H : DeltaGPT_init (mkConfig 10 4 1 2 8 (1/10) true)
              = Ok (model_of (mkConfig 10 4 1 2 8 (1/10) true))).
  { apply DeltaGPT_init_ok.
    - unfold sizes_valid. simpl. repeat split; (lia || lra).
    - left. unfold heads_divide. simpl. split; [lia|reflexivity]. }
  split; [exact H|].
  exact (decay_is_linear_weights _ _ H).
Defined.

End Parameters.

(** ** The size presets and the effective batch size *)

Module Presets.
Import Exn Model Optim Trainer.
Local Open Scope Z_scope.

(** The model configuration that [train()] and [main()] build for
    [--model_size]; the other fields are the defaults of the dataclass. *)
Definition model_config_of (model_size : string) : ModelConfig :=
  if String.eqb model_size "small" then
    mkConfig 10000 256 6 8 384 (1/10) false
  else if String.eqb model_size "medium" then
    mkConfig 10000 256 8 12 512 (1/10) false
  else
    mkConfig 10000 256 12 16 768 (1/10) false.

(** The product logged as "Effective batch size". *)
Definition effective_batch_size (batch_size : Z) (d : Distributed)
  (tc : TrainingConfig) : Z :=
  batch_size * world_size d * gradient_accumulation_steps tc.

Lemma preset_sizes_valid model_size : sizes_valid (model_config_of model_size).
Proof.
  unfold model_config_of, sizes_valid.
  repeat case_match; simpl; repeat split; (lia || lra).
Qed.

Lemma medium_assert_fails :
  DeltaGPT_init (model_config_of "medium") = Raise AssertionError.
Proof.
  unfold DeltaGPT_init.
  rewrite !nn_Embedding_ok, nn_Dropout_ok by (simpl; (lia || lra)).
  change (n_layer (model_config_of "medium")) with 8.
  change (Z.to_nat 8) with 8%nat. cbn [repeat_init].
  unfold Block_init. rewrite nn_LayerNorm_ok by (simpl; lia).
  reflexivity.
Qed.

Lemma preset_builds (model_size : string) :
  model_size <> "medium" ->
  DeltaGPT_init (model_config_of model_size)
  = Ok (model_of (model_config_of model_size)).
Proof.
  intros Hne. apply DeltaGPT_init_ok; [apply preset_sizes_valid|].
  left. unfold model_config_of, heads_divide.
  destruct (String.eqb_spec model_size "small"); [by simpl|].
  destruct (String.eqb_spec model_size "medium"); [done|by simpl].
Qed.

(** X8. Of the three size presets, "small" and "large" build, and "medium"
    raises AssertionError: its width 512 is not divisible by its 12 heads.
    A trainer for the medium preset is never constructed. *)
Lemma medium_preset_fails (model_size : string) :
  (model_size = "medium" ->
     DeltaGPT_init (model_config_of model_size) = Raise AssertionError) /\
  (model_size <> "medium" ->
     DeltaGPT_init (model_config_of model_size)
     = Ok (model_of (model_config_of model_size))) /\
  (forall tc launch loaded w store,
     raises (init (model_config_of "medium") tc launch loaded w store)).
Proof.
  split; [|split].
  - intros ->. apply medium_assert_fails.
  - apply preset_builds.
  - intros tc launch loaded w store. unfold init.
    destruct (setup_distributed launch tc) as [[d tc']|e]; [|exact I].
    simpl. destruct (setup_datasets loaded) as [ds|e]; [|exact I].
    simpl. unfold setup_model_and_optimizer.
    rewrite medium_assert_fails. exact I.
Qed.

(** X9. With a rank in the environment, world size [W >= 1] and [a >= 1]
    configured accumulation steps, the effective batch size after
    [setup_distributed] is [batch_size * a] when [W] divides [a]; it falls
    short of it by less than [batch_size * W] when [W <= a]; and it is
    [batch_size * W], more than configured, when [a < W]. *)
Lemma effective_batch_size_rescaled (launch : Launch) (tc : TrainingConfig)
  (r batch_size : Z) :
  environ launch !! "RANK" = Some r -> 1 <= group_world_size launch ->
  1 <= gradient_accumulation_steps tc -> 0 <= batch_size ->
  exists d tc',
    setup_distributed launch tc = Ok (d, tc') /\
    (gradient_accumulation_steps tc `mod` group_world_size launch = 0 ->
       effective_batch_size batch_size d tc'
       = batch_size * gradient_accumulation_steps tc) /\
    (group_world_size launch <= gradient_accumulation_steps tc ->
       batch_size * (gradient_accumulation_steps tc
                     - group_world_size launch + 1)
       <= effective_batch_size batch_size d tc'
       <= batch_size * gradient_accumulation_steps tc) /\
    (gradient_accumulation_steps tc < group_world_size launch ->
       effective_batch_size batch_size d tc'
       = batch_size * group_world_size launch).
Proof.
  intros Hr HW Ha Hb. unfold setup_distributed. rewrite Hr.
  rewrite decide_False by lia.
  set (W := group_world_size launch) in *.
  set (a := gradient_accumulation_steps tc) in *.
  eexists _, _. split; [reflexivity|].
  unfold effective_batch_size. simpl. fold a.
  pose proof (Z.div_mod a W ltac:(lia)) as Hdm.
  pose proof (Z.mod_pos_bound a W ltac:(lia)) as Hmod.
  split; [|split].
  - intros H0. case_decide; [nia|]. nia.
  - intros Hle. assert (1 <= a `div` W) by (apply Z.div_le_lower_bound; lia).
    rewrite decide_False by lia. nia.
  - intros Hlt. rewrite Z.div_small by lia. rewrite decide_True by lia. lia.
Qed.

Lemma effective_batch_size_rescaled_witness :
  exists d tc',
    setup_distributed (mkLaunch {[ "RANK" := 0 ]} 0 4)
      (mkTrain 6 20 "scratch" None) = Ok (d, tc') /\
    effective_batch_size 32 d tc' = 128 /\ 32 * 6 = 192.
Proof.
  destruct (effective_batch_size_rescaled (mkLaunch {[ "RANK" := 0 ]} 0 4)
              (mkTrain 6 20 "scratch" None) 0 32)
    as (d & tc' & Hs & _ & Hle & _).
  - reflexivity.
  - simpl. lia.
  - simpl. lia.
  - lia.
  - exists d, tc'. split; [exact Hs|]. split; [|reflexivity].
    injection Hs as <- <-. reflexivity.
Defined.

End Presets.

(** ** Saving and resuming checkpoints *)

Module Checkpoints.
Import Exn Model Optim Trainer.
Local Open Scope Z_scope.

(** [os.path.join(dir, name)] for a [name] that is not absolute. *)
Definition path_join (dir name : string) : string :=
  if String.eqb dir "" then name
  else if endswith dir "/" then dir +:+ name
  else dir +:+ "/" +:+ name.

Section Save.

(** [str(self.iter_num)], as the f-string of the checkpoint path formats
    it. *)
Variable py_str : pyobj -> string.

(** [self.train_config.output_dir] *)
Variable output_dir : string.

(** [self.optimizer.state_dict()] *)
Variable optimizer_state : pyobj.





End Save.





(** X11. Resuming at setup from a checkpoint that holds optimizer state, as
    every checkpoint that [save_checkpoint] writes does: the optimizer
    does not exist yet when [load_checkpoint] runs, so a non-distributed
    trainer also starts from iteration 0 with best loss infinity. *)
Lemma resume_at_setup_drops_counters (mc : ModelConfig) (tc : TrainingConfig)
  (d : Distributed) (w : gmap string tensor) (store : gmap string file)
  (trainer : t) (path : string) (c : checkpoint) :
  setup_model_and_optimizer mc tc d w store = Ok trainer ->
  init_from tc = "resume" -> resume_checkpoint tc = Some path ->
  path <> "" -> store !! path = Some (PickledDict c) ->
  is_Some (ck_optimizer c) -> distributed d = false ->
  iter_num (resume trainer) = Some (PyInt 0) /\
  best_val_loss (resume trainer) = Some (PyFloat Inf).
Proof.
  unfold setup_model_and_optimizer. intros H Hfrom Hpath Hne Hfile Hopt Hd.
  rewrite Hfrom, Hpath in H. simpl in H.
  apply String.eqb_neq in Hne. rewrite Hne in H. simpl in H.
  apply bind_Ok in H as (m & _ & H).
  apply bind_Ok in H as (u & _ & H).
  apply bind_Ok in H as (o & _ & H).
  injection H as <-. simpl.
  set (self := mkSelf _ _ _ _ _).
  set (s := mkResume w None None []).
  assert (Hraise : raises (load_body self store (entered self s)).1).
  { unfold load_body, mbind, M_bind, lift, torch_load. simpl.
    rewrite Hfile, Hd. simpl.
    destruct (ck_model c) as [[]|]; simpl; try done.
    destruct (load_state_dict _ _); simpl; [|done].
    by rewrite bool_decide_eq_true_2. }
  destruct (load_body self store (entered self s)) as [[[]|e] s1] eqn:Hbody;
    [done|].
  by rewrite (load_checkpoint_raised _ _ _ _ _ Hbody), load_failed_eq.
Qed.

Lemma resume_at_setup_drops_counters_witness :
  exists trainer,
    setup_model_and_optimizer (mkConfig 10 4 1 2 8 (1/10) true)
      (mkTrain 4 20 "resume" (Some "ckpt.pt")) (mkDist 0 0 1 true false) ∅
      {[ "ckpt.pt" :=
           PickledDict (mkCheckpoint (Some (PyStateDict ∅)) (Some PyOpaque)
                          (Some (PyInt 500)) (Some (PyFloat (Finite 2)))) ]}
    = Ok trainer /\
    iter_num (resume trainer) = Some (PyInt 0) /\
    best_val_loss (resume trainer) = Some (PyFloat Inf).
Proof.
  assert (Hret : exists trainer,
    setup_model_and_optimizer (mkConfig 10 4 1 2 8 (1/10) true)
      (mkTrain 4 20 "resume" (Some "ckpt.pt")) (mkDist 0 0 1 true false) ∅
      {[ "ckpt.pt" :=
           PickledDict (mkCheckpoint (Some (PyStateDict ∅)) (Some PyOpaque)
                          (Some (PyInt 500)) (Some (PyFloat (Finite 2)))) ]}
    = Ok trainer).
  { unfold setup_model_and_optimizer. rewrite DeltaGPT_init_ok.
    - simpl. rewrite configure_optimizers_one_layer. simpl.
      eexists. reflexivity.
    - unfold sizes_valid. simpl. repeat split; (lia || lra).
    - left. unfold heads_divide. simpl. split; [lia|reflexivity]. }
  destruct Hret as [trainer Hret]. exists trainer. split; [exact Hret|].
  apply (resume_at_setup_drops_counters _ _ _ _ _ _ "ckpt.pt"
           (mkCheckpoint (Some (PyStateDict ∅)) (Some PyOpaque)
              (Some (PyInt 500)) (Some (PyFloat (Finite 2)))) Hret);
    try reflexivity.
  - discriminate.
  - by eexists.
Defined.


End Checkpoints.

(** ** The loop of the distributed trainer *)

Module TrainerLoop.
Import Exn Model Optim Trainer.
Local Open Scope Z_scope.

(** The fields of the dataclass [TrainingConfig] of train.py. *)
Definition TrainingConfig_fields : list string :=
  ["learning_rate"; "weight_decay"; "beta1"; "beta2"; "device"; "dtype";
   "compile"; "batch_size"; "max_iters"; "lr_decay_iters"; "min_lr";
   "warmup_iters"; "grad_clip"; "gradient_accumulation_steps";
   "eval_interval"; "eval_iters"; "log_interval"; "output_dir"; "run_name";
   "seed"; "init_from"; "resume_checkpoint"].

(** [self.train_config.<name>]: an instance of the dataclass has its
    fields as attributes and no others. *)
Definition getattr_train_config (name : string) : result unit :=
  if bool_decide (name ∈ TrainingConfig_fields) then Ok tt
  else Raise AttributeError.

(** [range(start, stop)] *)
Definition range (start stop : Z) : list Z := seqZ start (stop - start).

Section Train.

(** [self.train_config.max_iters] *)
Variable max_iters : Z.

(** What fetching the batch of an iteration does, the restart of the
    loader after [StopIteration] included. *)
Variable next_batch : Z -> result unit.

(** The iteration from the test of [decay_lr] on: the forward and
    backward pass, the optimizer step, logging, validation and the regular
    checkpoint. *)
Variable rest_of_iteration : Z -> Resume -> result Resume.

(** What follows the loop: the final checkpoint, the converter script and
    the clean up. *)
Variable after_loop : Resume -> result Resume.

(** The body of the loop of [Trainer.train] up to the test of
    [self.train_config.decay_lr]. *)
Definition iteration (iter_num : Z) (s : Resume) : result Resume :=
  let s := mkResume (weights s) (Some (PyInt iter_num)) (best_val_loss s)
             (log s) in
  _ ← next_batch iter_num;
  _ ← getattr_train_config "learning_rate";
  _ ← getattr_train_config "decay_lr";
  rest_of_iteration iter_num s.

Fixpoint loop (iters : list Z) (s : Resume) : result Resume :=
  match iters with
  | [] => Ok s
  | iter_num :: iters => s ← iteration iter_num s; loop iters s
  end.

(** [Trainer.train] *)
Definition train (self : Self) (s : Resume) : result Resume :=
  let s := if self_is_main_process self
           then mkResume (weights s) (iter_num s) (best_val_loss s)
                  (log s ++ [LogInfo "Starting training..."])
           else s in
  start ← match iter_num s with
          | Some (PyInt i) => Ok i
          | Some _ => Raise TypeError
          | None => Raise AttributeError
          end;
  s ← loop (range start max_iters) s;
  after_loop s.

End Train.

(** X12. [Trainer.train] never completes an iteration: when the iteration
    counter is below [max_iters], the call raises, and when the first
    batch is fetched the exception is the AttributeError of
    [self.train_config.decay_lr], a field that [TrainingConfig] does not
    have. Nothing after that test is reached. *)
Lemma train_fails_in_first_iteration (max_iters : Z)
  (next_batch : Z -> result unit)
  (rest_of_iteration : Z -> Resume -> result Resume)
  (after_loop : Resume -> result Resume) (self : Self) (s : Resume) (i : Z) :
  iter_num s = Some (PyInt i) -> i < max_iters ->
  raises (train max_iters next_batch rest_of_iteration after_loop self s) /\
  (next_batch i = Ok tt ->
     train max_iters next_batch rest_of_iteration after_loop self s
     = Raise AttributeError).
Proof.
  intros Hit Hlt. unfold train.
  assert (Hstart : iter_num (if self_is_main_process self
                             then mkResume (weights s) (iter_num s)
                                    (best_val_loss s)
                                    (log s ++ [LogInfo "Starting training..."])
                             else s) = Some (PyInt i))
    by (by destruct (self_is_main_process self)).
  rewrite Hstart. simpl.
  unfold range. rewrite (seqZ_cons i (max_iters - i)) by lia.
  cbn [loop]. unfold iteration.
  destruct (next_batch i) as [[]|e]; simpl.
  - split; [exact I|done].
  - split; [exact I|done].
Qed.

Lemma train_fails_in_first_iteration_witness :
  raises (train 30000 (fun _ => Ok tt) (fun _ s => Ok s) (fun s => Ok s)
            (mkSelf "" true false (Bare (NN DeltaGPT [] [])) true)
            (mkResume ∅ (Some (PyInt 0)) (Some (PyFloat Inf)) [])) /\
  ((fun _ : Z => Ok tt) 0 = Ok tt ->
   train 30000 (fun _ => Ok tt) (fun _ s => Ok s) (fun s => Ok s)
     (mkSelf "" true false (Bare (NN DeltaGPT [] [])) true)
     (mkResume ∅ (Some (PyInt 0)) (Some (PyFloat Inf)) [])
   = Raise AttributeError).
Proof.
  exact (train_fails_in_first_iteration 30000 (fun _ => Ok tt)
           (fun _ s => Ok s) (fun s => Ok s)
           (mkSelf "" true false (Bare (NN DeltaGPT [] [])) true)
           (mkResume ∅ (Some (PyInt 0)) (Some (PyFloat Inf)) []) 0
           eq_refl ltac:(lia)).
Defined.

End TrainerLoop.

(** ** The training loop of train.py *)

Module TrainScript.
Import Exn Model Optim Trainer Presets Checkpoints.
Local Open Scope Z_scope.

(** [a % b] on Python integers. *)
Definition py_mod (a b : Z) : result Z :=
  if decide (b = 0) then Raise ZeroDivisionError else Ok (a `mod` b).

(** [sum(val_losses) / len(val_losses)] *)
Definition mean (val_losses : list R) : result R :=
  match val_losses with
  | [] => Raise ZeroDivisionError
  | _ :: _ => Ok (Logits.sumR val_losses / INR (length val_losses))%R
  end.

(** [avg_val_loss < best_val_loss] *)
Definition improves (avg_val_loss : R) (best_val_loss : pyfloat) : bool :=
  match best_val_loss with
  | Inf => true
  | Finite b => bool_decide (avg_val_loss < b)%R
  end.

(** The entries of a checkpoint that tell where training stood. *)
Record saved : Type := mkSaved {
  saved_iter_num : Z;
  saved_best_val_loss : pyfloat
}.

(** What the loop of [train()] changes: the calls of [optimizer.step()]
    and [lr_scheduler.step()] so far, the best validation loss, the
    checkpoint files, and for every logged iteration the scheduler step
    whose learning rate was logged. *)
Record run : Type := mkRun {
  optimizer_steps : Z;
  scheduler_steps : Z;
  best : pyfloat;
  files : gmap string saved;
  logged : list (Z * Z)
}.

Definition start (files : gmap string saved) : run :=
  mkRun 0 0 Inf files [].

Section Train.

(** The fields of [train_config] that the loop reads. *)
Variable max_iters gradient_accumulation_steps : Z.
Variable log_interval eval_interval eval_iters : Z.
Variable output_dir : string.

(** What fetching the batch of an iteration does, the restart of the
    loader after [StopIteration] included. *)
Variable next_batch : Z -> result unit.

(** The loss of the model on each batch of the validation loader, when
    evaluated in the given iteration. *)
Variable val_batch_losses : Z -> list R.

Definition checkpoint_file (iter_num : Z) : string :=
  path_join output_dir ("checkpoint_" +:+ pretty iter_num +:+ ".pt").
Definition latest_file : string := path_join output_dir "checkpoint_latest.pt".
Definition final_file : string := path_join output_dir "checkpoint_final.pt".

(** The validation block of an iteration. *)
Definition validate (iter_num : Z) (st : run) : result run :=
  let val_losses := collect_losses eval_iters (val_batch_losses iter_num) in
  avg_val_loss ← mean val_losses;
  if improves avg_val_loss (best st) then
    let checkpoint := mkSaved iter_num (Finite avg_val_loss) in
    Ok (mkRun (optimizer_steps st) (scheduler_steps st) (Finite avg_val_loss)
          (<[latest_file := checkpoint]>
             (<[checkpoint_file iter_num := checkpoint]> (files st)))
          (logged st))
  else Ok st.

(** The body of the training loop. *)
Definition iteration (iter_num : Z) (st : run) : result run :=
  _ ← next_batch iter_num;
  r ← py_mod (iter_num + 1) gradient_accumulation_steps;
  let st := if decide (r = 0)
            then mkRun (optimizer_steps st + 1) (scheduler_steps st + 1)
                   (best st) (files st) (logged st)
            else st in
  r ← py_mod iter_num log_interval;
  let st := if decide (r = 0)
            then mkRun (optimizer_steps st) (scheduler_steps st) (best st)
                   (files st) (logged st ++ [(iter_num, scheduler_steps st)])
            else st in
  r ← py_mod iter_num eval_interval;
  if decide (r = 0) then validate iter_num st else Ok st.

(** [for iter_num in range(...)], from [iter_num] for [n] iterations. *)
Fixpoint loop (n : nat) (iter_num : Z) (st : run) : result run :=
  match n with
  | O => Ok st
  | S n' => st ← iteration iter_num st; loop n' (iter_num + 1) st
  end.

(** The final checkpoint. *)
Definition save_final (st : run) : run :=
  mkRun (optimizer_steps st) (scheduler_steps st) (best st)
    (<[final_file := mkSaved max_iters (best st)]> (files st)) (logged st).

(** [train()] from the loading of the datasets on: [None] when the
    datasets could not be loaded and the function returned early. *)
Definition train (model_size : string) (loaded : result unit)
  (files : gmap string saved) : result (option run) :=
  match loaded with
  | Raise e => if is_Exception e then Ok None else Raise e
  | Ok _ =>
      model ← DeltaGPT_init (model_config_of model_size);
      _ ← configure_optimizers model;
      st ← loop (Z.to_nat max_iters) 0 (start files);
      Ok (Some (save_final st))
  end.

(** The average validation loss of an iteration. *)
Definition avg_at (iter_num : Z) : R :=
  let val_losses := collect_losses eval_iters (val_batch_losses iter_num) in
  (Logits.sumR val_losses / INR (length val_losses))%R.

(** The iterations that run the validation. *)
Definition evaluated (iter_num : Z) : Prop :=
  0 <= iter_num < max_iters /\ iter_num `mod` eval_interval = 0.


(** *** One iteration *)

Lemma div_succ (g i : Z) :
  1 <= g -> 0 <= i ->
  (i + 1) `div` g = i `div` g + (if decide ((i + 1) `mod` g = 0) then 1 else 0).
Proof.
  intros Hg Hi.
  pose proof (Z.div_mod i g ltac:(lia)) as Hdm.
  pose proof (Z.mod_pos_bound i g ltac:(lia)) as Hr.
  destruct (decide (i `mod` g + 1 = g)) as [Heq|Hne].
  - assert (Hm : (i + 1) `mod` g = 0).
    { symmetry. apply (Z.mod_unique _ _ (i `div` g + 1)); lia. }
    rewrite decide_True by done.
    symmetry. apply (Z.div_unique _ _ _ 0); lia.
  - assert (Hm : (i + 1) `mod` g = i `mod` g + 1).
    { symmetry. apply (Z.mod_unique _ _ (i `div` g)); lia. }
    rewrite decide_False by lia.
    symmetry. apply (Z.div_unique _ _ _ (i `mod` g + 1)); lia.
Qed.

Lemma mean_avg_at (iter_num : Z) :
  collect_losses eval_iters (val_batch_losses iter_num) <> [] ->
  mean (collect_losses eval_iters (val_batch_losses iter_num))
  = Ok (avg_at iter_num).
Proof. unfold mean, avg_at. by destruct (collect_losses _ _). Qed.

(** What an iteration that meets no error does to the state. *)
Lemma iteration_spec (iter_num : Z) (st : run) :
  next_batch iter_num = Ok tt ->
  gradient_accumulation_steps <> 0 -> log_interval <> 0 ->
  eval_interval <> 0 ->
  (iter_num `mod` eval_interval = 0 ->
   collect_losses eval_iters (val_batch_losses iter_num) <> []) ->
  exists st',
    iteration iter_num st = Ok st' /\
    optimizer_steps st'
    = optimizer_steps st
      + (if decide ((iter_num + 1) `mod` gradient_accumulation_steps = 0)
         then 1 else 0) /\
    scheduler_steps st' = optimizer_steps st' - optimizer_steps st
                          + scheduler_steps st /\
    logged st'
    = logged st ++ (if decide (iter_num `mod` log_interval = 0)
                    then [(iter_num, scheduler_steps st')] else []) /\
    (if decide (iter_num `mod` eval_interval = 0)
     then if improves (avg_at iter_num) (best st)
          then best st' = Finite (avg_at iter_num) /\
               files st' !! latest_file
               = Some (mkSaved iter_num (Finite (avg_at iter_num)))
          else best st' = best st /\ files st' = files st
     else best st' = best st /\ files st' = files st).
Proof.
  intros Hnext Hg Hl He Hval. unfold iteration, py_mod. rewrite Hnext.
  rewrite !decide_False by done. simpl.
  destruct (decide (iter_num `mod` eval_interval = 0)) as [Hev|Hev].
  - unfold validate. rewrite (mean_avg_at iter_num (Hval Hev)). simpl.
    destruct (decide ((iter_num + 1) `mod` gradient_accumulation_steps = 0));
      destruct (decide (iter_num `mod` log_interval = 0)); simpl;
      destruct (improves (avg_at iter_num) (best st)); simpl;
      eexists; (split; [reflexivity|]); simpl;
      rewrite ?lookup_insert_eq, ?app_nil_r;
      repeat split; lia.
  - destruct (decide ((iter_num + 1) `mod` gradient_accumulation_steps = 0));
      destruct (decide (iter_num `mod` log_interval = 0)); simpl;
      eexists; (split; [reflexivity|]); simpl; rewrite ?app_nil_r;
      repeat split; lia.
Qed.

(** *** The loop *)

(** [a <= b] for a loss [a] and a best loss [b] that may be infinite. *)
Definition at_most (b : pyfloat) (a : R) : Prop :=
  match b with
  | Inf => False
  | Finite b => (b <= a)%R
  end.

(** What holds before iteration [i]. *)
Definition invariant (files0 : gmap string saved) (i : Z) (st : run) : Prop :=
  optimizer_steps st = i `div` gradient_accumulation_steps /\
  scheduler_steps st = i `div` gradient_accumulation_steps /\
  Forall (fun p => 0 <= p.1 < i /\
                   p.2 = (p.1 + 1) `div` gradient_accumulation_steps)
    (logged st) /\
  (forall j, 0 <= j < i -> j `mod` eval_interval = 0 ->
             at_most (best st) (avg_at j)) /\
  match best st with
  | Inf => i = 0 /\ files st = files0
  | Finite b =>
      exists j, 0 <= j < i /\ j `mod` eval_interval = 0 /\
                b = avg_at j /\
                files st !! latest_file = Some (mkSaved j (Finite b)) /\
                forall k, 0 <= k < j -> k `mod` eval_interval = 0 ->
                          (avg_at j < avg_at k)%R
  end.

Hypothesis accumulation_positive : 1 <= gradient_accumulation_steps.
Hypothesis log_interval_nonzero : log_interval <> 0.
Hypothesis eval_interval_nonzero : eval_interval <> 0.
Hypothesis batches_arrive :
  forall i, 0 <= i < max_iters -> next_batch i = Ok tt.
Hypothesis validation_nonempty :
  forall i, evaluated i ->
            collect_losses eval_iters (val_batch_losses i) <> [].

Lemma iteration_keeps_invariant files0 (i : Z) (st : run) :
  0 <= i < max_iters -> invariant files0 i st ->
  exists st', iteration i st = Ok st' /\ invariant files0 (i + 1) st'.
Proof.
  intros Hi (Hopt & Hsch & Hlog & Hmin & Hbest).
  destruct (iteration_spec i st (batches_arrive i Hi) ltac:(lia)
              log_interval_nonzero eval_interval_nonzero)
    as (st' & Hrun & Hopt' & Hsch' & Hlog' & Hval).
  { intros Hev. by apply validation_nonempty. }
  exists st'. split; [done|].
  pose proof (div_succ gradient_accumulation_steps i accumulation_positive
                ltac:(lia)) as Hdiv.
  assert (Hopt1 : optimizer_steps st'
                  = (i + 1) `div` gradient_accumulation_steps) by lia.
  assert (Hsch1 : scheduler_steps st'
                  = (i + 1) `div` gradient_accumulation_steps) by lia.
  split; [done|]. split; [done|]. split.
  { rewrite Hlog'. apply Forall_app. split.
    - eapply Forall_impl; [exact Hlog|]. simpl. intros p [H1 H2].
      split; [lia|done].
    - destruct (decide (i `mod` log_interval = 0)); [|constructor].
      constructor; [|constructor]. simpl. split; [lia|done]. }
  destruct (decide (i `mod` eval_interval = 0)) as [Hev|Hev].
  - destruct (improves (avg_at i) (best st)) eqn:Himp.
    + destruct Hval as [Hb' Hf']. rewrite Hb'. split.
      * intros j Hj Hjev. simpl.
        destruct (decide (j = i)) as [->|Hne]; [lra|].
        specialize (Hmin j ltac:(lia) Hjev).
        destruct (best st) as [b|]; [|done]. simpl in *.
        apply bool_decide_eq_true in Himp. lra.
      * exists i. split; [lia|]. split; [done|]. split; [done|].
        split; [done|]. intros k Hk Hkev.
        specialize (Hmin k ltac:(lia) Hkev).
        destruct (best st) as [b|]; [|done]. simpl in *.
        apply bool_decide_eq_true in Himp. lra.
    + destruct Hval as [Hb' Hf']. rewrite Hb', Hf'.
      destruct (best st) as [b|] eqn:Hb; [|done]. simpl in Himp.
      apply bool_decide_eq_false in Himp. split.
      * intros j Hj Hjev. simpl.
        destruct (decide (j = i)) as [->|Hne]; [lra|].
        apply (Hmin j ltac:(lia) Hjev).
      * destruct Hbest as (j & Hj & Hbest). exists j. split; [lia|done].
  - destruct Hval as [Hb' Hf']. rewrite Hb', Hf'. split.
    + intros j Hj Hjev. destruct (decide (j = i)) as [->|Hne]; [done|].
      apply (Hmin j ltac:(lia) Hjev).
    + destruct (best st) as [b|].
      * destruct Hbest as (j & Hj & Hbest). exists j. split; [lia|done].
      * destruct Hbest as [-> _]. exfalso. apply Hev. apply Z.mod_0_l.
        done.
Qed.

Lemma loop_keeps_invariant files0 (n : nat) :
  forall i st,
    0 <= i -> i + Z.of_nat n <= Z.max 0 max_iters -> invariant files0 i st ->
    exists st', loop n i st = Ok st' /\ invariant files0 (i + Z.of_nat n) st'.
Proof.
  induction n as [|n IH]; intros i st Hi Hn Hinv.
  - exists st. split; [done|]. by rewrite Z.add_0_r.
  - destruct (iteration_keeps_invariant files0 i st ltac:(lia) Hinv)
      as (st1 & Hrun & Hinv1).
    destruct (IH (i + 1) st1 ltac:(lia) ltac:(lia) Hinv1)
      as (st' & Hloop & Hinv').
    exists st'. split.
    + cbn [loop]. rewrite Hrun. exact Hloop.
    + by replace (i + Z.of_nat (S n)) with (i + 1 + Z.of_nat n) by lia.
Qed.

Lemma start_invariant files0 : invariant files0 0 (start files0).
Proof.
  unfold invariant, start. simpl. rewrite Z.div_0_l by lia.
  repeat split; try done. intros j Hj. lia.
Qed.


Lemma configure_optimizers_model_of (config : ModelConfig) :
  returns (configure_optimizers (model_of config)).
Proof.
  apply configure_optimizers_returns_iff. split.
  - by apply separate_disjoint; [apply model_of_ok|].
  - apply separate_covers, model_of_ok.
Qed.

Lemma string_app_inv_head (a b c : string) : a +:+ b = a +:+ c -> b = c.
Proof.
  induction a as [|x a IH]; simpl; [done|]. intros [= H]. by apply IH.
Qed.

Lemma path_join_inj (dir a b : string) :
  path_join dir a = path_join dir b -> a = b.
Proof.
  unfold path_join. destruct (String.eqb dir ""); [done|].
  destruct (endswith dir "/"); intros H.
  - by apply string_app_inv_head in H.
  - by do 2 apply string_app_inv_head in H.
Qed.

(** The run that [train()] returns when nothing fails. *)
Lemma train_returns (model_size : string) (files0 : gmap string saved) :
  model_size <> "medium" ->
  exists st,
    train model_size (Ok tt) files0 = Ok (Some (save_final st)) /\
    invariant files0 (Z.max 0 max_iters) st.
Proof.
  intros Hsize.
  destruct (loop_keeps_invariant files0 (Z.to_nat max_iters) 0
              (start files0) ltac:(lia) ltac:(lia) (start_invariant files0))
    as (st & Hloop & Hinv).
  exists st. split.
  - unfold train. rewrite (preset_builds model_size Hsize). simpl.
    pose proof (configure_optimizers_model_of (model_config_of model_size))
      as Hopt.
    destruct (configure_optimizers _); [|done]. simpl. by rewrite Hloop.
  - by replace (Z.max 0 max_iters) with (0 + Z.of_nat (Z.to_nat max_iters))
      by lia.
Qed.

(** X13. When nothing fails, [train()] calls [optimizer.step()] and
    [lr_scheduler.step()] once per [gradient_accumulation_steps]
    iterations, [max_iters // gradient_accumulation_steps] times in all;
    the learning rate logged in iteration [i] is that of schedule step
    [(i + 1) // gradient_accumulation_steps]; and the final checkpoint
    records [max_iters] and the best validation loss. *)
Lemma train_steps_per_accumulation (model_size : string)
  (files0 : gmap string saved) :
  model_size <> "medium" ->
  exists st,
    train model_size (Ok tt) files0 = Ok (Some st) /\
    optimizer_steps st = Z.max 0 max_iters `div` gradient_accumulation_steps /\
    scheduler_steps st = Z.max 0 max_iters `div` gradient_accumulation_steps /\
    (forall i k, (i, k) ∈ logged st ->
                 0 <= i < max_iters /\
                 k = (i + 1) `div` gradient_accumulation_steps) /\
    files st !! final_file = Some (mkSaved max_iters (best st)).
Proof.
  intros Hsize.
  destruct (train_returns model_size files0 Hsize)
    as (st & Hrun & Hopt & Hsch & Hlog & _).
  exists (save_final st). split; [done|]. simpl.
  split; [done|]. split; [done|]. split.
  - intros i k Hin. rewrite list.Forall_forall in Hlog.
    destruct (Hlog _ Hin) as [H1 H2]. simpl in *. split; [lia|done].
  - by rewrite lookup_insert_eq.
Qed.

(** X14. When nothing fails and at least one iteration runs, the best
    validation loss that [train()] ends with is the smallest average over
    the iterations that validated, and [checkpoint_latest.pt] was written
    in the first iteration that reached it. *)
Lemma train_keeps_best (model_size : string) (files0 : gmap string saved) :
  model_size <> "medium" -> 1 <= max_iters ->
  exists st j,
    train model_size (Ok tt) files0 = Ok (Some st) /\
    evaluated j /\
    best st = Finite (avg_at j) /\
    (forall k, evaluated k -> (avg_at j <= avg_at k)%R) /\
    (forall k, evaluated k -> k < j -> (avg_at j < avg_at k)%R) /\
    files st !! latest_file = Some (mkSaved j (Finite (avg_at j))).
Proof.
  intros Hsize Hmax.
  destruct (train_returns model_size files0 Hsize)
    as (st & Hrun & _ & _ & _ & Hmin & Hbest).
  rewrite Z.max_r in Hmin, Hbest by lia.
  destruct (best st) as [b|] eqn:Hb; [|lia].
  destruct Hbest as (j & Hj & Hjev & -> & Hlatest & Hfirst).
  exists (save_final st), j. split; [done|]. simpl.
  split; [done|]. split; [done|]. split; [|split].
  - intros k [Hk Hkev]. apply (Hmin k Hk Hkev).
  - intros k [Hk Hkev] Hlt. apply Hfirst; [lia|done].
  - rewrite lookup_insert_ne; [done|].
    unfold final_file, latest_file. intros H.
    apply path_join_inj in H. discriminate H.
Qed.

End Train.

(** X15. With a validation loader that yields no batch, or with
    [eval_iters <= 0], [train()] raises ZeroDivisionError in its first
    iteration, whatever the intervals are: iteration 0 always validates,
    and the average divides by the number of losses. *)
Lemma train_empty_validation (max_iters gradient_accumulation_steps : Z)
  (log_interval eval_interval eval_iters : Z) (output_dir : string)
  (next_batch : Z -> result unit) (val_batch_losses : Z -> list R)
  (model_size : string) (files0 : gmap string saved) :
  model_size <> "medium" -> 1 <= max_iters -> next_batch 0 = Ok tt ->
  collect_losses eval_iters (val_batch_losses 0) = [] ->
  train max_iters gradient_accumulation_steps log_interval eval_interval
    eval_iters output_dir next_batch val_batch_losses model_size (Ok tt)
    files0
  = Raise ZeroDivisionError.
Proof.
  intros Hsize Hmax Hnext Hval. unfold train.
  rewrite (preset_builds model_size Hsize). simpl.
  pose proof (configure_optimizers_model_of (model_config_of model_size))
    as Hopt.
  destruct (configure_optimizers _); [|done]. simpl.
  destruct (Z.to_nat max_iters) as [|n] eqn:Hn; [lia|].
  cbn [loop]. unfold iteration, py_mod. rewrite Hnext. simpl.
  destruct (decide (gradient_accumulation_steps = 0)); [done|]. simpl.
  destruct (decide (log_interval = 0)); [done|]. simpl.
  destruct (decide (eval_interval = 0)); [done|]. simpl.
  unfold validate. by rewrite Hval.
Qed.

Lemma train_empty_validation_witness :
  train 4 2 1 2 0 "out" (fun _ => Ok tt) (fun i => [IZR (10 - i)]) "small"
    (Ok tt) ∅
  = Raise ZeroDivisionError.
Proof.
  apply train_empty_validation.
  - discriminate.
  - lia.
  - reflexivity.
  - reflexivity.
Defined.

(** Four iterations with two accumulation steps, validating on one batch
    in iterations 0 and 2, with the losses 10 and 8. *)
Lemma train_steps_per_accumulation_witness :
  exists st,
    train 4 2 1 2 1 "out" (fun _ => Ok tt) (fun i => [IZR (10 - i)]) "small"
      (Ok tt) ∅ = Ok (Some st) /\
    optimizer_steps st = Z.max 0 4 `div` 2 /\
    scheduler_steps st = Z.max 0 4 `div` 2 /\
    (forall i k, (i, k) ∈ logged st -> 0 <= i < 4 /\ k = (i + 1) `div` 2) /\
    files st !! final_file "out" = Some (mkSaved 4 (best st)).
Proof.
  assert (Hval : forall i,
    evaluated 4 2 i ->
    collect_losses 1 ((fun i => [IZR (10 - i)]) i) <> []) by done.
  exact (train_steps_per_accumulation 4 2 1 2 1 "out" (fun _ => Ok tt)
           (fun i => [IZR (10 - i)]) ltac:(lia) ltac:(lia) ltac:(lia)
           (fun _ _ => eq_refl) Hval "small" ∅ ltac:(discriminate)).
Defined.

Lemma train_keeps_best_witness :
  exists st j,
    train 4 2 1 2 1 "out" (fun _ => Ok tt) (fun i => [IZR (10 - i)]) "small"
      (Ok tt) ∅ = Ok (Some st) /\
    evaluated 4 2 j /\
    best st = Finite (avg_at 1 (fun i => [IZR (10 - i)]) j) /\
    (forall k, evaluated 4 2 k ->
       (avg_at 1 (fun i => [IZR (10 - i)]) j
        <= avg_at 1 (fun i => [IZR (10 - i)]) k)%R) /\
    (forall k, evaluated 4 2 k -> k < j ->
       (avg_at 1 (fun i => [IZR (10 - i)]) j
        < avg_at 1 (fun i => [IZR (10 - i)]) k)%R) /\
    files st !! latest_file "out"
    = Some (mkSaved j (Finite (avg_at 1 (fun i => [IZR (10 - i)]) j))).
Proof.
  assert (Hval : forall i,
    evaluated 4 2 i ->
    collect_losses 1 ((fun i => [IZR (10 - i)]) i) <> []) by done.
  exact (train_keeps_best 4 2 1 2 1 "out" (fun _ => Ok tt)
           (fun i => [IZR (10 - i)]) ltac:(lia) ltac:(lia) ltac:(lia)
           (fun _ _ => eq_refl) Hval "small" ∅ ltac:(discriminate)
           ltac:(lia)).
Defined.

End TrainScript.

(** ** Loading the tokenized command files *)

Module DataFiles.
Import Exn.
Local Open Scope Z_scope.

(** *** The split of the files *)

(** [int(len(files) * 0.9)], with the product read as a real number (the
    double product has the same integer part for every length below
    2^50). *)
Definition split_point (n : Z) : Z := (9 * n) `div` 10.

(** The files of a split: [files[:k]] for "train", [files[k:]] for any
    other name. *)
Definition split_files {A} (split : string) (files : list A) : list A :=
  if String.eqb split "train"
  then Py.slice_to files (split_point (Py.len files))
  else Py.slice_from files (split_point (Py.len files)).

(** The start of [CommandDataset.__init__]: the files found by the glob,
    the check that there are some, and the split. *)
Definition select_files {A} (split : string) (files : list A)
  : result (list A) :=
  match files with
  | [] => Raise ValueError
  | _ :: _ => Ok (split_files split files)
  end.

(** *** Reading a file *)

(** [int.from_bytes(b, byteorder='little')] *)
Definition from_bytes_little (b : list Byte.byte) : Z :=
  foldr (fun x acc => Z.of_N (Byte.to_N x) + 256 * acc) 0 b.

(** The loop [for _ in range(num_entries)] on the bytes that follow the
    count: the payloads it reads before the entries or the file end. *)
Fixpoint read_entries (num_entries : nat) (rest : list Byte.byte)
  : list (list Byte.byte) :=
  match num_entries with
  | O => []
  | S n =>
      let length_bytes := take 4 rest in
      if decide (length length_bytes < 4)%nat then []
      else
        let data_length := from_bytes_little length_bytes in
        let rest := drop 4 rest in
        let json_data := take (Z.to_nat data_length) rest in
        if decide (Py.len json_data < data_length) then []
        else json_data :: read_entries n (drop (Z.to_nat data_length) rest)
  end.

(** The payloads of one file: none when the count is cut short. *)
Definition read_file (content : list Byte.byte) : list (list Byte.byte) :=
  let entries_bytes := take 4 content in
  if decide (length entries_bytes < 4)%nat then []
  else read_entries (Z.to_nat (from_bytes_little entries_bytes))
         (drop 4 content).

(** *** Decoding an entry *)

(** A value that [json.loads] returns; an object holds the items of the
    dictionary, every key once. *)
#[warnings="-register-all"]
Inductive json : Type :=
| JNull
| JBool (b : bool)
| JInt (z : Z)
| JFloat (r : R)
| JStr (s : string)
| JArr (items : list json)
| JObj (fields : list (string * json)).

(** What [json.loads] does with a payload: a value, the JSONDecodeError
    that [_load_data] catches, or another exception (a payload that is no
    valid UTF-8 raises UnicodeDecodeError). *)
Inductive decoded : Type :=
| Decoded (j : json)
| JSONDecodeError
| OtherError (e : exn).

(** An item of [self.data]. *)
Record item : Type := mkItem {
  tokens : list Z;
  command : json;
  exit_code : json
}.

(** [d.get(key, default)] on a dictionary. *)
Definition dict_get (fields : list (string * json)) (key : string)
  (default : json) : json :=
  match list_find (fun kv => kv.1 = key) fields with
  | Some (_, (_, v)) => v
  | None => default
  end.

(** [obj.get(key, default)]: only a dictionary has the method. *)
Definition get (obj : json) (key : string) (default : json) : result json :=
  match obj with
  | JObj fields => Ok (dict_get fields key default)
  | _ => Raise AttributeError
  end.

(** What [for token in obj] iterates over. *)
Definition iterate (obj : json) : result (list json) :=
  match obj with
  | JArr items => Ok items
  | JObj fields => Ok (JStr <$> fields.*1)
  | JStr s =>
      Ok ((fun c => JStr (String c EmptyString)) <$> list_ascii_of_string s)
  | _ => Raise TypeError
  end.

(** [token["text"]] *)
Definition getitem_text (token : json) : result json :=
  match token with
  | JObj fields =>
      match list_find (fun kv => kv.1 = "text") fields with
      | Some (_, (_, v)) => Ok v
      | None => Raise KeyError
      end
  | _ => Raise TypeError
  end.

Section Load.

(** [json.loads] *)
Variable json_loads : list Byte.byte -> decoded.

(** [hash] of a hashable value (that of a string differs from process to
    process). *)
Variable py_hash : json -> Z.

(** [hash(v)]: lists and dictionaries are unhashable. *)
Definition hash (v : json) : result Z :=
  match v with
  | JArr _ | JObj _ => Raise TypeError
  | _ => Ok (py_hash v)
  end.

(** [hash(token["text"]) % 10000] *)
Definition token_id (token : json) : result Z :=
  text ← getitem_text token;
  h ← hash text;
  Ok (h `mod` 10000).

(** The body of the [try] for one decoded entry: the item to append, if
    any. *)
Definition item_of (command_tokens : json) : result (option item) :=
  toks ← get command_tokens "tokens" (JArr []);
  toks ← iterate toks;
  token_ids ← mapM token_id toks;
  match token_ids with
  | [] => Ok None
  | _ :: _ =>
      cmd ← get command_tokens "command" (JStr "");
      code ← get command_tokens "exit_code" (JInt 0);
      Ok (Some (mkItem token_ids cmd code))
  end.

(** The entries of one file, in order, appended to [self.data]. *)
Fixpoint load_entries (payloads : list (list Byte.byte)) (data : list item)
  : result (list item) :=
  match payloads with
  | [] => Ok data
  | json_data :: payloads =>
      match json_loads json_data with
      | JSONDecodeError => load_entries payloads data
      | OtherError e => Raise e
      | Decoded command_tokens =>
          it ← item_of command_tokens;
          load_entries payloads
            (match it with Some it => data ++ [it] | None => data end)
      end
  end.

(** [_load_data]: the loop over the files of the split. *)
Fixpoint load_data (files : list (list Byte.byte)) (data : list item)
  : result (list item) :=
  match files with
  | [] => Ok data
  | content :: files =>
      data ← load_entries (read_file content) data;
      load_data files data
  end.

(** The items that [CommandDataset(data_dir, split, block_size)] loads,
    given the contents of the files that the glob finds. *)
Definition init (files : list (list Byte.byte)) (split : string)
  : result (list item) :=
  files ← select_files split files;
  load_data files [].

(** The dataset as [__getitem__] sees it. *)
Definition dataset_of (block_size : Z) (data : list item) : CommandDataset.t :=
  CommandDataset.mk block_size (tokens <$> data).

End Load.

(** *** The split *)

(** X16. With at least one file, the "train" files followed by the files
    of any other split are the files found: the train split holds the
    first [9 n / 10] (rounded down) of [n] files, the other split is never
    empty, and the train split is empty exactly when there is one file.
    Without files the constructor raises ValueError. *)
Lemma split_partitions_files {A} (files : list A) (split : string) :
  split <> "train" ->
  (files = [] ->
     select_files "train" files = Raise ValueError /\
     select_files split files = Raise ValueError) /\
  (files <> [] ->
     exists tr va,
       select_files "train" files = Ok tr /\
       select_files split files = Ok va /\
       tr ++ va = files /\
       Py.len tr = (9 * Py.len files) `div` 10 /\
       va <> [] /\
       (tr = [] <-> Py.len files = 1)).
Proof.
  intros Hsplit. split; [by intros ->|]. intros Hne.
  assert (Hlen : 1 <= Py.len files).
  { unfold Py.len. destruct files; [done|]. simpl. lia. }
  assert (Hk : 0 <= split_point (Py.len files) < Py.len files).
  { unfold split_point. split; [apply Z.div_pos; lia|].
    apply Z.div_lt_upper_bound; lia. }
  exists (Py.slice_to files (split_point (Py.len files))),
         (Py.slice_from files (split_point (Py.len files))).
  unfold select_files, split_files.
  apply String.eqb_neq in Hsplit. rewrite Hsplit. simpl.
  destruct files as [|f files]; [done|].
  split; [done|]. split; [done|].
  set (l := f :: files) in *. clearbody l.
  unfold Py.slice_to, Py.slice_from.
  destruct (Z.leb_spec 0 (split_point (Py.len l))); [|lia].
  split; [apply take_drop|].
  assert (Htake : Py.len (take (Z.to_nat (split_point (Py.len l))) l)
                  = split_point (Py.len l)).
  { unfold Py.len in *. rewrite length_take. lia. }
  split; [done|]. split.
  - intros Hnil. apply (f_equal length) in Hnil.
    rewrite length_drop in Hnil. unfold Py.len in *. simpl in Hnil. lia.
  - split.
    + intros Hnil. rewrite Hnil in Htake. unfold Py.len in Htake at 1.
      simpl in Htake. unfold split_point in Htake.
      destruct (decide (Py.len l = 1)) as [|Hn]; [done|].
      assert (1 <= (9 * Py.len l) `div` 10)
        by (apply Z.div_le_lower_bound; lia).
      lia.
    + intros H1. rewrite H1. by change (split_point 1) with 0.
Qed.

Lemma split_partitions_files_witness :
  ("val" <> "train") /\
  exists tr va,
    select_files "train" [1; 2; 3; 4; 5; 6; 7; 8; 9; 10; 11] = Ok tr /\
    select_files "val" [1; 2; 3; 4; 5; 6; 7; 8; 9; 10; 11] = Ok va /\
    tr ++ va = [1; 2; 3; 4; 5; 6; 7; 8; 9; 10; 11] /\
    Py.len tr = (9 * Py.len [1; 2; 3; 4; 5; 6; 7; 8; 9; 10; 11]) `div` 10 /\
    va <> [] /\
    (tr = [] <-> Py.len [1; 2; 3; 4; 5; 6; 7; 8; 9; 10; 11] = 1).
Proof.
  assert (H : "val" <> "train") by discriminate.
  split; [exact H|].
  exact (proj2 (split_partitions_files [1; 2; 3; 4; 5; 6; 7; 8; 9; 10; 11]
                  "val" H) ltac:(discriminate)).
Defined.

(** *** The token ids *)

Definition in_range (t : Z) : Prop := 0 <= t < 10000.

(** An item with at least one token, every id in range. *)
Definition well_formed (it : item) : Prop :=
  tokens it <> [] /\ Forall in_range (tokens it).

Lemma mapM_result_Forall {A B} (f : A -> result B) (P : B -> Prop)
  (l : list A) (ks : list B) :
  (forall x y, f x = Ok y -> P y) -> mapM f l = Ok ks -> Forall P ks.
Proof.
  intros Hf. revert ks. induction l as [|x l IH]; intros ks H; simpl in H.
  - injection H as <-. constructor.
  - apply bind_Ok in H as (y & Hy & H).
    apply bind_Ok in H as (k & Hk & H). injection H as <-.
    constructor; [by apply (Hf x)|by apply IH].
Qed.

Lemma token_id_in_range py_hash (token : json) (z : Z) :
  token_id py_hash token = Ok z -> in_range z.
Proof.
  unfold token_id. intros H.
  apply bind_Ok in H as (text & _ & H).
  apply bind_Ok in H as (h & _ & H). injection H as <-.
  apply Z.mod_pos_bound. lia.
Qed.

Lemma item_of_well_formed py_hash (j : json) (it : item) :
  item_of py_hash j = Ok (Some it) -> well_formed it.
Proof.
  unfold item_of. intros H.
  apply bind_Ok in H as (toks & _ & H).
  apply bind_Ok in H as (toks' & _ & H).
  apply bind_Ok in H as (ids & Hids & H).
  destruct ids as [|z ids]; [discriminate H|].
  apply bind_Ok in H as (cmd & _ & H).
  apply bind_Ok in H as (code & _ & H). injection H as <-.
  split; [done|]. simpl.
  apply (mapM_result_Forall _ _ _ _ (token_id_in_range py_hash) Hids).
Qed.

Lemma load_entries_well_formed json_loads py_hash payloads :
  forall data data',
    Forall well_formed data ->
    load_entries json_loads py_hash payloads data = Ok data' ->
    Forall well_formed data'.
Proof.
  induction payloads as [|p payloads IH]; intros data data' Hdata H;
    simpl in H.
  - by injection H as <-.
  - destruct (json_loads p) as [j| |e]; [|by apply (IH data)|discriminate H].
    apply bind_Ok in H as (it & Hit & H).
    destruct it as [it|]; [|by apply (IH data)].
    apply (IH (data ++ [it])); [|done].
    apply Forall_app. split; [done|].
    constructor; [|constructor]. by apply (item_of_well_formed py_hash j).
Qed.

Lemma load_data_well_formed json_loads py_hash files :
  forall data data',
    Forall well_formed data ->
    load_data json_loads py_hash files data = Ok data' ->
    Forall well_formed data'.
Proof.
  induction files as [|content files IH]; intros data data' Hdata H;
    simpl in H.
  - by injection H as <-.
  - apply bind_Ok in H as (data1 & H1 & H).
    apply (IH data1); [|done].
    by apply (load_entries_well_formed json_loads py_hash (read_file content)
                data).
Qed.

Lemma pad_or_truncate_in_range (bs : Z) (toks : list Z) :
  Forall in_range toks ->
  Forall in_range (CommandDataset.pad_or_truncate bs toks).
Proof.
  intros H. unfold CommandDataset.pad_or_truncate, Py.slice_to.
  repeat case_match; try done.
  - by apply Forall_take.
  - by apply Forall_take.
  - apply Forall_app. split; [done|]. apply Forall_replicate.
    unfold in_range. lia.
Qed.

(** X17. Every item that [CommandDataset] loads has at least one token
    and only token ids in [[0, 10000)], whatever [hash] returns; and so
    has every pair [(x, y)] that [__getitem__] returns, padding
    included. *)
Lemma loaded_token_ids_in_range (json_loads : list Byte.byte -> decoded)
  (py_hash : json -> Z) (files : list (list Byte.byte)) (split : string)
  (data : list item) :
  init json_loads py_hash files split = Ok data ->
  Forall (fun it => tokens it <> [] /\
                    Forall (fun t => 0 <= t < 10000) (tokens it)) data /\
  (forall block_size idx x y,
     CommandDataset.getitem (dataset_of block_size data) idx = Some (x, y) ->
     Forall (fun t => 0 <= t < 10000) x /\
     Forall (fun t => 0 <= t < 10000) y).
Proof.
  unfold init. intros H. apply bind_Ok in H as (selected & _ & H).
  pose proof (load_data_well_formed json_loads py_hash selected [] data
                ltac:(constructor) H) as Hwf.
  split; [exact Hwf|].
  intros block_size idx x y Hget.
  unfold CommandDataset.getitem, dataset_of in Hget. simpl in Hget.
  destruct (Py.index (tokens <$> data) idx) as [toks|] eqn:Hidx;
    [|discriminate Hget].
  injection Hget as <- <-.
  assert (Hin : toks ∈ tokens <$> data).
  { unfold Py.index in Hidx. repeat case_match; try discriminate Hidx;
      by apply list_elem_of_lookup_2 in Hidx. }
  apply list_elem_of_fmap in Hin as (it & -> & Hit).
  rewrite list.Forall_forall in Hwf. destruct (Hwf it Hit) as [_ Hr].
  pose proof (pad_or_truncate_in_range block_size _ Hr) as Hp.
  unfold Py.slice_to, Py.slice_from. simpl.
  split; [by apply Forall_take|by apply Forall_drop].
Qed.

(** One file with one entry; every payload decodes to an object with one
    token, and [hash] answers -7. *)
Definition one_entry_file : list Byte.byte :=
  [Byte.x01; Byte.x00; Byte.x00; Byte.x00; Byte.x02; Byte.x00; Byte.x00; Byte.x00; Byte.x7b; Byte.x7d].

Definition one_token (payload : list Byte.byte) : decoded :=
  Decoded (JObj [("tokens", JArr [JObj [("text", JStr "ls")]])]).

Lemma loaded_token_ids_in_range_witness :
  init one_token (fun _ => -7) [one_entry_file] "val"
  = Ok [mkItem [9993] (JStr "") (JInt 0)] /\
  Forall (fun it => tokens it <> [] /\
                    Forall (fun t => 0 <= t < 10000) (tokens it))
    [mkItem [9993] (JStr "") (JInt 0)] /\
  (forall block_size idx x y,
     CommandDataset.getitem
       (dataset_of block_size [mkItem [9993] (JStr "") (JInt 0)]) idx
     = Some (x, y) ->
     Forall (fun t => 0 <= t < 10000) x /\
     Forall (fun t => 0 <= t < 10000) y).
Proof.
  assert (H : init one_token (fun _ => -7) [one_entry_file] "val"
              = Ok [mkItem [9993] (JStr "") (JInt 0)]) by reflexivity.
  split; [exact H|].
  exact (loaded_token_ids_in_range one_token (fun _ => -7) [one_entry_file]
           "val" _ H).
Defined.

(** *** The framing *)

Lemma from_bytes_little_nonneg (b : list Byte.byte) : 0 <= from_bytes_little b.
Proof.
  induction b as [|x b IH]; simpl; [done|].
  pose proof (N2Z.is_nonneg (Byte.to_N x)). lia.
Qed.

(** The bytes of an entry: the four bytes of its length, then the
    payload. *)
Definition framed (f : list Byte.byte * list Byte.byte) : Prop :=
  length f.1 = 4%nat /\ from_bytes_little f.1 = Py.len f.2.

Lemma read_entries_frames (n : nat) :
  forall (frames : list (list Byte.byte * list Byte.byte))
         (trailing : list Byte.byte),
    Forall framed frames -> (n <= length frames)%nat ->
    read_entries n (concat ((fun f => f.1 ++ f.2) <$> frames) ++ trailing)
    = take n (snd <$> frames).
Proof.
  induction n as [|n IH]; intros frames trailing Hframes Hn; [done|].
  destruct frames as [|[lb p] frames]; [simpl in Hn; lia|].
  apply Forall_cons in Hframes as [[Hlb Hp] Hframes]. simpl in Hlb, Hp.
  cbn [fmap list_fmap concat fst snd read_entries take].
  rewrite <- !app_assoc.
  rewrite (take_app_length' lb) by done.
  rewrite decide_False by lia.
  rewrite (drop_app_length' lb) by done.
  rewrite Hp.
  replace (Z.to_nat (Py.len p)) with (length p) by (unfold Py.len; lia).
  rewrite take_app_length, drop_app_length.
  rewrite decide_False by lia.
  f_equal. apply IH; [done|]. simpl in Hn. lia.
Qed.

(** X18. A file that starts with a four-byte count [n] followed by at
    least [n] entries, each the four little-endian bytes of its payload's
    length and then the payload, is read as exactly the first [n]
    payloads; what follows them is ignored. *)
Lemma read_file_frames (count : list Byte.byte)
  (frames : list (list Byte.byte * list Byte.byte))
  (trailing : list Byte.byte) :
  length count = 4%nat ->
  Forall (fun f => length f.1 = 4%nat /\
                   from_bytes_little f.1 = Py.len f.2) frames ->
  from_bytes_little count <= Py.len frames ->
  read_file (count ++ concat ((fun f => f.1 ++ f.2) <$> frames) ++ trailing)
  = take (Z.to_nat (from_bytes_little count)) (snd <$> frames).
Proof.
  intros Hcount Hframes Hn. unfold read_file.
  rewrite (take_app_length' count) by done.
  rewrite decide_False by lia.
  rewrite (drop_app_length' count) by done.
  apply read_entries_frames; [done|]. unfold Py.len in Hn. lia.
Qed.

Lemma read_file_frames_witness :
  read_file
    ([Byte.x02; Byte.x00; Byte.x00; Byte.x00]
     ++ concat ((fun f => f.1 ++ f.2)
                <$> [([Byte.x01; Byte.x00; Byte.x00; Byte.x00], [Byte.x41]);
                     ([Byte.x00; Byte.x00; Byte.x00; Byte.x00], []);
                     ([Byte.x02; Byte.x00; Byte.x00; Byte.x00], [Byte.x42; Byte.x43])])
     ++ [Byte.xff])
  = [[Byte.x41]; []].
Proof.
  apply (read_file_frames [Byte.x02; Byte.x00; Byte.x00; Byte.x00]
           [([Byte.x01; Byte.x00; Byte.x00; Byte.x00], [Byte.x41]);
            ([Byte.x00; Byte.x00; Byte.x00; Byte.x00], []);
            ([Byte.x02; Byte.x00; Byte.x00; Byte.x00], [Byte.x42; Byte.x43])]
           [Byte.xff]).
  - reflexivity.
  - repeat constructor.
  - vm_compute. discriminate.
Defined.

(** *** Truncated files *)

Lemma read_entries_truncated (n : nat) :
  forall (rest : list Byte.byte) (k : nat),
    read_entries n (take k rest) `prefix_of` read_entries n rest.
Proof.
  induction n as [|n IH]; intros rest k; [done|].
  cbn [read_entries]. rewrite take_take.
  destruct (decide (k < 4)%nat) as [Hk|Hk].
  { rewrite decide_True; [apply prefix_nil|].
    rewrite length_take. lia. }
  replace (4 `min` k)%nat with 4%nat by lia.
  destruct (decide (length (take 4 rest) < 4)%nat); [done|].
  set (data_length := from_bytes_little (take 4 rest)).
  pose proof (from_bytes_little_nonneg (take 4 rest)) as Hnn.
  fold data_length in Hnn.
  replace (drop 4 (take k rest)) with (take (k - 4) (drop 4 rest))
    by (rewrite take_drop_commute; f_equal; f_equal; lia).
  rewrite take_take.
  destruct (decide (k - 4 < Z.to_nat data_length)%nat) as [Hshort|Hlong].
  - rewrite decide_True; [apply prefix_nil|].
    unfold Py.len. rewrite length_take. lia.
  - replace (Z.to_nat data_length `min` (k - 4))%nat
      with (Z.to_nat data_length) by lia.
    destruct (decide (Py.len (take (Z.to_nat data_length) (drop 4 rest))
                      < data_length)); [done|].
    apply prefix_cons.
    replace (drop (Z.to_nat data_length) (take (k - 4) (drop 4 rest)))
      with (take (k - 4 - Z.to_nat data_length)
              (drop (Z.to_nat data_length) (drop 4 rest)))
      by (rewrite take_drop_commute; f_equal; f_equal; lia).
    apply IH.
Qed.

(** X19. Cutting a file short at any byte loses entries only from the
    end: the payloads read from the truncated file are a prefix of the
    payloads read from the whole file. *)
Lemma read_file_truncated (content : list Byte.byte) (k : nat) :
  read_file (take k content) `prefix_of` read_file content.
Proof.
  unfold read_file. rewrite take_take.
  destruct (decide (k < 4)%nat) as [Hk|Hk].
  { rewrite decide_True; [apply prefix_nil|].
    rewrite length_take. lia. }
  replace (4 `min` k)%nat with 4%nat by lia.
  destruct (decide (length (take 4 content) < 4)%nat); [done|].
  replace (drop 4 (take k content)) with (take (k - 4) (drop 4 content))
    by (rewrite take_drop_commute; f_equal; f_equal; lia).
  apply read_entries_truncated.
Qed.

(** *** Entries that are no objects *)

Definition is_object (j : json) : bool :=
  match j with
  | JObj _ => true
  | _ => false
  end.

Lemma load_entries_raises json_loads py_hash (payload : list Byte.byte)
  (j : json) (payloads : list (list Byte.byte)) :
  payload ∈ payloads -> json_loads payload = Decoded j ->
  is_object j = false ->
  forall data, raises (load_entries json_loads py_hash payloads data).
Proof.
  intros Hin Hdec Hobj.
  induction payloads as [|p payloads IH]; intros data.
  - by apply not_elem_of_nil in Hin.
  - cbn [load_entries].
    apply elem_of_cons in Hin as [<-|Hin].
    + rewrite Hdec. by destruct j.
    + destruct (json_loads p) as [j'| |e]; [|by apply IH|exact I].
      destruct (item_of py_hash j') as [it|e]; [|exact I].
      simpl. by apply IH.
Qed.

Lemma load_data_raises json_loads py_hash (payload : list Byte.byte)
  (j : json) (content : list Byte.byte) (files : list (list Byte.byte)) :
  content ∈ files -> payload ∈ read_file content ->
  json_loads payload = Decoded j -> is_object j = false ->
  forall data, raises (load_data json_loads py_hash files data).
Proof.
  intros Hfile Hin Hdec Hobj.
  induction files as [|c files IH]; intros data.
  - by apply not_elem_of_nil in Hfile.
  - cbn [load_data].
    apply elem_of_cons in Hfile as [<-|Hfile].
    + pose proof (load_entries_raises json_loads py_hash payload j
                    (read_file content) Hin Hdec Hobj data) as Hr.
      by destruct (load_entries _ _ _ _).
    + destruct (load_entries json_loads py_hash (read_file c) data)
        as [data1|e]; [|exact I].
      simpl. by apply IH.
Qed.

(** X20. A payload that is valid JSON but no object (a list, a string, a
    number, null) makes the construction of the dataset raise, wherever in
    the files of the split it stands; a payload that is not valid JSON is
    skipped, and the entries after it are loaded as if it were absent. *)
Lemma non_object_entry_raises (json_loads : list Byte.byte -> decoded)
  (py_hash : json -> Z) (files : list (list Byte.byte)) (split : string)
  (content payload : list Byte.byte) (j : json) :
  content ∈ split_files split files -> payload ∈ read_file content ->
  json_loads payload = Decoded j -> is_object j = false ->
  raises (init json_loads py_hash files split) /\
  (forall bad payloads data,
     json_loads bad = JSONDecodeError ->
     load_entries json_loads py_hash (bad :: payloads) data
     = load_entries json_loads py_hash payloads data).
Proof.
  intros Hfile Hin Hdec Hobj. split.
  - unfold init, select_files.
    destruct files as [|f files].
    { unfold split_files, Py.slice_to, Py.slice_from in Hfile.
      repeat case_match; by apply not_elem_of_nil in Hfile. }
    simpl. by apply (load_data_raises json_loads py_hash payload j content).
  - intros bad payloads data Hbad. cbn [load_entries]. by rewrite Hbad.
Qed.

(** A file whose only entry decodes to a list. *)
Lemma non_object_entry_raises_witness :
  raises (init (fun _ => Decoded (JArr [])) (fun _ => 0) [one_entry_file]
            "val") /\
  (forall bad payloads data,
     (fun _ : list Byte.byte => Decoded (JArr [])) bad = JSONDecodeError ->
     load_entries (fun _ => Decoded (JArr [])) (fun _ => 0) (bad :: payloads)
       data
     = load_entries (fun _ => Decoded (JArr [])) (fun _ => 0) payloads data).
Proof.
  apply (non_object_entry_raises (fun _ => Decoded (JArr [])) (fun _ => 0)
           [one_entry_file] "val" one_entry_file [Byte.x7b; Byte.x7d]
           (JArr [])).
  - vm_compute. by left.
  - vm_compute. by left.
  - reflexivity.
  - reflexivity.
Defined.

End DataFiles.

(** ** Causal attention without flash attention *)

Module Attention.
Import Exn Logits Sampling.
Local Open Scope R_scope.

(** A matrix, row by row: one batch element and one head of a tensor. *)
Abbreviation matrix := (list (list R)).

(** The entry of [a @ b.transpose(-2, -1)] for one row of each. *)
Definition dot (a b : list R) : R := sumR (zip_with Rmult a b).

(** [(q @ k.transpose(-2, -1)) * scale] *)
Definition scores (scale : R) (q k : matrix) : matrix :=
  (fun qi => (fun kj => dot qi kj * scale) <$> k) <$> q.

(** [torch.tril(torch.ones(n, n))] *)
Definition tril (n : nat) : matrix :=
  (fun i => (fun j => if decide (j <= i)%nat then 1 else 0) <$> seq 0 n)
  <$> seq 0 n.

(** [att.masked_fill(mask == 0, float('-inf'))] for a mask of the shape of
    [att]. *)
Definition masked_fill (mask att : matrix) : list (list xreal) :=
  zip_with (zip_with (fun m a => if decide (m = 0) then NegInf else Fin a))
    mask att.

(** [nn.Dropout] on a matrix: every entry is multiplied by 0 or by
    [1 / (1 - p)] in training, by 1 in evaluation; [keep i j] is the
    factor of entry [(i, j)]. *)
Definition dropout (keep : nat -> nat -> R) (att : matrix) : matrix :=
  imap (fun i row => imap (fun j a => keep i j * a) row) att.

(** [att @ v] for a value matrix of [hs] columns. *)
Definition matmul (hs : nat) (att v : matrix) : matrix :=
  (fun ai =>
     (fun c => sumR (zip_with (fun a vj => a * nth c vj 0) ai v)) <$> seq 0 hs)
  <$> att.

(** The attention weights of the path without flash attention, for one
    batch element and one head: [T] rows of queries and keys of width
    [hs]. Raises when the head width is 0 ([1.0 / math.sqrt(0)]) and when
    the sequence is longer than the mask. *)
Definition attention_weights (block_size hs : nat) (q k : matrix)
  : result matrix :=
  if decide (hs = 0%nat) then Raise ZeroDivisionError
  else
    let T := length q in
    if decide (block_size < T)%nat then Raise RuntimeError
    else
      let att := scores (1 / sqrt (INR hs)) q k in
      let mask := take T <$> take T (tril block_size) in
      let att := masked_fill mask att in
      Ok (softmax <$> att).

(** The manual attention of [CausalSelfAttention.forward]. *)
Definition manual_attention (block_size hs : nat) (keep : nat -> nat -> R)
  (q k v : matrix) : result matrix :=
  att ← attention_weights block_size hs q k;
  let att := dropout keep att in
  Ok (matmul hs att v).

(** The row of the masked scores at position [i]: the scores up to [i],
    then [-inf]. *)
Definition masked_row (i : nat) (row : list R) : list xreal :=
  imap (fun j a => if decide (j <= i)%nat then Fin a else NegInf) row.

(** *** The mask *)

Lemma tril_slice (block_size T : nat) :
  (T <= block_size)%nat -> take T <$> take T (tril block_size) = tril T.
Proof.
  intros HT. unfold tril. rewrite <- fmap_take, take_seq.
  replace (T `min` block_size)%nat with T by lia.
  rewrite <- list_fmap_compose. apply list_fmap_ext. intros _ i _. simpl.
  rewrite <- fmap_take, take_seq. by replace (T `min` block_size)%nat with T by lia.
Qed.

Lemma masked_fill_tril (T : nat) (att : matrix) :
  length att = T -> Forall (fun row => length row = T) att ->
  masked_fill (tril T) att = imap masked_row att.
Proof.
  intros Hlen Hrows. apply list_eq. intros i.
  unfold masked_fill, tril. rewrite lookup_zip_with, list_lookup_imap.
  rewrite list_lookup_fmap.
  destruct (att !! i) as [row|] eqn:Hrow; try rewrite Hrow.
  2: { simpl. by destruct (seq 0 T !! i). }
  assert (Hi : (i < T)%nat).
  { apply lookup_lt_Some in Hrow. lia. }
  rewrite lookup_seq_lt by done. simpl. f_equal.
  rewrite list.Forall_forall in Hrows.
  assert (Hr : length row = T).
  { apply Hrows. by apply list_elem_of_lookup_2 in Hrow. }
  apply list_eq. intros j. unfold masked_row.
  rewrite lookup_zip_with, list_lookup_imap, list_lookup_fmap.
  destruct (row !! j) as [a|] eqn:Ha; try rewrite Ha.
  2: { simpl. by destruct (seq 0 T !! j). }
  assert (Hj : (j < T)%nat).
  { apply lookup_lt_Some in Ha. lia. }
  rewrite lookup_seq_lt by done. simpl. f_equal.
  destruct (decide (j <= i)%nat).
  - rewrite decide_False by lra. done.
  - rewrite decide_True by done. done.
Qed.

Lemma scores_shape (scale : R) (q k : matrix) (T : nat) :
  length q = T -> length k = T ->
  length (scores scale q k) = T /\
  Forall (fun row => length row = T) (scores scale q k).
Proof.
  intros Hq Hk. unfold scores. rewrite length_fmap. split; [done|].
  apply list.Forall_forall. intros row Hin.
  apply list_elem_of_fmap in Hin as (qi & -> & _). by rewrite length_fmap.
Qed.

(** The weights are the softmax of the masked score rows. *)
Lemma attention_weights_eq (block_size hs : nat) (q k : matrix) :
  hs <> 0%nat -> length k = length q -> (length q <= block_size)%nat ->
  attention_weights block_size hs q k
  = Ok (imap (fun i row => softmax (masked_row i row))
          (scores (1 / sqrt (INR hs)) q k)).
Proof.
  intros Hhs Hk HT. unfold attention_weights.
  rewrite decide_False by done. rewrite decide_False by lia.
  rewrite tril_slice by done.
  destruct (scores_shape (1 / sqrt (INR hs)) q k (length q) eq_refl Hk)
    as [Hlen Hrows].
  rewrite masked_fill_tril by done. f_equal.
  apply list_eq. intros i.
  rewrite list_lookup_fmap, !list_lookup_imap.
  by destruct (scores _ q k !! i).
Qed.

Lemma masked_row_length (i : nat) (row : list R) :
  length (masked_row i row) = length row.
Proof. unfold masked_row. apply length_imap. Qed.

Lemma masked_row_lookup (i j : nat) (row : list R) :
  masked_row i row !! j
  = (fun a => if decide (j <= i)%nat then Fin a else NegInf) <$> row !! j.
Proof. unfold masked_row. apply list_lookup_imap. Qed.

(** X21. Without flash attention, for a head of width [hs > 0] and a
    sequence of [T <= block_size] positions, the attention weights of
    every position form a probability distribution over the [T]
    positions that gives weight 0 to every later position. *)
Lemma attention_weights_causal (block_size hs : nat) (q k : matrix) :
  hs <> 0%nat -> length k = length q -> (length q <= block_size)%nat ->
  exists att,
    attention_weights block_size hs q k = Ok att /\
    length att = length q /\
    forall i row,
      att !! i = Some row ->
      length row = length q /\
      Forall (fun p => 0 <= p) row /\
      sumR row = 1 /\
      forall j p, row !! j = Some p -> (i < j)%nat -> p = 0.
Proof.
  intros Hhs Hk HT.
  rewrite (attention_weights_eq block_size hs q k Hhs Hk HT).
  destruct (scores_shape (1 / sqrt (INR hs)) q k (length q) eq_refl Hk)
    as [Hlen Hrows].
  eexists. split; [reflexivity|]. split; [by rewrite length_imap|].
  intros i row Hrow. rewrite list_lookup_imap in Hrow.
  destruct (scores _ q k !! i) as [srow|] eqn:Hs; [|done].
  simpl in Hrow. injection Hrow as <-.
  assert (Hi : (i < length q)%nat).
  { apply lookup_lt_Some in Hs. lia. }
  assert (Hsr : length srow = length q).
  { rewrite list.Forall_forall in Hrows. apply Hrows.
    by apply list_elem_of_lookup_2 in Hs. }
  split; [by rewrite softmax_length, masked_row_length|].
  split; [apply softmax_nonneg|]. split.
  - apply softmax_total. apply Exists_exists.
    destruct (lookup_lt_is_Some_2 srow i ltac:(lia)) as [a Ha].
    exists (Fin a). split; [|done].
    apply (list_elem_of_lookup_2 _ i). rewrite masked_row_lookup, Ha. simpl.
    by rewrite decide_True.
  - intros j p Hp Hij. rewrite softmax_lookup, masked_row_lookup in Hp.
    destruct (srow !! j) as [a|]; [|done]. simpl in Hp.
    rewrite decide_False in Hp by lia. injection Hp as <-.
    simpl. unfold Rdiv. apply Rmult_0_l.
Qed.

Lemma attention_weights_causal_witness :
  exists att,
    attention_weights 2 1 [[1]; [1]] [[1]; [2]] = Ok att /\
    length att = length [[1]; [1]] /\
    forall i row,
      att !! i = Some row ->
      length row = length [[1]; [1]] /\
      Forall (fun p => 0 <= p) row /\
      sumR row = 1 /\
      forall j p, row !! j = Some p -> (i < j)%nat -> p = 0.
Proof.
  exact (attention_weights_causal 2 1 [[1]; [1]] [[1]; [2]]
           ltac:(discriminate) eq_refl ltac:(simpl; lia)).
Defined.

(** *** The output *)

(** The output row of position [i], from its score row. *)
Definition output_row (hs : nat) (keep : nat -> nat -> R) (v : matrix)
  (i : nat) (srow : list R) : list R :=
  (fun c =>
     sumR (zip_with (fun a vj => a * nth c vj 0)
             (imap (fun j a => keep i j * a) (softmax (masked_row i srow)))
             v))
  <$> seq 0 hs.

Lemma manual_attention_eq (block_size hs : nat) (keep : nat -> nat -> R)
  (q k v : matrix) :
  hs <> 0%nat -> length k = length q -> (length q <= block_size)%nat ->
  manual_attention block_size hs keep q k v
  = Ok (imap (output_row hs keep v) (scores (1 / sqrt (INR hs)) q k)).
Proof.
  intros Hhs Hk HT. unfold manual_attention.
  rewrite (attention_weights_eq block_size hs q k Hhs Hk HT). simpl.
  f_equal. apply list_eq. intros i. unfold matmul, dropout.
  rewrite list_lookup_fmap, !list_lookup_imap.
  by destruct (scores _ q k !! i).
Qed.

Lemma take_lookup_eq {A} (l l' : list A) (n i : nat) :
  take n l = take n l' -> (i < n)%nat -> l !! i = l' !! i.
Proof.
  intros H Hi. rewrite <- (lookup_take_lt l n i), <- (lookup_take_lt l' n i)
    by done. by rewrite H.
Qed.

(** Weights that vanish from position [m] on ignore the rows of [v] from
    [m] on. *)
Lemma weighted_sum_prefix (c : nat) (a : list R) :
  forall (v v' : matrix) (m : nat),
    length v = length v' -> take m v = take m v' ->
    (forall j x, a !! j = Some x -> (m <= j)%nat -> x = 0) ->
    sumR (zip_with (fun x vj => x * nth c vj 0) a v)
    = sumR (zip_with (fun x vj => x * nth c vj 0) a v').
Proof.
  induction a as [|x a IH]; intros v v' m Hlen Htake Hzero; [done|].
  destruct v as [|y v], v' as [|y' v']; try done.
  simpl in Hlen. injection Hlen as Hlen.
  cbn [zip_with]. rewrite !sumR_cons.
  destruct m as [|m].
  - rewrite (Hzero 0%nat x eq_refl ltac:(lia)), !Rmult_0_l. f_equal.
    apply (IH v v' 0%nat Hlen eq_refl).
    intros j z Hj _. apply (Hzero (S j) z Hj). lia.
  - simpl in Htake. injection Htake as -> Htake. f_equal.
    apply (IH v v' m Hlen Htake).
    intros j z Hj Hm. apply (Hzero (S j) z Hj). lia.
Qed.

Lemma masked_rows_agree (scale : R) (qi : list R) (k k' : matrix)
  (i n : nat) :
  (i < n)%nat -> length k = length k' -> take n k = take n k' ->
  masked_row i ((fun kj => dot qi kj * scale) <$> k)
  = masked_row i ((fun kj => dot qi kj * scale) <$> k').
Proof.
  intros Hi Hlen Htake. apply list_eq. intros j.
  rewrite !masked_row_lookup, !list_lookup_fmap.
  destruct (decide (j <= i)%nat) as [Hj|Hj].
  - by rewrite (take_lookup_eq k k' n j Htake ltac:(lia)).
  - destruct (k !! j) as [kj|] eqn:Hk, (k' !! j) as [kj'|] eqn:Hk'; try done.
    + apply lookup_lt_Some in Hk. apply lookup_ge_None in Hk'. lia.
    + apply lookup_lt_Some in Hk'. apply lookup_ge_None in Hk. lia.
Qed.

(** X22. Without flash attention the output at a position depends only on
    the queries, keys and values up to that position: two inputs of the
    same length that agree on their first [n] positions give outputs that
    agree on their first [n] positions, under the same dropout mask. *)
Lemma attention_output_causal (block_size hs : nat) (keep : nat -> nat -> R)
  (q k v q' k' v' : matrix) (n : nat) :
  hs <> 0%nat -> (length q <= block_size)%nat ->
  length k = length q -> length v = length q ->
  length q' = length q -> length k' = length q -> length v' = length q ->
  take n q = take n q' -> take n k = take n k' -> take n v = take n v' ->
  exists y y',
    manual_attention block_size hs keep q k v = Ok y /\
    manual_attention block_size hs keep q' k' v' = Ok y' /\
    length y = length q /\ length y' = length q /\
    take n y = take n y'.
Proof.
  intros Hhs HT Hk Hv Hq' Hk' Hv' Hnq Hnk Hnv.
  rewrite (manual_attention_eq block_size hs keep q k v) by done.
  rewrite (manual_attention_eq block_size hs keep q' k' v') by lia.
  eexists _, _. split; [reflexivity|]. split; [reflexivity|].
  unfold scores. rewrite !length_imap, !length_fmap.
  split; [done|]. split; [done|].
  apply list_eq. intros i.
  destruct (decide (i < n)%nat) as [Hi|Hi].
  2: { by rewrite !lookup_take_ge by lia. }
  rewrite !lookup_take_lt by done.
  rewrite !list_lookup_imap, !list_lookup_fmap.
  rewrite <- (take_lookup_eq q q' n i Hnq Hi).
  destruct (q !! i) as [qi|]; [|done]. simpl. f_equal.
  unfold output_row.
  rewrite (masked_rows_agree _ qi k k' i n Hi ltac:(lia) Hnk).
  apply list_fmap_ext. intros _ c _.
  apply (weighted_sum_prefix c _ v v' (S i)); [lia| |].
  - apply list_eq. intros j.
    destruct (decide (j < S i)%nat).
    + rewrite !lookup_take_lt by done.
      apply (take_lookup_eq v v' n j Hnv). lia.
    + by rewrite !lookup_take_ge by lia.
  - intros j x Hx Hj. rewrite list_lookup_imap in Hx.
    rewrite softmax_lookup, masked_row_lookup in Hx.
    destruct (_ !! j) as [a|]; [|done]. simpl in Hx.
    rewrite decide_False in Hx by lia. injection Hx as <-.
    simpl. unfold Rdiv. rewrite Rmult_0_l. apply Rmult_0_r.
Qed.

(** Two sequences of two positions that differ in the second key and
    value only: the first output row is the same. *)
Lemma attention_output_causal_witness :
  exists y y',
    manual_attention 2 1 (fun _ _ => 1) [[1]; [1]] [[1]; [2]] [[1]; [5]]
    = Ok y /\
    manual_attention 2 1 (fun _ _ => 1) [[1]; [1]] [[1]; [3]] [[1]; [7]]
    = Ok y' /\
    length y = length [[1]; [1]] /\ length y' = length [[1]; [1]] /\
    take 1 y = take 1 y'.
Proof.
  exact (attention_output_causal 2 1 (fun _ _ => 1)
           [[1]; [1]] [[1]; [2]] [[1]; [5]] [[1]; [1]] [[1]; [3]] [[1]; [7]]
           1 ltac:(discriminate) ltac:(simpl; lia) eq_refl eq_refl eq_refl
           eq_refl eq_refl eq_refl eq_refl eq_refl).
Defined.

End Attention.

(** ** The installer icon *)

Module Icon.
Local Open Scope Z_scope.

(** A pixel position [(x, y)] and an RGBA colour. *)
Abbreviation point := (Z * Z)%type.
Abbreviation colour := (Z * Z * Z * Z)%type.

(** What is drawn on the image of one size: the filled polygon, and the
    border lines with their colour and width. *)
Record drawing : Type := mkDrawing {
  canvas : Z;
  polygon : list point;
  fill : colour;
  border : list (point * point);
  border_colour : colour;
  border_width : Z
}.

Definition sizes : list Z := [16; 32; 48; 64; 128; 256].

(** The three corners of the triangle: top, bottom left, bottom right. *)
Definition points (size : Z) : list point :=
  let margin := size `div` 8 in
  let triangle_size := size - 2 * margin in
  let x_center := size `div` 2 in
  let y_top := margin in
  let y_bottom := margin + triangle_size in
  let x_left := x_center - triangle_size `div` 2 in
  let x_right := x_center + triangle_size `div` 2 in
  [(x_center, y_top); (x_left, y_bottom); (x_right, y_bottom)].

(** [[(points[i], points[(i + 1) % len(points)]) for i in range(len(points))]] *)
Definition outline (points : list point) : list (point * point) :=
  omap (fun i => start ← points !! i;
                 stop ← points !! ((i + 1) `mod` length points)%nat;
                 Some (start, stop))
    (seq 0 (length points)).

(** The body of the loop of [create_delta_icon]. *)
Definition draw (size : Z) : drawing :=
  mkDrawing size (points size) (0, 51, 102, 255) (outline (points size))
    (0, 102, 204, 255) (Z.max 1 (size `div` 32)).

(** The images that [create_delta_icon] draws, smallest first. *)
Definition create_delta_icon : list drawing := draw <$> sizes.

(** The squared distance of two pixels. *)
Definition distance2 (p q : point) : Z :=
  (p.1 - q.1) * (p.1 - q.1) + (p.2 - q.2) * (p.2 - q.2).

(** X23. For every image of at least 8 pixels, and so for each of the six
    icon sizes, the three corners of the triangle keep the margin
    [size // 8 >= 1] from every edge of the image, the base is horizontal
    and below the top corner, and the border is between 1 pixel and the
    margin wide; the outline joins the corners in a closed path. *)
Lemma triangle_fits_image (size : Z) :
  8 <= size ->
  (exists top left right,
     polygon (draw size) = [top; left; right] /\
     border (draw size) = [(top, left); (left, right); (right, top)] /\
     left.2 = right.2 /\ top.2 < left.2 /\ left.1 < top.1 < right.1) /\
  Forall (fun p => size `div` 8 <= p.1 <= size - size `div` 8 /\
                   size `div` 8 <= p.2 <= size - size `div` 8)
    (polygon (draw size)) /\
  1 <= border_width (draw size) <= size `div` 8 /\
  Forall (fun s => 8 <= s) sizes.
Proof.
  intros Hsize. split; [|split; [|split]].
  - eexists _, _, _. split; [reflexivity|]. split; [reflexivity|]. simpl.
    Z.div_mod_to_equations. lia.
  - unfold draw, points. simpl. repeat constructor; simpl;
      Z.div_mod_to_equations; lia.
  - simpl. Z.div_mod_to_equations. lia.
  - unfold sizes. repeat constructor; lia.
Qed.

Lemma triangle_fits_image_witness :
  8 <= 16 /\
  polygon (draw 16) = [(8, 2); (2, 14); (14, 14)] /\
  Forall (fun p => 16 `div` 8 <= p.1 <= 16 - 16 `div` 8 /\
                   16 `div` 8 <= p.2 <= 16 - 16 `div` 8)
    (polygon (draw 16)) /\
  1 <= border_width (draw 16) <= 16 `div` 8.
Proof.
  assert (H : 8 <= 16) by lia.
  destruct (triangle_fits_image 16 H) as (_ & Hin & Hw & _).
  split; [exact H|]. split; [reflexivity|]. split; [exact Hin|exact Hw].
Defined.

(** X24. The triangle is isosceles and never equilateral: for every image
    of at least 8 pixels the two sides that meet at the top corner are
    equally long, and the base is strictly shorter than they are. *)
Lemma triangle_is_isosceles (size : Z) :
  8 <= size ->
  exists top left right,
    polygon (draw size) = [top; left; right] /\
    distance2 top left = distance2 top right /\
    distance2 left right < distance2 top left.
Proof.
  intros Hsize. eexists _, _, _. split; [reflexivity|].
  unfold distance2. simpl.
  set (m := size `div` 8).
  set (h := (size - 2 * m) `div` 2).
  assert (Hm : 1 <= m /\ 8 * m <= size).
  { subst m. Z.div_mod_to_equations. lia. }
  assert (Hh : 1 <= h /\ 2 * h <= size - 2 * m).
  { subst h. Z.div_mod_to_equations. lia. }
  split; [ring|]. nia.
Qed.

Lemma triangle_is_isosceles_witness :
  8 <= 256 /\
  exists top left right,
    polygon (draw 256) = [top; left; right] /\
    distance2 top left = distance2 top right /\
    distance2 left right < distance2 top left.
Proof.
  assert (H : 8 <= 256) by lia.
  split; [exact H|]. exact (triangle_is_isosceles 256 H).
Defined.

End Icon.

(** ** What the top-k filter keeps *)

Module TopK.
Import Logits Sampling.
Local Open Scope R_scope.

Lemma xlt_xle_trans (a b c : xreal) : xlt a b -> xle b c -> xlt a c.
Proof. destruct a, b, c; simpl; try done; lra. Qed.

(** Entries that are finite and not below the threshold all survive. *)
Lemma support_size_none_masked (thr : xreal) (l : list xreal) :
  Forall (fun a => ~ xlt a thr /\ is_fin a = true) l ->
  support_size (mask_below thr l) = length l.
Proof.
  induction 1 as [|x l [Hx Hfin] _ IH]; [done|].
  unfold mask_below in *. rewrite fmap_cons.
  change (?a :: ?l) with ([a] ++ l) at 1. rewrite support_size_app, IH.
  unfold support_size. simpl.
  rewrite (decide_False (P := xlt x thr)) by done.
  rewrite filter_cons_True by done. simpl. lia.
Qed.

Lemma mask_below_cases (thr : xreal) (row : list xreal) (i : nat) (a : xreal) :
  row !! i = Some a ->
  (xlt a thr /\ mask_below thr row !! i = Some NegInf) \/
  (~ xlt a thr /\ mask_below thr row !! i = Some a).
Proof.
  intros Ha. unfold mask_below. rewrite list_lookup_fmap, Ha. simpl.
  case_decide; [by left|by right].
Qed.

(** X25. With [top_k = K] between 1 and the vocabulary size, on a row of
    finite logits: at least [K] logits survive the filter, every logit
    either survives unchanged or becomes [-inf], and every removed logit
    is strictly below every surviving one. *)
Lemma top_k_keeps_k_largest (K : Z) (row : list xreal) :
  (1 <= K <= Py.len row)%Z -> Forall (fun a => is_fin a = true) row ->
  exists out,
    top_k_filter K row = Some out /\
    length out = length row /\
    (K <= Z.of_nat (support_size out))%Z /\
    (forall i a, row !! i = Some a ->
                 out !! i = Some a \/ out !! i = Some NegInf) /\
    (forall i j a b,
       row !! i = Some a -> out !! i = Some NegInf ->
       out !! j = Some b -> is_fin b = true -> xlt a b).
Proof.
  intros HK Hfin.
  destruct (top_k_filter_eq K row HK) as (thr & Hthr & Hfilter).
  exists (mask_below thr row). split; [done|].
  split; [apply mask_below_length|]. split; [|split].
  - set (sorted := snd <$> sort_desc row).
    assert (Hperm : sorted ≡ₚ row) by apply sorted_values_perm.
    assert (Hlen : length sorted = length row)
      by apply sorted_values_length.
    rewrite <- (support_size_perm (mask_below thr sorted)
                  (mask_below thr row))
      by (unfold mask_below; by apply fmap_Permutation).
    rewrite <- (take_drop (Z.to_nat K) sorted).
    unfold mask_below. rewrite fmap_app, support_size_app.
    fold (mask_below thr (take (Z.to_nat K) sorted)).
    rewrite support_size_none_masked.
    + rewrite length_take. unfold Py.len in HK. lia.
    + apply list.Forall_forall. intros a Ha.
      apply list_elem_of_lookup_1 in Ha as [i Hi].
      pose proof (lookup_lt_Some _ _ _ Hi) as Hlt.
      rewrite length_take in Hlt.
      rewrite lookup_take_lt in Hi by lia.
      split.
      * apply not_xlt_xle.
        apply (sorted_values_desc row i (Z.to_nat K - 1) a thr);
          [lia|done|done].
      * rewrite list.Forall_forall in Hfin. apply Hfin.
        rewrite <- Hperm. by apply list_elem_of_lookup_2 in Hi.
  - intros i a Ha.
    destruct (mask_below_cases thr row i a Ha) as [[_ H]|[_ H]];
      [by right|by left].
  - intros i j a b Ha Hout Hb Hbfin.
    destruct (mask_below_lookup thr row j b Hb Hbfin) as [_ Hnb].
    apply not_xlt_xle in Hnb.
    destruct (mask_below_cases thr row i a Ha) as [[Hlt _]|[_ H]].
    + by apply (xlt_xle_trans a thr b).
    + rewrite H in Hout. injection Hout as ->.
      rewrite list.Forall_forall in Hfin.
      by pose proof (Hfin NegInf (list_elem_of_lookup_2 _ _ _ Ha)).
Qed.

Lemma top_k_keeps_k_largest_witness :
  exists out,
    top_k_filter 2 [Fin 1; Fin 3; Fin 2; Fin 3] = Some out /\
    length out = length [Fin 1; Fin 3; Fin 2; Fin 3] /\
    (2 <= Z.of_nat (support_size out))%Z /\
    (forall i a, [Fin 1; Fin 3; Fin 2; Fin 3] !! i = Some a ->
                 out !! i = Some a \/ out !! i = Some NegInf) /\
    (forall i j a b,
       [Fin 1; Fin 3; Fin 2; Fin 3] !! i = Some a ->
       out !! i = Some NegInf ->
       out !! j = Some b -> is_fin b = true -> xlt a b).
Proof.
  apply (top_k_keeps_k_largest 2 [Fin 1; Fin 3; Fin 2; Fin 3]).
  - unfold Py.len. simpl. lia.
  - repeat constructor.
Defined.

End TopK.

(** ** The context window of generation *)

Module Context.
Import Logits Sampling Generate.
Local Open Scope R_scope.

Section Context.

Variable RNG : Type.
Variable vocab_size block_size : Z.
Variable network : RNG -> list (list Z) -> (nat -> nat -> nat -> R) * RNG.
Variable draw : RNG -> list R -> nat * RNG.

Variable temperature : R.
Variable top_k : option Z.
Variable top_p : option R.

Abbreviation step :=
  (Generate.step RNG vocab_size block_size network draw temperature top_k
     top_p).
Abbreviation iterate n :=
  (Generate.iterate RNG vocab_size block_size network draw n temperature
     top_k top_p).
Abbreviation generate idx max_new_tokens g :=
  (Generate.generate RNG vocab_size block_size network draw idx
     max_new_tokens temperature top_k top_p g).

(** [idx[:, -block_size:]] *)
Definition crop (idx : list (list Z)) : list (list Z) :=
  (fun row => Py.slice_from row (- block_size)) <$> idx.

(** The tokens that a step appends, one per row. *)
Definition appended (idx out : list (list Z)) (idx_next : list Z) : Prop :=
  out = zip_with (fun row t => row ++ [t]) idx idx_next.

Lemma iterate_add (n m : nat) (st : list (list Z) * RNG) :
  iterate (n + m) st = iterate n st ≫= iterate m.
Proof.
  revert st. induction n as [|n IH]; intros st; [done|].
  cbn [Nat.add Generate.iterate].
  destruct (step st) as [st'|]; [|done]. apply IH.
Qed.

(** X26. Generation is incremental: generating [k + m] tokens gives what
    generating [k] tokens and then [m] more from that output, with the
    random state that the first call left, gives; a failure of either
    call is a failure of the whole. *)
Lemma generate_is_incremental (idx : list (list Z)) (k m : Z) (g : RNG) :
  (0 <= k)%Z -> (0 <= m)%Z ->
  generate idx (k + m)%Z g
  = generate idx k g ≫= fun st => generate st.1 m st.2.
Proof.
  intros Hk Hm. unfold Generate.generate.
  rewrite Z2Nat.inj_add by done. rewrite iterate_add.
  destruct (iterate (Z.to_nat k) (idx, g)) as [[mid g1]|]; done.
Qed.

(** X27. The context window: once the sequences are longer than
    [block_size], a step sees only the last [block_size] tokens of every
    row. Two batches with the same last [block_size] tokens get the same
    next tokens and leave the same random state. *)
Lemma step_sees_last_block (idx idx' out : list (list Z)) (g g1 : RNG) :
  (block_size < size1 idx)%Z -> (block_size < size1 idx')%Z ->
  crop idx = crop idx' ->
  step (idx, g) = Some (out, g1) ->
  exists idx_next,
    appended idx out idx_next /\
    step (idx', g)
    = Some (zip_with (fun row t => row ++ [t]) idx' idx_next, g1).
Proof.
  intros Hlong Hlong' Hcrop. unfold Generate.step, crop in *.
  rewrite !decide_False by lia. rewrite <- Hcrop.
  destruct (forward _ _ _ _ _ _) as [[logits g2]|]; [|done].
  destruct (mapM _ logits) as [last|]; [|done]. simpl.
  destruct (mapM _ last) as [filtered|]; [|done]. simpl.
  destruct (sample_rows _ _ _ _) as [[idx_next g3]|]; [|done].
  intros [= <- <-]. by exists idx_next.
Qed.

End Context.

Lemma generate_is_incremental_witness :
  (0 <= 1)%Z /\ (0 <= 2)%Z /\
  Generate.generate unit 2 2 toy_network toy_draw [[1%Z]] (1 + 2)%Z 1 None
    None tt
  = Generate.generate unit 2 2 toy_network toy_draw [[1%Z]] 1 1 None None tt
    ≫= fun st =>
         Generate.generate unit 2 2 toy_network toy_draw st.1 2 1 None None
           st.2.
Proof.
  assert (Hk : (0 <= 1)%Z) by lia.
  assert (Hm : (0 <= 2)%Z) by lia.
  split; [exact Hk|]. split; [exact Hm|].
  exact (generate_is_incremental unit 2 2 toy_network toy_draw 1 None None
           [[1%Z]] 1 2 tt Hk Hm).
Defined.

(** Block size 2: the rows [0, 1, 0] and [1, 1, 0] end in the same two
    tokens. *)
Lemma step_sees_last_block_witness :
  exists out idx_next,
    Generate.step unit 2 2 toy_network toy_draw 1 None None
      ([[0; 1; 0]]%Z, tt) = Some (out, tt) /\
    appended [[0; 1; 0]]%Z out idx_next /\
    Generate.step unit 2 2 toy_network toy_draw 1 None None
      ([[1; 1; 0]]%Z, tt)
    = Some (zip_with (fun row t => row ++ [t]) [[1; 1; 0]]%Z idx_next, tt).
Proof.
  destruct (step_ok unit 2 2 toy_network toy_draw toy_draw_in_range 1 None
              None [[0; 1; 0]]%Z tt 3)
    as (out & [] & Hstep & _).
  - lia.
  - lia.
  - lra.
  - exact toy_finite_quotients.
  - exact I.
  - repeat constructor; unfold in_vocab; lia.
  - lia.
  - destruct (step_sees_last_block unit 2 2 toy_network toy_draw 1 None None
                [[0; 1; 0]]%Z [[1; 1; 0]]%Z out tt tt)
      as (idx_next & Happ & Hstep').
    + unfold size1, Py.len. simpl. lia.
    + unfold size1, Py.len. simpl. lia.
    + reflexivity.
    + exact Hstep.
    + by exists out, idx_next.
Defined.

End Context.
